(** * Folio: frame sampling, selection lifecycle and export naming

    A shallow embedding of the three variants of the single-page
    application found in the repository:

    - [Index]   : [src/index.tsx], the first version (no step counter,
                  no sampling-rate setting, cleanup effect keyed on
                  [frames]);
    - [Curator] : the second file of [src/unnamed/part_000]
                  ([MAX_LOOPS = 60], lightbox, [framesRef]);
    - [Folio]   : the first file of [src/unnamed/part_000]
                  ([MAX_LOOPS = 600], the "Frames per Second" setting,
                  translations).

    Numbers.  A JavaScript number is modelled by [JS.num]: a rational, or
    one of [NaN], [+Infinity], [-Infinity].  Arithmetic on the finite part
    is exact: binary rounding of IEEE doubles and the sign of zero are not
    represented; results are kept as reduced fractions ([Qred]), which
    does not change their value.  Everything the code does with [NaN] and
    the infinities (comparisons that answer [false], truthiness,
    [Math.max], [a || b], [Number.isFinite]) is represented.

    Environment.  The decoder, the canvas and the clock are outside the
    program; one sampling step is summarised by what the loop body
    observes of it ([Captured], [NoBlob], [Throws]).  How long a step
    waits is not represented: a seek that never completes (possible in
    [src/index.tsx], which has no per-step timeout) is outside the model.
    Object URLs are handed out by a store that never hands out the same
    URL twice and logs every [URL.revokeObjectURL] call.

    Events.  A handler and the render that follows it are one step:
    [processVideo] runs to its end before the next event is taken. *)

From Stdlib Require Import QArith ZArith Qround Qminmax Lqa String Ascii List Sorted Lia Bool DecimalString.
From Stdlib Require DecimalN.
From stdpp Require Import gmap.
Import ListNotations.

Local Open Scope nat_scope.
Set Warnings "-clear-no-such-hyp".

(** ** JavaScript numbers *)

Module JS.

Inductive num : Type :=
| NaN
| PInf
| NInf
| Fin (q : Q).

Definition of_Z (z : Z) : num := Fin (inject_Z z).
Definition of_nat (n : nat) : num := of_Z (Z.of_nat n).

Definition Qlt_bool (a b : Q) : bool := negb (Qle_bool b a).

(** [a < b] *)
Definition lt (a b : num) : bool :=
  match a, b with
  | NaN, _ | _, NaN => false
  | Fin x, Fin y => Qlt_bool x y
  | NInf, NInf => false
  | NInf, _ => true
  | Fin _, PInf => true
  | _, _ => false
  end.

(** [a <= b] *)
Definition le (a b : num) : bool :=
  match a, b with
  | NaN, _ | _, NaN => false
  | Fin x, Fin y => Qle_bool x y
  | NInf, _ => true
  | _, PInf => true
  | _, _ => false
  end.

(** [a > b] *)
Definition gt (a b : num) : bool := lt b a.

(** [Number.isFinite(a)] *)
Definition isFinite (a : num) : bool :=
  match a with Fin _ => true | _ => false end.

(** ToBoolean on a number: [0] and [NaN] are falsy. *)
Definition truthy (a : num) : bool :=
  match a with
  | NaN => false
  | Fin q => negb (Qeq_bool q 0)
  | _ => true
  end.

(** [a || b] on numbers *)
Definition or (a b : num) : num := if truthy a then a else b.

Definition sign (q : Q) : comparison := (q ?= 0)%Q.

(** [a + b] *)
Definition add (a b : num) : num :=
  match a, b with
  | NaN, _ | _, NaN => NaN
  | PInf, NInf | NInf, PInf => NaN
  | PInf, _ | _, PInf => PInf
  | NInf, _ | _, NInf => NInf
  | Fin x, Fin y => Fin (Qred (x + y))
  end.

Definition inf_of (c : comparison) : num :=
  match c with Gt => PInf | Lt => NInf | Eq => NaN end.

Definition flip (c : comparison) : comparison :=
  match c with Gt => Lt | Lt => Gt | Eq => Eq end.

(** [a * b] *)
Definition mul (a b : num) : num :=
  match a, b with
  | NaN, _ | _, NaN => NaN
  | Fin x, Fin y => Fin (Qred (x * y))
  | PInf, Fin y | Fin y, PInf => inf_of (sign y)
  | NInf, Fin y | Fin y, NInf => inf_of (flip (sign y))
  | PInf, PInf | NInf, NInf => PInf
  | PInf, NInf | NInf, PInf => NInf
  end.

(** [a / b]; a zero divisor is read as [+0]. *)
Definition div (a b : num) : num :=
  match a, b with
  | NaN, _ | _, NaN => NaN
  | Fin x, Fin y =>
      if Qeq_bool y 0 then inf_of (sign x) else Fin (Qred (x / y))
  | Fin _, _ => Fin 0
  | PInf, Fin y => if Qlt_bool y 0 then NInf else PInf
  | NInf, Fin y => if Qlt_bool y 0 then PInf else NInf
  | _, _ => NaN
  end.

(** [Math.max(a, b)] *)
Definition max (a b : num) : num :=
  match a, b with
  | NaN, _ | _, NaN => NaN
  | _, _ => if lt a b then b else a
  end.

(** [Math.min(a, b)] *)
Definition min (a b : num) : num :=
  match a, b with
  | NaN, _ | _, NaN => NaN
  | _, _ => if lt b a then b else a
  end.

(** [Math.round(a)]: nearest integer, ties towards [+Infinity]. *)
Definition round (a : num) : num :=
  match a with
  | Fin q => of_Z (Qfloor (q + (1 # 2)))
  | _ => a
  end.

(** Equality of numeric value ([Q] keeps unreduced fractions). *)
Definition eqv (a b : num) : Prop :=
  match a, b with
  | NaN, NaN | PInf, PInf | NInf, NInf => True
  | Fin x, Fin y => (x == y)%Q
  | _, _ => False
  end.

End JS.

Import JS.

(** ** Text: [toString], [padStart], [toFixed] *)

Module Text.

(** [n.toString()] for a non-negative integer. *)
Definition of_N (n : N) : string := NilZero.string_of_uint (N.to_uint n).

Fixpoint zeros (k : nat) : string :=
  match k with
  | O => EmptyString
  | S k' => String "0"%char (zeros k')
  end.

(** [s.padStart(w, '0')] *)
Definition padStart0 (w : nat) (s : string) : string :=
  (zeros (w - String.length s) ++ s)%string.

(** [x.toFixed(2)]: the integer [n] closest to [100 * |x|] (the larger
    one on a tie), printed with at least three digits and a point before
    the last two; a minus sign in front when [x < 0].  For magnitudes
    from [10^21] on JavaScript switches to exponent notation, which is
    not represented here. *)
Definition toFixed2 (x : num) : string :=
  match x with
  | NaN => "NaN"
  | PInf => "Infinity"
  | NInf => "-Infinity"
  | Fin q =>
      let neg := Qlt_bool q 0 in
      let a := if neg then Qopp q else q in
      let n := Z.to_N (Qfloor (a * 100 + (1 # 2))) in
      let m := padStart0 3 (of_N n) in
      let k := String.length m in
      ((if neg then "-" else "") ++ substring 0 (k - 2) m ++ "." ++ substring (k - 2) 2 m)%string
  end.

End Text.

(** ** The object-URL store of the browser *)

Definition Blob := list Byte.byte.
Abbreviation Url := nat (only parsing).

Record Browser : Type := mkBrowser {
  next_url : Url;            (* the next URL [createObjectURL] will mint *)
  live : gset Url;           (* URLs that still resolve to their blob *)
  revoked : list Url         (* every [revokeObjectURL] call, oldest first *)
}.

Definition createObjectURL (b : Browser) : Url * Browser :=
  (next_url b,
   mkBrowser (S (next_url b)) ({[ next_url b ]} ∪ live b) (revoked b)).

Definition revokeObjectURL (u : Url) (b : Browser) : Browser :=
  mkBrowser (next_url b) (live b ∖ {[ u ]}) (revoked b ++ [u]).

Inductive Alert : Type :=
| errMetadata | errCanvas | errGeneral | errInvalid | errNoSel | errZip
| warnBadVideo.

(** What the page can observe of the outside: the URL store, the values
    handed to [setProgress] (oldest first) and the alerts shown. *)
Record World : Type := mkWorld {
  browser : Browser;
  progressLog : list num;
  alerts : list Alert
}.

Definition on_browser (f : Browser -> Browser) (w : World) : World :=
  mkWorld (f (browser w)) (progressLog w) (alerts w).

Definition setProgress_log (p : num) (w : World) : World :=
  mkWorld (browser w) (progressLog w ++ [p]) (alerts w).

Definition alert (a : Alert) (w : World) : World :=
  mkWorld (browser w) (progressLog w) (alerts w ++ [a]).

(** ** Frames and component state *)

Record PortfolioFrame : Type := mkFrame {
  id : string;
  url : Url;
  blob : Blob;
  selected : bool;
  timestamp : num
}.

Definition with_selected (s : bool) (f : PortfolioFrame) : PortfolioFrame :=
  mkFrame (id f) (url f) (blob f) s (timestamp f).

(** The [useState]/[useRef] cells of [App].  [Index] has neither
    [expandedFrame], [framesRef] nor [framepSecond]; [Curator] has no
    [framepSecond]: the cells a variant lacks keep their initial value.
    [timers] counts the pending 100 ms timers set by [deleteFrame]. *)
Record App : Type := mkApp {
  videoFile : option Blob;
  isProcessing : bool;
  progress : num;
  frames : list PortfolioFrame;
  isZipping : bool;
  expandedFrame : option PortfolioFrame;
  framepSecond : num;
  framesRef : list PortfolioFrame;
  timers : nat
}.

Definition initialApp : App :=
  mkApp None false (of_Z 0) [] false None (of_Z 1) [] 0.

Definition initialWorld : World :=
  mkWorld (mkBrowser 0 ∅ []) [] [].

(** ** The decode source *)

(** What one pass through the loop body observes after it has set
    [video.currentTime]: a blob from [canvas.toBlob], [null] from
    [canvas.toBlob], or an exception that leaves the loop. *)
Inductive Capture : Type :=
| Captured (b : Blob)
| NoBlob
| Throws.

Record Source : Type := mkSource {
  metadata : option num;           (* [video.duration] once metadata loaded;
                                      [None]: error or the 10 s timeout *)
  videoWidth : nat;
  videoHeight : nat;
  context2d : bool;                (* [canvas.getContext('2d')] is not null *)
  capture : nat -> num -> Capture  (* step number (from 0), seek target *)
}.

(** ** [while] loops *)

Section While.
Context {St : Type}.
Variable guard : St -> bool.
(** The body answers the next state and whether it threw. *)
Variable body : St -> St * bool.

Record Exit : Type := mkExit {
  final : St;
  threw : bool;
  iterations : nat
}.

Fixpoint while (fuel : nat) (s : St) : option Exit :=
  if guard s then
    match fuel with
    | O => None
    | S fuel' =>
        let (s', t) := body s in
        if t then Some (mkExit s' true 1)
        else match while fuel' s' with
             | Some e => Some (mkExit (final e) (threw e) (S (iterations e)))
             | None => None
             end
    end
  else Some (mkExit s false 0).
End While.

Arguments mkExit {St}.
Arguments final {St}.
Arguments threw {St}.
Arguments iterations {St}.

(** State of the sampling loop: the [let]s it updates, [newFrames], and
    the world.  [loopCount] is the counter of [Folio] and [Curator]; in
    [Index], which has none, it only numbers the requests to the decoder. *)
Record LoopSt : Type := mkLoop {
  currentTime : num;
  loopCount : nat;
  newFrames : list PortfolioFrame;
  world : World
}.

(** [if (blob) { const url = URL.createObjectURL(blob); newFrames.push(..) }] *)
Definition push_frame (sel : bool) (t : num) (b : Blob) (fs : list PortfolioFrame)
    (w : World) : list PortfolioFrame * World :=
  let (u, br) := createObjectURL (browser w) in
  (fs ++ [mkFrame ("frame-" ++ Text.toFixed2 t) u b sel t],
   mkWorld br (progressLog w) (alerts w)).

(** The part of the body after the seek: draw, encode, push, advance. *)
Definition capture_step (src : Source) (sel : bool) (interval : num)
    (n : nat) (s : LoopSt) (w : World) : LoopSt * bool :=
  match capture src (loopCount s) (currentTime s) with
  | Throws => (mkLoop (currentTime s) n (newFrames s) w, true)
  | NoBlob =>
      (mkLoop (add (currentTime s) interval) n (newFrames s) w, false)
  | Captured b =>
      let (fs, w') := push_frame sel (currentTime s) b (newFrames s) w in
      (mkLoop (add (currentTime s) interval) n fs w', false)
  end.

(** The [finally] block: release the video URL, commit the frames. *)
Definition finalize (app : App) (videoUrl : Url) (e : Exit (St:=LoopSt)) : App * World :=
  let w := world (final e) in
  let w := if threw e then alert errGeneral w else w in
  let w := on_browser (revokeObjectURL videoUrl) w in
  let w := setProgress_log (of_Z 100) w in
  (mkApp (videoFile app) false (of_Z 100) (newFrames (final e)) (isZipping app)
         (expandedFrame app) (framepSecond app) (framesRef app) (timers app),
   w).

(** [setIsProcessing(true); setProgress(0); setFrames([]);] and
    [video.src = URL.createObjectURL(file)]. *)
Definition begin_processing (app : App) (w : World) : App * Url * World :=
  let (u, br) := createObjectURL (browser w) in
  (mkApp (videoFile app) true (of_Z 0) [] (isZipping app)
         (expandedFrame app) (framepSecond app) (framesRef app) (timers app),
   u,
   setProgress_log (of_Z 0) (mkWorld br (progressLog w) (alerts w))).

(** An early [return] of [processVideo]: alert, [setIsProcessing(false)]. *)
Definition early_return (a : Alert) (app : App) (w : World) : App * World :=
  (mkApp (videoFile app) false (progress app) (frames app) (isZipping app)
         (expandedFrame app) (framepSecond app) (framesRef app) (timers app),
   alert a w).

(** [arr[i]] for an integer [i]: [undefined] outside [0 .. length-1]. *)
Definition js_index {A : Type} (l : list A) (i : Z) : option A :=
  if (i <? 0)%Z then None else nth_error l (Z.to_nat i).

(** [arr.findIndex(p)]: [-1] when nothing matches. *)
Fixpoint findIndex_from {A : Type} (p : A -> bool) (l : list A) (i : Z) : Z :=
  match l with
  | [] => (-1)%Z
  | x :: l' => if p x then i else findIndex_from p l' (i + 1)%Z
  end.

Definition findIndex {A : Type} (p : A -> bool) (l : list A) : Z :=
  findIndex_from p l 0%Z.

(** [a || b || null] on values of which only [undefined] is falsy. *)
Definition or_else {A : Type} (a b : option A) : option A :=
  match a with Some _ => a | None => b end.

Definition has_id (i : string) (f : PortfolioFrame) : bool := String.eqb (id f) i.

Definition revoke_all (fs : list PortfolioFrame) (b : Browser) : Browser :=
  fold_left (fun b f => revokeObjectURL (url f) b) fs b.

(** [forEach((frame, i) => zip.file(`portfolio_shot_${indexStr}.jpg`, frame.blob))]
    with [indexStr = (i + 1).toString().padStart(2, '0')]. *)
Definition entry_name (i : nat) : string :=
  ("portfolio_shot_" ++ Text.padStart0 2 (Text.of_N (N.of_nat (i + 1))) ++ ".jpg")%string.

Fixpoint zip_entries_from (i : nat) (fs : list PortfolioFrame) : list (string * Blob) :=
  match fs with
  | [] => []
  | f :: fs' => (entry_name i, blob f) :: zip_entries_from (S i) fs'
  end.

(** [handleDownload], the same text in the three variants: the entries
    handed to the archive library, or the "nothing selected" alert.  The
    archive library is taken to succeed; the archive URL is minted and
    revoked at once. *)
Definition handleDownload (app : App) (w : World) : option (list (string * Blob)) * World :=
  let selectedFrames := List.filter selected (frames app) in
  if length selectedFrames =? 0 then (None, alert errNoSel w)
  else
    let (u, br) := createObjectURL (browser w) in
    (Some (zip_entries_from 0 selectedFrames),
     mkWorld (revokeObjectURL u br) (progressLog w) (alerts w)).

(** [selectAll], the same text in the three variants. *)
Definition selectAll (select : bool) (app : App) : App :=
  mkApp (videoFile app) (isProcessing app) (progress app)
        (map (with_selected select) (frames app)) (isZipping app)
        (expandedFrame app) (framepSecond app) (framesRef app) (timers app).

(** ** [src/index.tsx] *)

Module Index.

Definition targetFrameCount : num := of_Z 30.

(** [const duration = video.duration || 1;] *)
Definition fallback_duration (reported : num) : num := or reported (of_Z 1).

(** [Math.max(0.5, duration / targetFrameCount)] *)
Definition plan_interval (duration : num) : num :=
  max (Fin (1 # 2)) (div duration targetFrameCount).

(** [Math.min(0.5, duration / 2)] *)
Definition start_offset (duration : num) : num :=
  min (Fin (1 # 2)) (div duration (of_Z 2)).

(** [while (currentTime < duration)] *)
Definition guard (duration : num) (s : LoopSt) : bool :=
  lt (currentTime s) duration.

(** [Math.min(99, Math.round((currentTime / duration) * 100))] *)
Definition reported_progress (duration : num) (s : LoopSt) : num :=
  min (of_Z 99) (round (mul (div (currentTime s) duration) (of_Z 100))).

Definition body (src : Source) (interval duration : num) (s : LoopSt) : LoopSt * bool :=
  let w := setProgress_log (reported_progress duration s) (world s) in
  capture_step src true interval (S (loopCount s)) s w.

Definition processVideo (fuel : nat) (src : Source) (file : Blob)
    (app : App) (w : World) : option (App * World) :=
  let '(app1, videoUrl, w1) := begin_processing app w in
  match metadata src with
  | None => Some (early_return errMetadata app1 w1)
  | Some reported =>
      let duration := fallback_duration reported in
      let interval := plan_interval duration in
      if negb (context2d src) then Some (early_return errCanvas app1 w1)
      else
        let s0 := mkLoop (start_offset duration) 0 [] w1 in
        match while (guard duration) (body src interval duration) fuel s0 with
        | None => None
        | Some e => Some (finalize app1 videoUrl e)
        end
  end.

Definition toggleFrameSelection (i : string) (app : App) : App :=
  mkApp (videoFile app) (isProcessing app) (progress app)
        (map (fun f => if has_id i f then with_selected (negb (selected f)) f else f)
             (frames app))
        (isZipping app) (expandedFrame app) (framepSecond app) (framesRef app)
        (timers app).

(** [setFrames(frames.filter(f => f.id !== id));
     const frame = frames.find(f => f.id === id);
     if (frame) URL.revokeObjectURL(frame.url);] *)
Definition deleteFrame (i : string) (app : App) (w : World) : App * World :=
  let app' :=
    mkApp (videoFile app) (isProcessing app) (progress app)
          (List.filter (fun f => negb (has_id i f)) (frames app))
          (isZipping app) (expandedFrame app) (framepSecond app) (framesRef app)
          (timers app) in
  match List.find (has_id i) (frames app) with
  | Some frame => (app', on_browser (revokeObjectURL (url frame)) w)
  | None => (app', w)
  end.

Definition handleRerun (app : App) (w : World) : App * World :=
  (mkApp None false (of_Z 0) [] (isZipping app) (expandedFrame app)
         (framepSecond app) (framesRef app) (timers app),
   on_browser (revoke_all (frames app)) w).

(** The cleanup of [useEffect(() => () => frames.forEach(revoke), [frames])]:
    it runs with the previous array whenever [setFrames] installed a new
    one, and at unmount. *)
Definition frames_effect_cleanup (previous : list PortfolioFrame) (w : World) : World :=
  on_browser (revoke_all previous) w.

End Index.

(** ** [src/unnamed/part_000], first file *)

Module Folio.

Definition targetFrameCount : num := of_Z 30.
Definition maxFrameCount : num := of_Z 600.
Definition MAX_LOOPS : nat := 600.

(** [let duration = video.duration;
     if (!Number.isFinite(duration) || duration <= 0) duration = 1;] *)
Definition sane_duration (reported : num) : num :=
  if negb (isFinite reported) || le reported (of_Z 0) then of_Z 1 else reported.

(** [if (framepSecond > 0 || framepSecond) ... else ...] *)
Definition plan_interval (fps duration : num) : num :=
  if gt fps (of_Z 0) || truthy fps
  then max (div (of_Z 1) fps) (div duration maxFrameCount)
  else max (Fin (1 # 10)) (div duration targetFrameCount).

(** [Math.min(0.1, duration / 10)] *)
Definition start_offset (duration : num) : num :=
  min (Fin (1 # 10)) (div duration (of_Z 10)).

(** [while (currentTime < duration && loopCount < MAX_LOOPS)] *)
Definition guard_with (maxLoops : nat) (duration : num) (s : LoopSt) : bool :=
  lt (currentTime s) duration && (loopCount s <? maxLoops).

(** The value handed to [setProgress] once [loopCount++] has run. *)
Definition reported_progress_with (maxLoops : nat) (duration : num)
    (t : num) (count : nat) : num :=
  let timeProgress := mul (div t duration) (of_Z 100) in
  let loopProgress := mul (div (of_nat count) (of_nat maxLoops)) (of_Z 100) in
  min (of_Z 99) (round (max timeProgress loopProgress)).

Definition body_with (maxLoops : nat) (sel : bool) (src : Source)
    (interval duration : num) (s : LoopSt) : LoopSt * bool :=
  let count := S (loopCount s) in
  let w := setProgress_log
             (reported_progress_with maxLoops duration (currentTime s) count)
             (world s) in
  capture_step src sel interval count s w.

Definition guard := guard_with MAX_LOOPS.
Definition reported_progress := reported_progress_with MAX_LOOPS.
Definition body := body_with MAX_LOOPS false.

Definition processVideo (fuel : nat) (src : Source) (file : Blob)
    (app : App) (w : World) : option (App * World) :=
  let '(app1, videoUrl, w1) := begin_processing app w in
  match metadata src with
  | None => Some (early_return errMetadata app1 w1)
  | Some reported =>
      let duration := sane_duration reported in
      let interval := plan_interval (framepSecond app) duration in
      if negb (context2d src) then Some (early_return errCanvas app1 w1)
      else
        let s0 := mkLoop (start_offset duration) 0 [] w1 in
        match while (guard duration) (body src interval duration) fuel s0 with
        | None => None
        | Some e => Some (finalize app1 videoUrl e)
        end
  end.

(** [framesRef.current.forEach(f => URL.revokeObjectURL(f.url)); setFrames([]);
     setVideoFile(null); setProgress(0); setIsProcessing(false);] *)
Definition handleRerun (app : App) (w : World) : App * World :=
  (mkApp None false (of_Z 0) [] (isZipping app) (expandedFrame app)
         (framepSecond app) (framesRef app) (timers app),
   on_browser (revoke_all (framesRef app)) w).

Definition toggleFrameSelection (i : string) (app : App) : App :=
  let flip f := with_selected (negb (selected f)) f in
  mkApp (videoFile app) (isProcessing app) (progress app)
        (map (fun f => if has_id i f then flip f else f) (frames app))
        (isZipping app)
        (match expandedFrame app with
         | Some e => if has_id i e then Some (flip e) else Some e
         | None => None
         end)
        (framepSecond app) (framesRef app) (timers app).

(** [const nextFrameToShow = frames[frameIndex + 1] || frames[frameIndex - 1] || null;] *)
Definition nextFrameToShow (i : string) (fs : list PortfolioFrame) : option PortfolioFrame :=
  let frameIndex := findIndex (has_id i) fs in
  or_else (js_index fs (frameIndex + 1)%Z) (js_index fs (frameIndex - 1)%Z).

Definition deleteFrame (i : string) (app : App) (w : World) : App * World :=
  let next := nextFrameToShow i (frames app) in
  let newFrames := List.filter (fun f => negb (has_id i f)) (frames app) in
  let w :=
    match List.find (has_id i) (frames app) with
    | Some frameToDelete => on_browser (revokeObjectURL (url frameToDelete)) w
    | None => w
    end in
  if length newFrames =? 0 then
    (mkApp (videoFile app) (isProcessing app) (progress app) [] (isZipping app)
           None (framepSecond app) (framesRef app) (S (timers app)),
     w)
  else
    (mkApp (videoFile app) (isProcessing app) (progress app) newFrames (isZipping app)
           (match expandedFrame app with
            | Some e => if has_id i e then next else Some e
            | None => None
            end)
           (framepSecond app) (framesRef app) (timers app),
     w).

(** The body of the timer set by [deleteFrame]:
    [window.alert(t.warnBadVideo); handleRerun();] *)
Definition badVideoTimer (app : App) (w : World) : App * World :=
  let (app', w') := handleRerun app (alert warnBadVideo w) in
  (mkApp (videoFile app') (isProcessing app') (progress app') (frames app')
         (isZipping app') (expandedFrame app') (framepSecond app') (framesRef app')
         (pred (timers app')),
   w').

(** [useEffect(() => { framesRef.current = frames; }, [frames])] *)
Definition sync_framesRef (app : App) : App :=
  mkApp (videoFile app) (isProcessing app) (progress app) (frames app)
        (isZipping app) (expandedFrame app) (framepSecond app) (frames app)
        (timers app).

(** The unmount cleanup: [framesRef.current.forEach(revoke)]. *)
Definition unmount (app : App) (w : World) : World :=
  on_browser (revoke_all (framesRef app)) w.

End Folio.

(** ** [src/unnamed/part_000], second file *)

Module Curator.

Definition targetFrameCount : num := of_Z 30.
Definition MAX_LOOPS : nat := 60.

Definition sane_duration := Folio.sane_duration.

(** [Math.max(0.1, duration / targetFrameCount)] *)
Definition plan_interval (duration : num) : num :=
  max (Fin (1 # 10)) (div duration targetFrameCount).

Definition start_offset := Folio.start_offset.

Definition guard := Folio.guard_with MAX_LOOPS.
Definition reported_progress := Folio.reported_progress_with MAX_LOOPS.
Definition body := Folio.body_with MAX_LOOPS true.

Definition processVideo (fuel : nat) (src : Source) (file : Blob)
    (app : App) (w : World) : option (App * World) :=
  let '(app1, videoUrl, w1) := begin_processing app w in
  match metadata src with
  | None => Some (early_return errMetadata app1 w1)
  | Some reported =>
      let duration := sane_duration reported in
      let interval := plan_interval duration in
      if negb (context2d src) then Some (early_return errCanvas app1 w1)
      else
        let s0 := mkLoop (start_offset duration) 0 [] w1 in
        match while (guard duration) (body src interval duration) fuel s0 with
        | None => None
        | Some e => Some (finalize app1 videoUrl e)
        end
  end.

(** The handlers below have the text of [Folio]'s, alert strings apart. *)
Definition handleRerun := Folio.handleRerun.
Definition toggleFrameSelection := Folio.toggleFrameSelection.
Definition deleteFrame := Folio.deleteFrame.

End Curator.

(** * The page as a transition system ([Folio]) *)

(** The state setters the handlers below do not already cover. *)
Definition setFramepSecond (r : num) (app : App) : App :=
  mkApp (videoFile app) (isProcessing app) (progress app) (frames app)
        (isZipping app) (expandedFrame app) r (framesRef app) (timers app).

Definition setVideoFile (f : option Blob) (app : App) : App :=
  mkApp f (isProcessing app) (progress app) (frames app)
        (isZipping app) (expandedFrame app) (framepSecond app) (framesRef app)
        (timers app).

Definition setExpandedFrame (e : option PortfolioFrame) (app : App) : App :=
  mkApp (videoFile app) (isProcessing app) (progress app) (frames app)
        (isZipping app) e (framepSecond app) (framesRef app) (timers app).

(** The three [return]s of [App]: the upload screen when
    [!videoFile && !isProcessing && frames.length === 0], the progress
    screen when [isProcessing], the gallery otherwise. *)
Inductive Screen : Type := UploadScreen | ProgressScreen | Gallery.

Definition screen (app : App) : Screen :=
  match videoFile app, isProcessing app, frames app with
  | None, false, [] => UploadScreen
  | _, true, _ => ProgressScreen
  | _, _, _ => Gallery
  end.

(** What the user and the timer can do to the page.  Each handler is
    followed by the render that runs [framesRef.current = frames].
    Unmounting ends the component and is not an event: see [Folio.unmount]. *)
Inductive Event : Type :=
| TypeRate (r : num)                    (* the "Frames per Second" input *)
| PickFile (file : Blob) (src : Source) (* [onFileSelect] *)
| OpenFrame (k : nat)                   (* click on the k-th thumbnail *)
| CloseLightbox
| ClickToggle (i : string)
| ClickDelete (i : string)
| ClickSelectAll
| ClickStartOver
| ClickDownload
| TimerFires.                           (* the 100 ms timer of [deleteFrame] *)

(** Ids the gallery offers a delete or toggle button for. *)
Definition offered (i : string) (app : App) : bool :=
  existsb (has_id i) (frames app) ||
  match expandedFrame app with Some e => has_id i e | None => false end.

(** The render after a handler: the effect [framesRef.current = frames]. *)
Definition rendered (r : App * World) : option (App * World) :=
  Some (Folio.sync_framesRef (fst r), snd r).

(** One event; [None] when the screen does not offer it. *)
Definition step (ev : Event) (st : App * World) : option (App * World) :=
  let (app, w) := st in
  match ev, screen app with
  | TypeRate r, UploadScreen => Some (setFramepSecond r app, w)
  | PickFile file src, UploadScreen =>
      match Folio.processVideo Folio.MAX_LOOPS src file
              (setVideoFile (Some file) app) w with
      | Some r => rendered r
      | None => None
      end
  | OpenFrame k, Gallery =>
      match nth_error (frames app) k with
      | Some f => if isZipping app then None else Some (setExpandedFrame (Some f) app, w)
      | None => None
      end
  | CloseLightbox, Gallery => Some (setExpandedFrame None app, w)
  | ClickToggle i, Gallery =>
      if offered i app then rendered (Folio.toggleFrameSelection i app, w) else None
  | ClickDelete i, Gallery =>
      if offered i app then rendered (Folio.deleteFrame i app w) else None
  | ClickSelectAll, Gallery =>
      if isZipping app then None
      else rendered (selectAll (existsb (fun f => negb (selected f)) (frames app)) app, w)
  | ClickStartOver, Gallery =>
      if isZipping app then None else rendered (Folio.handleRerun app w)
  | ClickDownload, Gallery =>
      if isZipping app then None
      else match handleDownload app w with
           | (Some _, w') => Some (app, w')
           | (None, _) => None      (* the button is disabled *)
           end
  | TimerFires, _ =>
      match timers app with
      | O => None
      | S _ => rendered (Folio.badVideoTimer app w)
      end
  | _, _ => None
  end.

(** A sequence of events, oldest first. *)
Fixpoint run (evs : list Event) (st : App * World) : option (App * World) :=
  match evs with
  | [] => Some st
  | ev :: evs' =>
      match step ev st with
      | Some st' => run evs' st'
      | None => None
      end
  end.

(** A decoder that reports [d], has a canvas, and yields a blob at every
    step. *)
Definition steady_source (d : num) : Source :=
  mkSource (Some d) 640 480 true (fun _ _ => Captured []).

(** * Selection count, lightbox, labels, language *)

(** ** Selection count (the three variants) *)

(** [frames.filter(f => f.selected).length] *)
Definition selectedCount (app : App) : nat :=
  length (List.filter selected (frames app)).

(** ** Lightbox navigation ([Folio] and [Curator]) *)

(** [expandedFrame ? frames.findIndex(f => f.id === expandedFrame.id) : -1] *)
Definition currentIndex (app : App) : Z :=
  match expandedFrame app with
  | Some e => findIndex (has_id (id e)) (frames app)
  | None => (-1)%Z
  end.

(** [currentIndex > 0] *)
Definition hasPrev (app : App) : bool := (0 <? currentIndex app)%Z.

(** [currentIndex !== -1 && currentIndex < frames.length - 1] *)
Definition hasNext (app : App) : bool :=
  negb (currentIndex app =? -1)%Z &&
  (currentIndex app <? Z.of_nat (length (frames app)) - 1)%Z.

(** [if (hasPrev) setExpandedFrame(frames[currentIndex - 1]);] *)
Definition goToPrev (app : App) : App :=
  if hasPrev app
  then setExpandedFrame (js_index (frames app) (currentIndex app - 1)%Z) app
  else app.

(** [if (hasNext) setExpandedFrame(frames[currentIndex + 1]);] *)
Definition goToNext (app : App) : App :=
  if hasNext app
  then setExpandedFrame (js_index (frames app) (currentIndex app + 1)%Z) app
  else app.

(** [handleKeyDown]: [if (!expandedFrame) return; switch (e.key) ...] *)
Definition handleKeyDown (key : string) (app : App) : App :=
  match expandedFrame app with
  | None => app
  | Some _ =>
      if String.eqb key "Escape" then setExpandedFrame None app
      else if String.eqb key "ArrowLeft" then goToPrev app
      else if String.eqb key "ArrowRight" then goToNext app
      else app
  end.

(** ** The effect keyed on [frames] ([src/index.tsx]) *)

(** The render of [src/index.tsx] after a handler that called [setFrames]:
    React runs the cleanup of the effect of the previous render, which
    closed over the previous array. *)
Definition Index_commit_frames (previous : list PortfolioFrame) (r : App * World)
    : App * World :=
  (fst r, Index.frames_effect_cleanup previous (snd r)).

(** ** Time labels (the three variants) *)

(** What rendering a label gives: its text; the exception [toISOString]
    throws on an invalid date; or a date in a year outside 0..9999, where
    the ISO string has another layout (its characters are not
    represented). *)
Inductive Label : Type :=
| Shown (text : string)
| RangeError
| OtherYear.

(** [n] printed with at least two digits. *)
Definition two_digits (z : Z) : string := Text.padStart0 2 (Text.of_N (Z.to_N z)).

(** [new Date(t * 1000).toISOString().substr(14, 5)]: the date is invalid
    when [t * 1000] is not a number or beyond 8.64e15 in magnitude, and
    [toISOString] throws on it; otherwise the time value is [t * 1000] cut
    to an integer, and for the years 0 to 9999 the characters 14 to 18 of
    the ISO string are its minutes and seconds. *)
Definition timeLabel (t : num) : Label :=
  match mul t (of_Z 1000) with
  | Fin x =>
      if Qlt_bool 8640000000000000 x || Qlt_bool x (-8640000000000000) then RangeError
      else
        let ms := Z.quot (Qnum x) (Z.pos (Qden x)) in
        if ((-62167219200000 <=? ms) && (ms <? 253402300800000))%Z
        then Shown (two_digits ((ms / 60000) mod 60) ++ ":" ++
                    two_digits ((ms / 1000) mod 60))
        else OtherYear
  | _ => RangeError
  end.

(** ** The initial language ([Folio]) *)

Module I18n.

(** [type Language = 'en' | 'zh' | 'fr' | 'de' | 'es'] *)
Inductive Language : Type := en | zh | fr | de | es.

(** [s.split('-')[0]]: the part of [s] before its first ['-']. *)
Fixpoint before_dash (s : string) : string :=
  match s with
  | EmptyString => EmptyString
  | String c s' => if Ascii.eqb c "-" then EmptyString else String c (before_dash s')
  end.

(** [getInitialLanguage], on the value of [navigator.language]. *)
Definition getInitialLanguage (navigatorLanguage : string) : Language :=
  let browserLang := before_dash navigatorLanguage in
  if String.eqb browserLang "zh" then zh
  else if String.eqb browserLang "fr" then fr
  else if String.eqb browserLang "de" then de
  else if String.eqb browserLang "es" then es
  else en.

End I18n.

(** * Vocabulary of the properties *)

(** ** Loops *)

(** [newFrames] never holds more frames than [loopCount] counts, and
    [loopCount] never passes the ceiling. *)
Definition within_ceiling (maxLoops : nat) (s : LoopSt) : Prop :=
  length (newFrames s) <= loopCount s /\ loopCount s <= maxLoops.

(** At most [n] passes remain: [n] more intervals reach the duration [d]. *)
Definition time_rank (d i : Q) (n : nat) (s : LoopSt) : Prop :=
  exists t, currentTime s = Fin t /\ (d <= t + inject_Z (Z.of_nat n) * i)%Q.

(** A loop body that reports, then captures: the shape of the three loops. *)
Definition reporting_body (report : num -> nat -> num) (sel : bool) (src : Source)
    (interval : num) (s : LoopSt) : LoopSt * bool :=
  capture_step src sel interval (S (loopCount s)) s
    (setProgress_log (report (currentTime s) (S (loopCount s))) (world s)).

(** [currentTime] after [k] passes that did not throw. *)
Fixpoint time_at (t interval : num) (k : nat) : num :=
  match k with
  | O => t
  | S k' => time_at (add t interval) interval k'
  end.

(** ** Planner *)

(** The rates the specification sends to the first branch. *)
Definition positive_finite (rate : num) : Prop :=
  exists r, rate = Fin r /\ (0 < r)%Q.

(** The planner in the specification's words, at the constants of [Folio]
    ([hardCeiling = 600], [targetCount = 30], [minSpacing = smallLeadIn =
    0.1]): a positive finite rate gives [max(1/rate, duration/600)], every
    other rate the fallback, and the start offset is [min(0.1, duration/10)]. *)
Definition planner_as_specified : Prop :=
  forall (d : Q) (rate : num), (0 < d)%Q ->
    (forall r, rate = Fin r -> (0 < r)%Q ->
       eqv (Folio.plan_interval rate (Fin d)) (Fin (Qmax (1 / r) (d / 600)))) /\
    (~ positive_finite rate ->
       eqv (Folio.plan_interval rate (Fin d)) (Fin (Qmax (1 # 10) (d / 30)))) /\
    eqv (Folio.start_offset (Fin d)) (Fin (Qmin (1 # 10) (d / 10))).

(** ** Timestamps *)

(** [f] was sampled before [g]. *)
Definition earlier (f g : PortfolioFrame) : Prop :=
  lt (timestamp f) (timestamp g) = true.

(** The timestamp lies in [[0, duration)]. *)
Definition in_range (duration : num) (f : PortfolioFrame) : Prop :=
  le (of_Z 0) (timestamp f) = true /\ lt (timestamp f) duration = true.


(** The duration a run of [Folio] or [Curator] works with. *)
Definition run_duration (src : Source) : num :=
  match metadata src with
  | Some reported => Folio.sane_duration reported
  | None => of_Z 1
  end.

(** ** Progress *)

(** The progress value in the specification's words:
    [max(timeProgress, stepProgress)], rounded, clamped to 99. *)
Definition spec_progress (t d : Q) (stepsTaken stepCeiling : nat) : Q :=
  let timeProgress := (t / d * 100)%Q in
  let stepProgress :=
    (inject_Z (Z.of_nat stepsTaken) / inject_Z (Z.of_nat stepCeiling) * 100)%Q in
  Qmin 99 (inject_Z (Qfloor (Qmax timeProgress stepProgress + (1 # 2)))).

(** [a <= b] on values handed to [setProgress]. *)
Definition not_above (a b : num) : Prop := le a b = true.

(** The value reported by pass [j] (from 0) of a loop entered at [s]. *)
Definition report_at (maxLoops : nat) (interval duration : num)
    (s : LoopSt) (j : nat) : num :=
  Folio.reported_progress_with maxLoops duration
    (time_at (currentTime s) interval j) (S (loopCount s + j)).

(** The value reported by pass [k] (from 0) of a run. *)
Definition run_report (maxLoops : nat) (d i s : Q) (k : nat) : num :=
  Folio.reported_progress_with maxLoops (Fin d) (time_at (Fin s) (Fin i) k) (S k).

(** The value [src/index.tsx] hands to [setProgress] at [currentTime = t]. *)
Definition index_report (duration t : num) : num :=
  min (of_Z 99) (round (mul (div t duration) (of_Z 100))).

(** The same in the words of arithmetic. *)
Definition index_spec_progress (t d : Q) : Q :=
  Qmin 99 (inject_Z (Qfloor (t / d * 100 + (1 # 2)))).

(** ** Archive entry names *)

(** Entry [i] (from 0) sorts before entry [j] as a string. *)
Definition name_before (i j : nat) : bool :=
  match String.compare (entry_name i) (entry_name j) with
  | Lt => true
  | _ => false
  end.

(** Among the first [n] entries, string order agrees with index order. *)
Definition names_sorted_up_to (n : nat) : Prop :=
  forall i j, i < j -> j < n -> name_before i j = true.

(** The same as a computation. *)
Definition names_sorted_up_to_b (n : nat) : bool :=
  forallb (fun j => forallb (fun i => name_before i j) (seq 0 j)) (seq 0 n).

(** ** Deleting *)

(** Frames whose ids are pairwise different. *)
Definition distinct_ids (fs : list PortfolioFrame) : Prop := List.NoDup (map id fs).

(** The successor in the specification's words: the next frame if there
    is one, else the previous one, else none. *)
Definition successor_of (l1 l2 : list PortfolioFrame) : option PortfolioFrame :=
  match l2 with
  | next :: _ => Some next
  | [] => match rev l1 with
          | previous :: _ => Some previous
          | [] => None
          end
  end.

(** ** Display handles *)

(** The URLs of a list of frames. *)
Definition urls (fs : list PortfolioFrame) : list nat := map url fs.

(** The URL store is consistent: no URL was revoked twice, every URL that
    is live or was revoked has been minted, and a revoked URL is not live. *)
Definition store_ok (b : Browser) : Prop :=
  NoDup (revoked b) /\
  (forall u, u ∈ live b -> u < next_url b) /\
  (forall u, u ∈ revoked b -> u < next_url b /\ u ∉ live b).

(** Every frame of the run has a display handle of its own, live, and
    [framesRef] is in step with [frames]. *)
Definition handles_ok (st : App * World) : Prop :=
  framesRef (fst st) = frames (fst st) /\
  NoDup (urls (frames (fst st))) /\
  (forall u, u ∈ urls (frames (fst st)) -> u ∈ live (browser (snd st))) /\
  store_ok (browser (snd st)).

(** The frames pushed so far have live URLs of their own, none of them the
    URL of the video, which is live too; nothing was revoked in the loop. *)
Definition loop_handles_ok (videoUrl : nat) (log : list nat) (s : LoopSt) : Prop :=
  store_ok (browser (world s)) /\
  revoked (browser (world s)) = log /\
  videoUrl ∈ live (browser (world s)) /\
  NoDup (urls (newFrames s)) /\
  (forall u, u ∈ urls (newFrames s) ->
             u ∈ live (browser (world s)) /\ u <> videoUrl).

(** A frame that leaves has its URL revoked and no longer live; the frames
    that stay keep distinct, live URLs. *)
Definition leavers_released (st st' : App * World) : Prop :=
  forall f, f ∈ frames (fst st) ->
            url f ∉ urls (frames (fst st')) ->
            url f ∈ revoked (browser (snd st')) /\
            url f ∉ live (browser (snd st')).

(** Along the events [evs] from [st], the frames on screen have pairwise
    different ids before each event. *)
Fixpoint ids_stay_distinct (evs : list Event) (st : App * World) : Prop :=
  match evs with
  | [] => True
  | ev :: evs' =>
      List.NoDup (map id (frames (fst st))) /\
      match step ev st with
      | Some st' => ids_stay_distinct evs' st'
      | None => True
      end
  end.

(** ** Selection *)

(** The map [toggleFrameSelection] applies to [frames]. *)
Definition toggled (i : string) (fs : list PortfolioFrame) : list PortfolioFrame :=
  map (fun f => if has_id i f then with_selected (negb (selected f)) f else f) fs.

(** ** Decimal text *)

(** The number a string of decimal digits stands for. *)
Definition decimal_value (s : string) : option N :=
  option_map N.of_uint (NilZero.uint_of_string s).

(** The digits of [toFixed(2)] with the point put in. *)
Definition point_two (m : string) : string :=
  (substring 0 (String.length m - 2) m ++ "." ++ substring (String.length m - 2) 2 m)%string.

(** [100 * q], rounded: the integer [toFixed(2)] prints. *)
Definition cents (q : Q) : N := Z.to_N (Qfloor (q * 100 + (1 # 2))).

(** ** Spacing of the samples *)

(** [h] was sampled at least [g] seconds after [f]. *)
Definition apart (g : Q) (f h : PortfolioFrame) : Prop :=
  exists q r, timestamp f = Fin q /\ timestamp h = Fin r /\ (q + g <= r)%Q.

(** The interval is at least [g] seconds (or infinite). *)
Definition at_least (g : Q) (interval : num) : Prop :=
  interval = PInf \/ exists i, interval = Fin i /\ (g <= i)%Q.

(** While the loop runs: [currentTime] is a non-negative number or
    [Infinity]; each frame pushed so far carries its sampling time, an id
    made from it, a timestamp in [[0, duration)] that lies at least [g]
    before [currentTime]; and the frames are at least [g] apart, oldest
    first. *)
Definition spaced (g : Q) (duration : num) (s : LoopSt) : Prop :=
  (currentTime s = PInf \/ exists t, currentTime s = Fin t /\ (0 <= t)%Q) /\
  Forall (fun f => exists q,
            timestamp f = Fin q /\
            id f = ("frame-" ++ Text.toFixed2 (Fin q))%string /\
            (0 <= q)%Q /\ lt (Fin q) duration = true /\
            le (Fin (q + g)) (currentTime s) = true)
         (newFrames s) /\
  StronglySorted (apart g) (newFrames s).

(** The duration a run of [src/index.tsx] works with. *)
Definition index_run_duration (src : Source) : num :=
  match metadata src with
  | Some reported => Index.fallback_duration reported
  | None => of_Z 1
  end.


(** ** The ways out of [processVideo] *)

(** The three ways out of [processVideo]. *)
Inductive Outcome : Type :=
| NoMetadata
| NoCanvas
| Sampled (e : Exit (St:=LoopSt)).

(** The result of the run of [processVideo] that leaves by [o]. *)
Definition outcome_result (app : App) (w : World) (o : Outcome) : App * World :=
  let '(app1, videoUrl, w1) := begin_processing app w in
  match o with
  | NoMetadata => early_return errMetadata app1 w1
  | NoCanvas => early_return errCanvas app1 w1
  | Sampled e => finalize app1 videoUrl e
  end.

(** The state in which the loop is entered. *)
Definition loop_entry (start : num) (app : App) (w : World) : LoopSt :=
  mkLoop start 0 [] (snd (begin_processing app w)).

(** A frame without its URL. *)
Definition frame_data (f : PortfolioFrame) : string * Blob * bool * num :=
  (id f, blob f, selected f, timestamp f).

(** What the pass numbered [n], made at [currentTime = t], adds to the
    frames: one frame when the decoder yields a blob, none otherwise. *)
Definition pass_frames (src : Source) (sel : bool) (t : num) (n : nat)
    : list (string * Blob * bool * num) :=
  match capture src n t with
  | Captured b => [(("frame-" ++ Text.toFixed2 t)%string, b, sel, t)]
  | _ => []
  end.

(** The result [r] of a run holds exactly what the decoder yielded: there
    were [n] passes, pass [j] at [currentTime = start + j * interval], all
    of them inside the video (and [n] within the ceiling, where there is
    one); the frames are those of the passes that yielded a blob, oldest
    first; only the last pass can have thrown, and then the "general
    error" alert is shown; otherwise the loop stopped because the next
    pass would have been outside the video or beyond the ceiling. *)
Definition sampled_as_decoded (src : Source) (sel : bool)
    (start interval duration : num) (ceiling : option nat)
    (w : World) (r : App * World) : Prop :=
  let T j := time_at start interval j in
  exists n,
    (forall j, j < n -> lt (T j) duration = true) /\
    (forall c, ceiling = Some c -> n <= c) /\
    map frame_data (frames (fst r)) =
      flat_map (fun j => pass_frames src sel (T j) j) (seq 0 n) /\
    (forall j, S j < n -> capture src j (T j) <> Throws) /\
    ((exists k, n = S k /\ capture src k (T k) = Throws /\
                alerts (snd r) = alerts w ++ [errGeneral]) \/
     ((forall j, j < n -> capture src j (T j) <> Throws) /\
      (lt (T n) duration = false \/ ceiling = Some n) /\
      alerts (snd r) = alerts w)).

(** A run that does not reach the loop: no frame, one alert. *)
Definition abandoned (src : Source) (w : World) (r : App * World) : Prop :=
  frames (fst r) = [] /\
  alerts (snd r) =
    alerts w ++ [match metadata src with None => errMetadata | Some _ => errCanvas end] /\
  progressLog (snd r) = progressLog w ++ [of_Z 0].


(** A frame without its URL and its [selected] flag. *)
Definition frame_content (f : PortfolioFrame) : string * Blob * num :=
  (id f, blob f, timestamp f).

(** What a run of [processVideo] did to the URL store. *)
Definition run_url_effects (src : Source) (w : World) (r : App * World) : Prop :=
  let videoUrl := next_url (browser w) in
  store_ok (browser (snd r)) /\
  NoDup (urls (frames (fst r))) /\
  (forall u, u ∈ urls (frames (fst r)) ->
             u ∈ live (browser (snd r)) /\ u <> videoUrl) /\
  match metadata src, context2d src with
  | Some _, true =>
      revoked (browser (snd r)) = revoked (browser w) ++ [videoUrl] /\
      videoUrl ∉ live (browser (snd r))
  | _, _ =>
      revoked (browser (snd r)) = revoked (browser w) /\
      videoUrl ∈ live (browser (snd r))
  end.

(** ** Sessions *)






(** ** The render of [src/index.tsx] *)

(** After the render that follows a handler of [src/index.tsx]: the URL of
    every frame the gallery held before is in the revocation log, and no
    frame still in the gallery has a live URL. *)
Definition gallery_released (app : App) (w : World) (r : App * World) : Prop :=
  revoked (browser (snd r)) = revoked (browser w) ++ urls (frames app) /\
  (forall u, u ∈ urls (frames (fst r)) ->
             u ∈ urls (frames app) /\ u ∉ live (browser (snd r))).

(** ** Archive names and time labels *)

(** [a] sorts before [b] as a string. *)
Definition string_before (a b : string) : Prop := String.compare a b = Lt.

(** [mm:ss] of a whole number of seconds. *)
Definition clock (seconds : Z) : string :=
  (two_digits ((seconds / 60) mod 60) ++ ":" ++ two_digits (seconds mod 60))%string.

(** * Properties *)

(** ** Loops *)

Section WhileFacts.
Context {St : Type}.
Variable guard : St -> bool.
Variable body : St -> St * bool.

(** A loop that falls out without an exception has a false guard. *)
Lemma while_exit_guard fuel s e :
  while guard body fuel s = Some e -> threw e = false -> guard (final e) = false.
Proof.
  revert s e; induction fuel as [|fuel IH]; intros s e; simpl.
  - destruct (guard s) eqn:G; [discriminate|].
    intros [= <-] _; exact G.
  - destruct (guard s) eqn:G.
    + destruct (body s) as [s' t]; destruct t.
      * intros [= <-]; discriminate.
      * destruct (while guard body fuel s') as [e'|] eqn:W; [|discriminate].
        intros [= <-]; simpl; eauto.
    + intros [= <-] _; exact G.
Qed.

(** A property kept by every pass through the body holds at the exit. *)
Lemma while_invariant (I : St -> Prop) :
  (forall s, I s -> guard s = true -> I (fst (body s))) ->
  forall fuel s e, I s -> while guard body fuel s = Some e -> I (final e).
Proof.
  intros step fuel; induction fuel as [|fuel IH]; intros s e Hs; simpl.
  - destruct (guard s); [discriminate|]. intros [= <-]; exact Hs.
  - destruct (guard s) eqn:G.
    + specialize (step s Hs G).
      destruct (body s) as [s' t]; simpl in step; destruct t.
      * intros [= <-]; exact step.
      * destruct (while guard body fuel s') as [e'|] eqn:W; [|discriminate].
        intros [= <-]; simpl; eauto.
    + intros [= <-]; exact Hs.
Qed.

(** The number of passes never exceeds the fuel. *)
Lemma while_iterations_fuel fuel s e :
  while guard body fuel s = Some e -> iterations e <= fuel.
Proof.
  revert s e; induction fuel as [|fuel IH]; intros s e; simpl.
  - destruct (guard s); [discriminate|]. intros [= <-]; simpl; lia.
  - destruct (guard s).
    + destruct (body s) as [s' t]; destruct t.
      * intros [= <-]; simpl; lia.
      * destruct (while guard body fuel s') as [e'|] eqn:W; [|discriminate].
        intros [= <-]; simpl. specialize (IH _ _ W); lia.
    + intros [= <-]; simpl; lia.
Qed.

(** A ranking: [rank n s] says that at most [n] passes remain from [s]. *)
Variable rank : nat -> St -> Prop.
Hypothesis rank_zero : forall s, rank 0 s -> guard s = false.
Hypothesis rank_step :
  forall n s, rank (S n) s -> guard s = true -> snd (body s) = false ->
              rank n (fst (body s)).

Lemma while_halts n s :
  rank n s -> exists e, while guard body n s = Some e /\ iterations e <= n.
Proof.
  revert s; induction n as [|n IH]; intros s R; simpl.
  - rewrite (rank_zero _ R). eexists; split; [reflexivity|simpl; lia].
  - destruct (guard s) eqn:G.
    + specialize (rank_step _ _ R G).
      destruct (body s) as [s' t]; simpl in rank_step; destruct t.
      * eexists; split; [reflexivity|simpl; lia].
      * destruct (IH _ (rank_step eq_refl)) as (e' & -> & Hk).
        eexists; split; [reflexivity|simpl; lia].
    + eexists; split; [reflexivity|simpl; lia].
Qed.

(** More fuel does not change the outcome. *)
Lemma while_more_fuel fuel s e :
  while guard body fuel s = Some e ->
  forall fuel', fuel <= fuel' -> while guard body fuel' s = Some e.
Proof.
  revert s e; induction fuel as [|fuel IH]; intros s e; simpl.
  - destruct (guard s) eqn:G; [discriminate|].
    intros [= <-] fuel' _. destruct fuel'; simpl; rewrite G; reflexivity.
  - destruct (guard s) eqn:G.
    + destruct (body s) as [s' t] eqn:B; destruct t.
      * intros [= <-] fuel' L. destruct fuel' as [|fuel']; [lia|].
        simpl; rewrite G, B; reflexivity.
      * destruct (while guard body fuel s') as [e'|] eqn:W; [|discriminate].
        intros [= <-] fuel' L. destruct fuel' as [|fuel']; [lia|].
        simpl; rewrite G, B. rewrite (IH _ _ W fuel') by lia. reflexivity.
    + intros [= <-] fuel' _. destruct fuel'; simpl; rewrite G; reflexivity.
Qed.
End WhileFacts.

(** ** Numbers *)

Lemma Qlt_bool_iff (a b : Q) : Qlt_bool a b = true <-> (a < b)%Q.
Proof.
  unfold Qlt_bool. rewrite negb_true_iff.
  split.
  - intros H. apply Qnot_le_lt. intros L. apply Qle_bool_iff in L. congruence.
  - intros H. destruct (Qle_bool b a) eqn:E; [|reflexivity].
    apply Qle_bool_iff in E. exfalso. exact (Qlt_not_le _ _ H E).
Qed.

Lemma Qlt_bool_false_iff (a b : Q) : Qlt_bool a b = false <-> (b <= a)%Q.
Proof.
  unfold Qlt_bool. rewrite negb_false_iff. apply Qle_bool_iff.
Qed.

Lemma lt_Fin (a b : Q) : lt (Fin a) (Fin b) = true <-> (a < b)%Q.
Proof. apply Qlt_bool_iff. Qed.

Lemma lt_Fin_false (a b : Q) : lt (Fin a) (Fin b) = false <-> (b <= a)%Q.
Proof. apply Qlt_bool_false_iff. Qed.

Lemma le_Fin (a b : Q) : le (Fin a) (Fin b) = true <-> (a <= b)%Q.
Proof. apply Qle_bool_iff. Qed.

Lemma Qeq_bool_false_iff (a b : Q) : Qeq_bool a b = false <-> ~ (a == b)%Q.
Proof.
  split.
  - intros H E. apply Qeq_bool_iff in E. congruence.
  - intros H. destruct (Qeq_bool a b) eqn:E; [|reflexivity].
    apply Qeq_bool_iff in E. contradiction.
Qed.

(** [Math.max] and [Math.min] on finite numbers are the rational ones. *)
Lemma max_Fin (a b : Q) : exists m, max (Fin a) (Fin b) = Fin m /\ (m == Qmax a b)%Q.
Proof.
  unfold max. destruct (lt (Fin a) (Fin b)) eqn:E.
  - exists b; split; [reflexivity|]. apply lt_Fin in E.
    symmetry. apply Q.max_r. apply Qlt_le_weak; exact E.
  - exists a; split; [reflexivity|]. apply lt_Fin_false in E.
    symmetry. apply Q.max_l. exact E.
Qed.

Lemma min_Fin (a b : Q) : exists m, min (Fin a) (Fin b) = Fin m /\ (m == Qmin a b)%Q.
Proof.
  unfold min. destruct (lt (Fin b) (Fin a)) eqn:E.
  - exists b; split; [reflexivity|]. apply lt_Fin in E.
    symmetry. apply Q.min_r. apply Qlt_le_weak; exact E.
  - exists a; split; [reflexivity|]. apply lt_Fin_false in E.
    symmetry. apply Q.min_l. exact E.
Qed.

Lemma div_Fin (a b : Q) :
  ~ (b == 0)%Q -> exists c, div (Fin a) (Fin b) = Fin c /\ (c == a / b)%Q.
Proof.
  intros H. unfold div. apply Qeq_bool_false_iff in H. rewrite H.
  eexists; split; [reflexivity|]. apply Qred_correct.
Qed.

Lemma add_Fin (a b : Q) : exists c, add (Fin a) (Fin b) = Fin c /\ (c == a + b)%Q.
Proof. eexists; split; [reflexivity|]. apply Qred_correct. Qed.

Lemma mul_Fin (a b : Q) : exists c, mul (Fin a) (Fin b) = Fin c /\ (c == a * b)%Q.
Proof. eexists; split; [reflexivity|]. apply Qred_correct. Qed.

(** ** The model on small inputs *)

Example toFixed2_examples :
  Text.toFixed2 (Fin (1 # 10)) = "0.10"%string /\
  Text.toFixed2 (Fin (31 # 300)) = "0.10"%string /\
  Text.toFixed2 (Fin (12345 # 100)) = "123.45"%string /\
  Text.toFixed2 (Fin (5 # 1000)) = "0.01"%string /\
  Text.toFixed2 (Fin (-1 # 1000)) = "-0.00"%string /\
  Text.toFixed2 PInf = "Infinity"%string.
Proof. repeat split. Qed.

Example entry_name_examples :
  entry_name 0 = "portfolio_shot_01.jpg"%string /\
  entry_name 9 = "portfolio_shot_10.jpg"%string /\
  entry_name 99 = "portfolio_shot_100.jpg"%string.
Proof. repeat split. Qed.

Example number_examples :
  round (Fin (5 # 2)) = of_Z 3 /\ round (Fin (-5 # 2)) = of_Z (-2) /\
  div (of_Z 1) (of_Z 0) = PInf /\ div (of_Z 1) PInf = of_Z 0 /\
  max (of_Z 1) NaN = NaN /\ lt NaN (of_Z 1) = false /\
  or NaN (of_Z 1) = of_Z 1 /\ or (of_Z 0) (of_Z 1) = of_Z 1 /\
  or PInf (of_Z 1) = PInf /\ truthy (of_Z (-1)) = true.
Proof. repeat split. Qed.

(** The 10 s video of the specification's scenario, no rate set (the
    input left empty gives [0]): the interval is a third of a second, the
    first frame is sampled at 0.1 s, and 30 frames are produced (at 0.1,
    0.433, ..., 9.767). *)
Example ten_second_video :
  Folio.plan_interval (of_Z 0) (of_Z 10) = Fin (1 # 3) /\
  Folio.start_offset (of_Z 10) = Fin (1 # 10) /\
  option_map (fun r => (length (frames (fst r)),
                        map timestamp (firstn 2 (frames (fst r)))))
    (Folio.processVideo Folio.MAX_LOOPS (steady_source (of_Z 10)) []
       (setFramepSecond (of_Z 0) initialApp) initialWorld)
  = Some (30, [Fin (1 # 10); Fin (13 # 30)]).
Proof. repeat split; vm_compute; reflexivity. Qed.

(** ** The loop body *)

Lemma capture_step_count src sel interval n s w :
  loopCount (fst (capture_step src sel interval n s w)) = n.
Proof.
  unfold capture_step, push_frame.
  destruct (capture src (loopCount s) (currentTime s)); reflexivity.
Qed.

Lemma capture_step_frames src sel interval n s w :
  newFrames (fst (capture_step src sel interval n s w)) = newFrames s \/
  exists b u,
    capture src (loopCount s) (currentTime s) = Captured b /\
    newFrames (fst (capture_step src sel interval n s w)) =
      newFrames s ++ [mkFrame ("frame-" ++ Text.toFixed2 (currentTime s)) u b sel (currentTime s)].
Proof.
  unfold capture_step, push_frame.
  destruct (capture src (loopCount s) (currentTime s)) as [b| |]; simpl; auto.
  right; exists b, (next_url (browser w)); auto.
Qed.

Lemma capture_step_time src sel interval n s w :
  snd (capture_step src sel interval n s w) = false ->
  currentTime (fst (capture_step src sel interval n s w)) = add (currentTime s) interval.
Proof.
  unfold capture_step, push_frame.
  destruct (capture src (loopCount s) (currentTime s)); simpl;
    [reflexivity|reflexivity|discriminate].
Qed.

Lemma capture_step_log src sel interval n s w :
  progressLog (world (fst (capture_step src sel interval n s w))) = progressLog w.
Proof.
  unfold capture_step, push_frame.
  destruct (capture src (loopCount s) (currentTime s)); reflexivity.
Qed.

Lemma capture_step_frames_length src sel interval n s w :
  length (newFrames (fst (capture_step src sel interval n s w))) <= S (length (newFrames s)).
Proof.
  destruct (capture_step_frames src sel interval n s w) as [->|(b & u & _ & ->)].
  - lia.
  - rewrite length_app; simpl; lia.
Qed.

(** ** The step ceiling of [Folio] and [Curator] *)

Section Ceiling.
Variables (maxLoops : nat) (sel : bool) (src : Source) (interval duration : num).

Let guard := Folio.guard_with maxLoops duration.
Let body := Folio.body_with maxLoops sel src interval duration.

Lemma ceiling_halts t fs w :
  exists e,
    (forall extra, while guard body (maxLoops + extra) (mkLoop t 0 fs w) = Some e) /\
    iterations e <= maxLoops.
Proof.
  destruct (while_halts guard body (fun n s => maxLoops <= loopCount s + n))
    with (n := maxLoops) (s := mkLoop t 0 fs w) as (e & W & K).
  - intros s R. unfold guard, Folio.guard_with.
    replace (loopCount s <? maxLoops) with false; [apply andb_false_r|].
    symmetry; apply Nat.ltb_ge; lia.
  - intros n s R _ _. unfold body, Folio.body_with.
    rewrite capture_step_count. lia.
  - simpl; lia.
  - exists e; split; [|exact K].
    intros extra. eapply while_more_fuel; [exact W|lia].
Qed.

Lemma within_ceiling_kept s :
  within_ceiling maxLoops s -> guard s = true -> within_ceiling maxLoops (fst (body s)).
Proof.
  intros [L C] G. unfold guard, Folio.guard_with in G.
  apply andb_true_iff in G as [_ G]. apply Nat.ltb_lt in G.
  unfold within_ceiling, body, Folio.body_with.
  rewrite capture_step_count.
  pose proof (capture_step_frames_length src sel interval (S (loopCount s)) s
    (setProgress_log
       (Folio.reported_progress_with maxLoops duration (currentTime s) (S (loopCount s)))
       (world s))).
  lia.
Qed.

Lemma ceiling_bounds_frames fuel t w e :
  while guard body fuel (mkLoop t 0 [] w) = Some e ->
  length (newFrames (final e)) <= maxLoops.
Proof.
  intros W.
  assert (within_ceiling maxLoops (final e)) as [L C].
  { eapply while_invariant; [apply within_ceiling_kept| |exact W].
    split; simpl; lia. }
  lia.
Qed.
End Ceiling.

(** ** The planner *)

Lemma sane_duration_finite (q : Q) :
  (0 < q)%Q -> Folio.sane_duration (Fin q) = Fin q.
Proof.
  intros H. unfold Folio.sane_duration; simpl.
  destruct (Qle_bool q (inject_Z 0)) eqn:E; [|reflexivity].
  apply Qle_bool_iff in E. exfalso. exact (Qlt_not_le _ _ H E).
Qed.

Lemma sane_duration_default (reported : num) :
  isFinite reported = false \/ le reported (of_Z 0) = true ->
  Folio.sane_duration reported = of_Z 1.
Proof.
  intros [H|H]; unfold Folio.sane_duration; rewrite H.
  - reflexivity.
  - rewrite orb_true_r. reflexivity.
Qed.

(** Whatever the decoder reports, the duration used is finite and positive. *)
Lemma sane_duration_pos (reported : num) :
  exists d, Folio.sane_duration reported = Fin d /\ (0 < d)%Q.
Proof.
  destruct reported as [| | |q].
  1-3: exists 1%Q; split; [reflexivity|reflexivity].
  unfold Folio.sane_duration; simpl.
  destruct (Qle_bool q (inject_Z 0)) eqn:E.
  - exists 1%Q; split; reflexivity.
  - exists q; split; [reflexivity|].
    apply Qnot_le_lt. intros L. apply Qle_bool_iff in L.
    change (inject_Z 0) with 0%Q in E. congruence.
Qed.

Lemma Qdiv_pos (a b : Q) : (0 < a)%Q -> (0 < b)%Q -> (0 < a / b)%Q.
Proof.
  intros A B. unfold Qdiv. apply Qmult_lt_0_compat; [exact A|].
  apply Qinv_lt_0_compat; exact B.
Qed.

Lemma Qinv_nonpos (r : Q) : (r < 0)%Q -> (1 / r <= 0)%Q.
Proof.
  intros R. unfold Qdiv. rewrite Qmult_1_l.
  destruct r as [[|p|p] q]; [discriminate R|discriminate R|].
  unfold Qinv; simpl. discriminate.
Qed.

Lemma start_offset_value (d : Q) :
  exists s, Folio.start_offset (Fin d) = Fin s /\ (s == Qmin (1 # 10) (d / 10))%Q.
Proof.
  unfold Folio.start_offset, of_Z.
  destruct (div_Fin d (inject_Z 10)) as (c & -> & Hc); [discriminate|].
  destruct (min_Fin (1 # 10) c) as (m & -> & Hm).
  exists m; split; [reflexivity|]. rewrite Hm, Hc. reflexivity.
Qed.

Lemma start_offset_pos (d : Q) :
  (0 < d)%Q -> exists s, Folio.start_offset (Fin d) = Fin s /\ (0 < s)%Q.
Proof.
  intros D. destruct (start_offset_value d) as (s & E & V).
  exists s; split; [exact E|]. rewrite V.
  apply Q.min_glb_lt; [reflexivity|]. apply Qdiv_pos; [exact D|reflexivity].
Qed.

(** The branch taken by [if (framepSecond > 0 || framepSecond)]. *)
Lemma rate_test_truthy (fps : num) :
  gt fps (of_Z 0) || truthy fps = truthy fps.
Proof.
  destruct fps as [| | |r]; try reflexivity.
  simpl. destruct (Qeq_bool r 0) eqn:E; simpl; [|apply orb_true_r].
  apply Qeq_bool_iff in E. rewrite orb_false_r.
  apply Qlt_bool_false_iff. rewrite E. apply Qle_refl.
Qed.

Lemma plan_interval_rate (r d : Q) :
  ~ (r == 0)%Q ->
  exists i, Folio.plan_interval (Fin r) (Fin d) = Fin i /\
            (i == Qmax (1 / r) (d / 600))%Q.
Proof.
  intros R. unfold Folio.plan_interval. rewrite rate_test_truthy. simpl truthy.
  apply Qeq_bool_false_iff in R. rewrite R. simpl negb. cbn iota.
  apply Qeq_bool_false_iff in R.
  unfold Folio.maxFrameCount, of_Z.
  destruct (div_Fin (inject_Z 1) r R) as (a & -> & Ha).
  destruct (div_Fin d (inject_Z 600)) as (b & -> & Hb); [discriminate|].
  destruct (max_Fin a b) as (m & -> & Hm).
  exists m; split; [reflexivity|]. rewrite Hm, Ha, Hb. reflexivity.
Qed.

Lemma plan_interval_fallback (fps : num) (d : Q) :
  truthy fps = false ->
  exists i, Folio.plan_interval fps (Fin d) = Fin i /\
            (i == Qmax (1 # 10) (d / 30))%Q.
Proof.
  intros F. unfold Folio.plan_interval. rewrite rate_test_truthy, F.
  destruct (div_Fin d (inject_Z 30)) as (b & Eb & Hb); [discriminate|].
  unfold Folio.targetFrameCount, of_Z. rewrite Eb.
  destruct (max_Fin (1 # 10) b) as (m & -> & Hm).
  exists m; split; [reflexivity|]. rewrite Hm, Hb. reflexivity.
Qed.

Lemma plan_interval_infinite_rate (fps : num) (d : Q) :
  fps = PInf \/ fps = NInf -> (0 < d)%Q ->
  exists i, Folio.plan_interval fps (Fin d) = Fin i /\ (i == d / 600)%Q.
Proof.
  intros F D.
  destruct (div_Fin d (inject_Z 600)) as (b & Eb & Hb); [discriminate|].
  assert (0 < b)%Q as B by (rewrite Hb; apply Qdiv_pos; [exact D|reflexivity]).
  exists b; split; [|exact Hb].
  unfold Folio.plan_interval, Folio.maxFrameCount, of_Z.
  destruct F as [-> | ->]; simpl gt; simpl truthy; cbn iota;
    rewrite Eb; simpl div; unfold max;
    apply lt_Fin in B; rewrite B; reflexivity.
Qed.

(** Every rate, every (sanitised) duration: a finite, positive interval. *)
Lemma plan_interval_pos (fps : num) (d : Q) :
  (0 < d)%Q -> exists i, Folio.plan_interval fps (Fin d) = Fin i /\ (0 < i)%Q.
Proof.
  intros D.
  destruct (truthy fps) eqn:T.
  - destruct fps as [| | |r]; try discriminate.
    + destruct (plan_interval_infinite_rate PInf d) as (i & E & V); auto.
      exists i; split; [exact E|]. rewrite V. apply Qdiv_pos; [exact D|reflexivity].
    + destruct (plan_interval_infinite_rate NInf d) as (i & E & V); auto.
      exists i; split; [exact E|]. rewrite V. apply Qdiv_pos; [exact D|reflexivity].
    + simpl in T. apply negb_true_iff, Qeq_bool_false_iff in T.
      destruct (plan_interval_rate r d T) as (i & E & V).
      exists i; split; [exact E|]. rewrite V.
      apply Qlt_le_trans with (d / 600)%Q; [|apply Q.le_max_r].
      apply Qdiv_pos; [exact D|reflexivity].
  - destruct (plan_interval_fallback fps d T) as (i & E & V).
    exists i; split; [exact E|]. rewrite V.
    apply Qlt_le_trans with (1 # 10)%Q; [reflexivity|apply Q.le_max_l].
Qed.

Lemma index_plan_interval_value (d : Q) :
  exists i, Index.plan_interval (Fin d) = Fin i /\ (i == Qmax (1 # 2) (d / 30))%Q.
Proof.
  unfold Index.plan_interval, Index.targetFrameCount, of_Z.
  destruct (div_Fin d (inject_Z 30)) as (b & -> & Hb); [discriminate|].
  destruct (max_Fin (1 # 2) b) as (m & -> & Hm).
  exists m; split; [reflexivity|]. rewrite Hm, Hb. reflexivity.
Qed.

Lemma index_start_offset_value (d : Q) :
  exists s, Index.start_offset (Fin d) = Fin s /\ (s == Qmin (1 # 2) (d / 2))%Q.
Proof.
  unfold Index.start_offset, of_Z.
  destruct (div_Fin d (inject_Z 2)) as (c & -> & Hc); [discriminate|].
  destruct (min_Fin (1 # 2) c) as (m & -> & Hm).
  exists m; split; [reflexivity|]. rewrite Hm, Hc. reflexivity.
Qed.

Lemma curator_plan_interval_value (d : Q) :
  exists i, Curator.plan_interval (Fin d) = Fin i /\ (i == Qmax (1 # 10) (d / 30))%Q.
Proof.
  unfold Curator.plan_interval, Curator.targetFrameCount, of_Z.
  destruct (div_Fin d (inject_Z 30)) as (b & -> & Hb); [discriminate|].
  destruct (max_Fin (1 # 10) b) as (m & -> & Hm).
  exists m; split; [reflexivity|]. rewrite Hm, Hb. reflexivity.
Qed.

(** C5, counterexample: a rate of [-1] on a 10 s video.  The rate is
    truthy, so [if (framepSecond > 0 || framepSecond)] takes the first
    branch and the interval is [10/600 = 1/60], not the fallback
    [max(0.1, 10/30) = 1/3]. *)
Lemma planner_negative_rate_not_fallback : ~ planner_as_specified.
Proof.
  intros P.
  destruct (P 10%Q (Fin (-1)) eq_refl) as (_ & F & _).
  assert (~ positive_finite (Fin (-1))) as N.
  { intros (r & E & R). injection E as <-. discriminate R. }
  specialize (F N).
  change (Folio.plan_interval (Fin (-1)) (Fin 10)) with (Fin (1 # 60)) in F.
  simpl in F.
  assert (Qmax (1 # 10) (10 / 30) == 10 / 30)%Q as M
    by (apply Q.max_r; discriminate).
  rewrite M in F. discriminate F.
Qed.

(** The start offset of [src/index.tsx] is not [min(L, duration/10)] for
    any lead-in [L]. *)
Lemma index_start_offset_not_tenth :
  ~ exists L : Q, forall d : Q, (0 < d)%Q ->
      eqv (Index.start_offset (Fin d)) (Fin (Qmin L (d / 10))).
Proof.
  intros (L & H).
  specialize (H (6 # 10) eq_refl).
  change (Index.start_offset (Fin (6 # 10))) with (Fin (3 # 10)) in H.
  simpl in H.
  assert (Qmin L ((6 # 10) / 10) <= (6 # 10) / 10)%Q as M by apply Q.le_min_r.
  rewrite <- H in M. revert M. apply Qlt_not_le. reflexivity.
Qed.

(** C5, amended: for a duration [d > 0], in [Folio] every non-zero finite
    rate, positive or negative, gives [max(1/rate, d/600)] (so a negative
    rate gives [d/600]), an infinite rate gives [d/600], a zero or [NaN]
    rate gives the fallback [max(0.1, d/30)], and the start offset is
    [min(0.1, d/10)]; [Curator] always plans [max(0.1, d/30)] with the same
    start offset; [src/index.tsx] plans [max(0.5, d/30)] and starts at
    [min(0.5, d/2)]. *)
Theorem planner_by_rate (d : Q) (Hd : (0 < d)%Q) :
  (forall r, ~ (r == 0)%Q ->
     exists i, Folio.plan_interval (Fin r) (Fin d) = Fin i /\
               (i == Qmax (1 / r) (d / 600))%Q) /\
  (forall r, (r < 0)%Q ->
     exists i, Folio.plan_interval (Fin r) (Fin d) = Fin i /\ (i == d / 600)%Q) /\
  (forall fps, fps = PInf \/ fps = NInf ->
     exists i, Folio.plan_interval fps (Fin d) = Fin i /\ (i == d / 600)%Q) /\
  (forall fps, truthy fps = false ->
     exists i, Folio.plan_interval fps (Fin d) = Fin i /\
               (i == Qmax (1 # 10) (d / 30))%Q) /\
  (exists s, Folio.start_offset (Fin d) = Fin s /\ (s == Qmin (1 # 10) (d / 10))%Q) /\
  (exists i s, Curator.plan_interval (Fin d) = Fin i /\
               (i == Qmax (1 # 10) (d / 30))%Q /\
               Curator.start_offset (Fin d) = Fin s /\
               (s == Qmin (1 # 10) (d / 10))%Q) /\
  (exists i s, Index.plan_interval (Fin d) = Fin i /\
               (i == Qmax (1 # 2) (d / 30))%Q /\
               Index.start_offset (Fin d) = Fin s /\
               (s == Qmin (1 # 2) (d / 2))%Q).
Proof.
  repeat split.
  - intros r R. apply plan_interval_rate; exact R.
  - intros r R.
    destruct (plan_interval_rate r d) as (i & E & V).
    { intros Z. rewrite Z in R. discriminate R. }
    exists i; split; [exact E|]. rewrite V. apply Q.max_r.
    apply Qle_trans with 0%Q.
    + apply Qinv_nonpos; exact R.
    + apply Qlt_le_weak, Qdiv_pos; [exact Hd|reflexivity].
  - intros fps F. apply plan_interval_infinite_rate; assumption.
  - intros fps F. apply plan_interval_fallback; exact F.
  - apply start_offset_value.
  - destruct (curator_plan_interval_value d) as (i & E & V).
    destruct (start_offset_value d) as (s & Es & Vs).
    exists i, s; auto.
  - destruct (index_plan_interval_value d) as (i & E & V).
    destruct (index_start_offset_value d) as (s & Es & Vs).
    exists i, s; auto.
Qed.

Lemma planner_by_rate_witness :
  exists i, Folio.plan_interval (Fin (-1)) (Fin 10) = Fin i /\ (i == 10 / 600)%Q.
Proof.
  destruct (planner_by_rate 10 eq_refl) as (_ & N & _).
  apply N. reflexivity.
Defined.

(** ** Termination of the loop of [src/index.tsx] *)

(** [src/index.tsx] has no step counter.  Its loop stops because the
    planned interval is at least a thirtieth of the duration. *)
Section IndexLoop.
Variable src : Source.

Lemma time_rank_zero d i s :
  time_rank d i 0 s -> Index.guard (Fin d) s = false.
Proof.
  intros (t & E & H). unfold Index.guard. rewrite E.
  apply lt_Fin_false. change (inject_Z (Z.of_nat 0)) with 0%Q in H. lra.
Qed.

Lemma time_rank_step d i n s :
  time_rank d i (S n) s ->
  snd (Index.body src (Fin i) (Fin d) s) = false ->
  time_rank d i n (fst (Index.body src (Fin i) (Fin d) s)).
Proof.
  intros (t & E & H) T. unfold time_rank, Index.body in *.
  rewrite capture_step_time by exact T. rewrite E.
  eexists; split; [reflexivity|].
  rewrite Qred_correct.
  rewrite Nat2Z.inj_succ, <- Z.add_1_r, inject_Z_plus in H.
  change (inject_Z 1) with 1%Q in H.
  eapply Qle_trans; [exact H|]. apply Qle_lteq; right. ring.
Qed.

Lemma index_loop_halts_positive (d : Q) (w : World) :
  (0 < d)%Q ->
  exists e,
    while (Index.guard (Fin d))
          (Index.body src (Index.plan_interval (Fin d)) (Fin d)) 30
          (mkLoop (Index.start_offset (Fin d)) 0 [] w) = Some e /\
    iterations e <= 30.
Proof.
  intros D.
  destruct (index_plan_interval_value d) as (i & -> & Vi).
  destruct (index_start_offset_value d) as (s & -> & Vs).
  apply while_halts with (rank := time_rank d i).
  - apply time_rank_zero.
  - intros n st R _ T. apply time_rank_step; assumption.
  - exists s; split; [reflexivity|].
    assert (0 <= s)%Q as S0.
    { rewrite Vs. apply Q.min_glb; [discriminate|].
      apply Qlt_le_weak, Qdiv_pos; [exact D|reflexivity]. }
    assert (d / 30 <= i)%Q as I0 by (rewrite Vi; apply Q.le_max_r).
    change (inject_Z (Z.of_nat 30)) with 30%Q.
    revert I0. unfold Qdiv. change (/ 30)%Q with (1 # 30)%Q.
    intros I0. lra.
Qed.

(** A negative duration: the guard fails before the first pass. *)
Lemma index_guard_negative (q : Q) (w : World) :
  (q < 0)%Q ->
  Index.guard (Fin q) (mkLoop (Index.start_offset (Fin q)) 0 [] w) = false.
Proof.
  intros N.
  destruct (index_start_offset_value q) as (s & Es & Vs).
  unfold Index.guard; simpl. rewrite Es. apply lt_Fin_false.
  rewrite Vs. apply Q.min_glb.
  - lra.
  - unfold Qdiv. change (/ 2)%Q with (1 # 2)%Q. lra.
Qed.

(** Every value [video.duration] can take. *)
Lemma index_loop_halts (reported : num) (w : World) :
  let d := Index.fallback_duration reported in
  exists e,
    (forall extra,
       while (Index.guard d) (Index.body src (Index.plan_interval d) d)
             (30 + extra) (mkLoop (Index.start_offset d) 0 [] w) = Some e) /\
    iterations e <= 30.
Proof.
  intros d.
  assert (exists e,
    while (Index.guard d) (Index.body src (Index.plan_interval d) d) 30
          (mkLoop (Index.start_offset d) 0 [] w) = Some e /\
    iterations e <= 30) as (e & W & K).
  { subst d. destruct reported as [| | |q].
    - apply (index_loop_halts_positive 1 w). reflexivity.
    - (* Infinity: the interval is infinite, one pass *)
      change (Index.fallback_duration PInf) with PInf.
      change (Index.plan_interval PInf) with PInf.
      change (Index.start_offset PInf) with (Fin (1 # 2)).
      unfold while at 1. simpl Index.guard. cbv iota.
      unfold Index.body, capture_step. simpl currentTime. simpl loopCount.
      destruct (capture src 0 (Fin (1 # 2))); simpl;
        eexists; (split; [reflexivity|simpl; lia]).
    - change (Index.fallback_duration NInf) with NInf.
      eexists; split; [reflexivity|simpl; lia].
    - unfold Index.fallback_duration, or. simpl truthy.
      destruct (Qeq_bool q 0) eqn:Z; simpl negb; cbv iota.
      + apply (index_loop_halts_positive 1 w). reflexivity.
      + destruct (Qlt_le_dec 0 q) as [P|N].
        * apply index_loop_halts_positive; exact P.
        * assert (q < 0)%Q as N'.
          { apply Qle_lt_or_eq in N as [N|N]; [exact N|].
            apply Qeq_bool_false_iff in Z. contradiction. }
          exists (mkExit (mkLoop (Index.start_offset (Fin q)) 0 [] w) false 0).
          split; [|simpl; lia].
          simpl while. rewrite (index_guard_negative q w N'). reflexivity. }
  exists e; split; [|exact K].
  intros extra. eapply while_more_fuel; [exact W|lia].
Qed.
End IndexLoop.

Section WhileCount.
Context {St : Type}.
Variables (guard : St -> bool) (body : St -> St * bool) (count : St -> nat).
Hypothesis body_counts : forall s, count (fst (body s)) = S (count s).

(** A counter bumped by every pass counts the passes. *)
Lemma while_counts fuel s e :
  while guard body fuel s = Some e -> count (final e) = count s + iterations e.
Proof.
  revert s e; induction fuel as [|fuel IH]; intros s e; simpl.
  - destruct (guard s); [discriminate|]. intros [= <-]; simpl; lia.
  - destruct (guard s).
    + pose proof (body_counts s) as B.
      destruct (body s) as [s' t]; simpl in B; destruct t.
      * intros [= <-]; simpl; lia.
      * destruct (while guard body fuel s') as [e'|] eqn:W; [|discriminate].
        intros [= <-]; simpl. rewrite (IH _ _ W). lia.
    + intros [= <-]; simpl; lia.
Qed.
End WhileCount.

Lemma index_body_counts src interval duration s :
  loopCount (fst (Index.body src interval duration s)) = S (loopCount s).
Proof. unfold Index.body. apply capture_step_count. Qed.

Lemma index_frames_le_count src interval duration fuel s e :
  length (newFrames s) <= loopCount s ->
  while (Index.guard duration) (Index.body src interval duration) fuel s = Some e ->
  length (newFrames (final e)) <= loopCount (final e).
Proof.
  intros H W.
  eapply (while_invariant _ _ (fun s => length (newFrames s) <= loopCount s));
    [|exact H|exact W].
  intros s' L _. rewrite index_body_counts.
  unfold Index.body.
  pose proof (capture_step_frames_length src true interval (S (loopCount s')) s'
    (setProgress_log (Index.reported_progress duration s') (world s'))).
  lia.
Qed.

(** ** C1 and C2: the step ceiling *)


(** A clock that does not advance ([interval = 0]): the loop of [Folio]
    stops after exactly 600 passes. *)
Example stuck_clock_stops_at_ceiling :
  option_map iterations
    (while (Folio.guard (of_Z 1))
           (Folio.body (steady_source (of_Z 1)) (of_Z 0) (of_Z 1))
           Folio.MAX_LOOPS (mkLoop (Fin (1 # 10)) 0 [] initialWorld)) = Some 600.
Proof. vm_compute. reflexivity. Qed.

(** The loop of [src/index.tsx] has no such guard: with the same stuck
    clock no amount of fuel lets it finish.  [processVideo] never starts it
    that way: its interval is at least [0.5]. *)
Lemma index_loop_needs_advancing_clock fuel n fs w :
  while (Index.guard (of_Z 1))
        (Index.body (steady_source (of_Z 1)) (of_Z 0) (of_Z 1))
        fuel (mkLoop (Fin (1 # 10)) n fs w) = None.
Proof.
  revert n fs w. induction fuel as [|fuel IH]; intros n fs w; [reflexivity|].
  cbn [while]. change (Index.guard (of_Z 1) (mkLoop (Fin (1 # 10)) n fs w)) with true.
  cbv iota. unfold Index.body, capture_step, push_frame, createObjectURL.
  cbn [capture steady_source currentTime loopCount newFrames world].
  change (add (Fin (1 # 10)) (of_Z 0)) with (Fin (1 # 10)).
  cbn [fst snd]. rewrite IH. reflexivity.
Qed.

(** [processVideo] returns for every source, file and state. *)
Lemma folio_processVideo_returns src file app w :
  exists app' w',
    (forall extra,
       Folio.processVideo (Folio.MAX_LOOPS + extra) src file app w = Some (app', w')) /\
    length (frames app') <= Folio.MAX_LOOPS.
Proof.
  unfold Folio.processVideo.
  destruct (begin_processing app w) as [[app1 videoUrl] w1] eqn:B.
  assert (frames app1 = []) as F1.
  { unfold begin_processing in B. injection B as <- _ _. reflexivity. }
  destruct (metadata src) as [reported|].
  2:{ do 2 eexists; split; [reflexivity|]. simpl. rewrite F1. simpl; lia. }
  destruct (context2d src); simpl negb; cbv iota.
  2:{ do 2 eexists; split; [reflexivity|]. simpl. rewrite F1. simpl; lia. }
  destruct (ceiling_halts Folio.MAX_LOOPS false src
              (Folio.plan_interval (framepSecond app) (Folio.sane_duration reported))
              (Folio.sane_duration reported)
              (Folio.start_offset (Folio.sane_duration reported)) [] w1)
    as (e & W & K).
  exists (fst (finalize app1 videoUrl e)), (snd (finalize app1 videoUrl e)).
  split.
  - intros extra. unfold Folio.guard, Folio.body. rewrite (W extra).
    destruct (finalize app1 videoUrl e); reflexivity.
  - simpl. eapply ceiling_bounds_frames. exact (W 0).
Qed.

Lemma curator_processVideo_returns src file app w :
  exists app' w',
    (forall extra,
       Curator.processVideo (Curator.MAX_LOOPS + extra) src file app w = Some (app', w')) /\
    length (frames app') <= Curator.MAX_LOOPS.
Proof.
  unfold Curator.processVideo.
  destruct (begin_processing app w) as [[app1 videoUrl] w1] eqn:B.
  assert (frames app1 = []) as F1.
  { unfold begin_processing in B. injection B as <- _ _. reflexivity. }
  destruct (metadata src) as [reported|].
  2:{ do 2 eexists; split; [reflexivity|]. simpl. rewrite F1. simpl; lia. }
  destruct (context2d src); simpl negb; cbv iota.
  2:{ do 2 eexists; split; [reflexivity|]. simpl. rewrite F1. simpl; lia. }
  destruct (ceiling_halts Curator.MAX_LOOPS true src
              (Curator.plan_interval (Curator.sane_duration reported))
              (Curator.sane_duration reported)
              (Curator.start_offset (Curator.sane_duration reported)) [] w1)
    as (e & W & K).
  exists (fst (finalize app1 videoUrl e)), (snd (finalize app1 videoUrl e)).
  split.
  - intros extra. unfold Curator.guard, Curator.body. rewrite (W extra).
    destruct (finalize app1 videoUrl e); reflexivity.
  - simpl. eapply ceiling_bounds_frames. exact (W 0).
Qed.

Lemma index_processVideo_returns src file app w :
  exists app' w',
    (forall extra,
       Index.processVideo (30 + extra) src file app w = Some (app', w')) /\
    length (frames app') <= 30.
Proof.
  unfold Index.processVideo.
  destruct (begin_processing app w) as [[app1 videoUrl] w1] eqn:B.
  assert (frames app1 = []) as F1.
  { unfold begin_processing in B. injection B as <- _ _. reflexivity. }
  destruct (metadata src) as [reported|].
  2:{ do 2 eexists; split; [reflexivity|]. simpl. rewrite F1. simpl; lia. }
  destruct (context2d src); simpl negb; cbv iota.
  2:{ do 2 eexists; split; [reflexivity|]. simpl. rewrite F1. simpl; lia. }
  destruct (index_loop_halts src reported w1) as (e & W & K).
  exists (fst (finalize app1 videoUrl e)), (snd (finalize app1 videoUrl e)).
  split.
  - intros extra. rewrite (W extra).
    destruct (finalize app1 videoUrl e); reflexivity.
  - simpl.
    pose proof (index_frames_le_count src _ _ _
                  (mkLoop (Index.start_offset (Index.fallback_duration reported)) 0 [] w1)
                  e (Nat.le_refl 0) (W 0)) as L.
    pose proof (while_counts _ _ loopCount
                  (index_body_counts src _ _) _ _ _ (W 0)) as C.
    simpl in C. lia.
Qed.


(** ** C3: the duration fallback *)

(** In [Folio] and [Curator] every duration that is not finite, or is at
    most zero, is replaced by one second before anything is planned, and
    the run returns within the ceiling. *)
Lemma sane_duration_replaces (reported : num) :
  isFinite reported = false \/ le reported (of_Z 0) = true ->
  Folio.sane_duration reported = of_Z 1 /\
  Curator.sane_duration reported = of_Z 1 /\
  Folio.start_offset (Folio.sane_duration reported) = Fin (1 # 10) /\
  Curator.plan_interval (Curator.sane_duration reported) = Fin (1 # 10) /\
  forall src file app w,
    metadata src = Some reported ->
    exists app' w',
      Folio.processVideo Folio.MAX_LOOPS src file app w = Some (app', w') /\
      length (frames app') <= Folio.MAX_LOOPS.
Proof.
  intros H. pose proof (sane_duration_default reported H) as E.
  unfold Curator.sane_duration. rewrite E.
  repeat split.
  intros src file app w _.
  destruct (folio_processVideo_returns src file app w) as (app' & w' & R & L).
  exists app', w'; split; [|exact L].
  specialize (R 0). rewrite Nat.add_0_r in R. exact R.
Qed.

(** C3, the code at the failing input: [src/index.tsx] on a video whose
    [video.duration] is [Infinity].  [video.duration || 1] keeps
    [Infinity] (it is truthy), where [Folio] and [Curator] put one second;
    so the interval is planned from an infinite duration ([Infinity]
    instead of [0.5]) and the only progress value reported inside the loop
    is [0] ([0.5 / Infinity * 100]), where a duration of one second gives
    [50]. *)
Theorem index_keeps_infinite_duration :
  Index.fallback_duration PInf = PInf /\
  Folio.sane_duration PInf = of_Z 1 /\
  Curator.sane_duration PInf = of_Z 1 /\
  Index.plan_interval (Index.fallback_duration PInf) = PInf /\
  Index.plan_interval (of_Z 1) = Fin (1 # 2) /\
  (exists app' w',
     Index.processVideo 30 (steady_source PInf) [] initialApp initialWorld
       = Some (app', w') /\
     progressLog w' = [of_Z 0; of_Z 0; of_Z 100]) /\
  (exists app' w',
     Index.processVideo 30 (steady_source (of_Z 1)) [] initialApp initialWorld
       = Some (app', w') /\
     progressLog w' = [of_Z 0; of_Z 50; of_Z 100]).
Proof.
  repeat split.
  - eexists _, _; split; [vm_compute; reflexivity|reflexivity].
  - eexists _, _; split; [vm_compute; reflexivity|reflexivity].
Qed.

(** [src/index.tsx] does not replace a negative duration either. *)
Lemma index_keeps_negative_duration (q : Q) :
  (q < 0)%Q -> Index.fallback_duration (Fin q) = Fin q.
Proof.
  intros N. unfold Index.fallback_duration, or; simpl.
  destruct (Qeq_bool q 0) eqn:E; [|reflexivity].
  apply Qeq_bool_iff in E. rewrite E in N. discriminate N.
Qed.

(** ** C6: timestamps *)

Lemma StronglySorted_snoc {A : Type} (R : A -> A -> Prop) (l : list A) (x : A) :
  StronglySorted R l -> Forall (fun y => R y x) l -> StronglySorted R (l ++ [x]).
Proof.
  induction 1 as [|a l S IH F]; intros H; simpl.
  - constructor; constructor.
  - inversion H as [|? ? Ra Hl]; subst.
    constructor; [apply IH; exact Hl|].
    apply Forall_app; split; [exact F|constructor; [exact Ra|constructor]].
Qed.

Section Timestamps.
Variables (maxLoops : nat) (sel : bool) (src : Source) (i d : Q).
Hypothesis i_pos : (0 < i)%Q.


End Timestamps.


(** ** C7: progress *)

Lemma time_at_Fin (t i : Q) (k : nat) :
  exists q, time_at (Fin t) (Fin i) k = Fin q /\
            (q == t + inject_Z (Z.of_nat k) * i)%Q.
Proof.
  revert t; induction k as [|k IH]; intros t.
  - exists t; split; [reflexivity|]. change (inject_Z (Z.of_nat 0)) with 0%Q. ring.
  - destruct (IH (Qred (t + i))) as (q & E & V).
    exists q; split; [exact E|]. rewrite V, Qred_correct.
    rewrite Nat2Z.inj_succ, <- Z.add_1_r, inject_Z_plus.
    change (inject_Z 1) with 1%Q. ring.
Qed.

Lemma reported_progress_value (maxLoops : nat) (d t : Q) (n : nat) :
  ~ (d == 0)%Q -> maxLoops <> 0 ->
  exists p, Folio.reported_progress_with maxLoops (Fin d) (Fin t) n = Fin p /\
            (p == spec_progress t d n maxLoops)%Q.
Proof.
  intros D M. unfold Folio.reported_progress_with, spec_progress, of_nat, of_Z.
  destruct (div_Fin t d D) as (a & -> & Ha).
  destruct (mul_Fin a (inject_Z 100)) as (a' & -> & Ha').
  destruct (div_Fin (inject_Z (Z.of_nat n)) (inject_Z (Z.of_nat maxLoops)))
    as (b & -> & Hb).
  { intros Z. apply M. unfold Qeq in Z; simpl in Z. lia. }
  destruct (mul_Fin b (inject_Z 100)) as (b' & -> & Hb').
  destruct (max_Fin a' b') as (m & -> & Hm).
  unfold round, of_Z.
  destruct (min_Fin (inject_Z 99) (inject_Z (Qfloor (m + (1 # 2))))) as (p & -> & Hp).
  exists p; split; [reflexivity|].
  rewrite Hp, Hm, Ha', Hb', Ha, Hb. reflexivity.
Qed.

Lemma spec_progress_mono (t t' d : Q) (n n' m : nat) :
  (0 < d)%Q -> m <> 0 -> (t <= t')%Q -> n <= n' ->
  (spec_progress t d n m <= spec_progress t' d n' m)%Q.
Proof.
  intros D M T N. unfold spec_progress.
  apply Q.min_le_compat_l.
  rewrite <- Zle_Qle. apply Qfloor_resp_le.
  apply Qplus_le_l.
  apply Q.max_le_compat.
  - apply Qmult_le_compat_r; [|discriminate].
    unfold Qdiv. apply Qmult_le_compat_r; [exact T|].
    apply Qlt_le_weak, Qinv_lt_0_compat, D.
  - apply Qmult_le_compat_r; [|discriminate].
    unfold Qdiv. apply Qmult_le_compat_r.
    + rewrite <- Zle_Qle. lia.
    + apply Qlt_le_weak, Qinv_lt_0_compat.
      change 0%Q with (inject_Z 0). rewrite <- Zlt_Qlt. lia.
Qed.

Lemma spec_progress_bounds (t d : Q) (n m : nat) :
  (0 <= spec_progress t d n m)%Q /\ (spec_progress t d n m <= 99)%Q.
Proof.
  unfold spec_progress. split; [|apply Q.le_min_l].
  apply Q.min_glb; [discriminate|].
  change 0%Q with (inject_Z 0). rewrite <- Zle_Qle.
  change 0%Z with (Qfloor 0). apply Qfloor_resp_le.
  apply Qle_trans with (0 + (1 # 2))%Q; [discriminate|].
  apply Qplus_le_l.
  eapply Qle_trans; [|apply Q.le_max_r].
  apply Qmult_le_0_compat; [|discriminate].
  unfold Qdiv. apply Qmult_le_0_compat.
  - change 0%Q with (inject_Z 0). rewrite <- Zle_Qle. lia.
  - apply Qinv_le_0_compat. change 0%Q with (inject_Z 0). rewrite <- Zle_Qle. lia.
Qed.

Section ProgressLog.
Variables (maxLoops : nat) (sel : bool) (src : Source) (interval duration : num).

Lemma loop_progress_log fuel s e :
  while (Folio.guard_with maxLoops duration)
        (Folio.body_with maxLoops sel src interval duration) fuel s = Some e ->
  progressLog (world (final e)) =
    progressLog (world s) ++
    map (report_at maxLoops interval duration s) (seq 0 (iterations e)).
Proof.
  revert s e; induction fuel as [|fuel IH]; intros s e; simpl.
  - destruct (Folio.guard_with maxLoops duration s); [discriminate|].
    intros [= <-]; simpl. rewrite app_nil_r. reflexivity.
  - destruct (Folio.guard_with maxLoops duration s).
    2:{ intros [= <-]; simpl. rewrite app_nil_r. reflexivity. }
    destruct (Folio.body_with maxLoops sel src interval duration s) as [s' t] eqn:B.
    assert (progressLog (world s') =
            progressLog (world s) ++ [report_at maxLoops interval duration s 0]) as L.
    { replace s' with (fst (Folio.body_with maxLoops sel src interval duration s))
        by (rewrite B; reflexivity).
      unfold Folio.body_with. rewrite capture_step_log. simpl.
      unfold report_at. simpl. rewrite Nat.add_0_r. reflexivity. }
    destruct t.
    + intros [= <-]; simpl. exact L.
    + destruct (while _ _ fuel s') as [e'|] eqn:W; [|discriminate].
      intros [= <-]; simpl. rewrite (IH _ _ W), L, <- app_assoc. simpl.
      f_equal. f_equal. rewrite <- seq_shift, map_map.
      apply map_ext. intros j. unfold report_at.
      replace (currentTime s') with (add (currentTime s) interval).
      2:{ replace s' with (fst (Folio.body_with maxLoops sel src interval duration s))
            by (rewrite B; reflexivity).
          unfold Folio.body_with. rewrite capture_step_time; [reflexivity|].
          fold (Folio.body_with maxLoops sel src interval duration s).
          rewrite B; reflexivity. }
      replace (loopCount s') with (S (loopCount s)).
      2:{ replace s' with (fst (Folio.body_with maxLoops sel src interval duration s))
            by (rewrite B; reflexivity).
          unfold Folio.body_with. rewrite capture_step_count. reflexivity. }
      simpl. rewrite Nat.add_succ_r. reflexivity.
Qed.
End ProgressLog.

Lemma map_seq_sorted {A : Type} (R : A -> A -> Prop) (g : nat -> A) :
  (forall j k, j <= k -> R (g j) (g k)) ->
  forall n a, StronglySorted R (map g (seq a n)).
Proof.
  intros mono n; induction n as [|n IH]; intros a; simpl.
  - constructor.
  - constructor; [apply IH|].
    apply List.Forall_forall. intros x Hx.
    apply in_map_iff in Hx as (k & <- & Hk). apply in_seq in Hk.
    apply mono. lia.
Qed.

Section ProgressOrder.
Variables (maxLoops : nat) (d i s : Q).
Hypothesis d_pos : (0 < d)%Q.
Hypothesis i_pos : (0 < i)%Q.
Hypothesis ceiling_pos : maxLoops <> 0.

Lemma run_report_value (k : nat) :
  exists t p,
    time_at (Fin s) (Fin i) k = Fin t /\
    (t == s + inject_Z (Z.of_nat k) * i)%Q /\
    run_report maxLoops d i s k = Fin p /\
    (p == spec_progress t d (S k) maxLoops)%Q /\
    (0 <= p)%Q /\ (p <= 99)%Q.
Proof.
  unfold run_report.
  destruct (time_at_Fin s i k) as (t & -> & Vt).
  destruct (reported_progress_value maxLoops d t (S k)) as (p & -> & Vp).
  { intros Z. rewrite Z in d_pos. discriminate d_pos. }
  { exact ceiling_pos. }
  exists t, p. repeat split; try assumption; try reflexivity.
  - rewrite Vp. apply spec_progress_bounds.
  - rewrite Vp. apply spec_progress_bounds.
Qed.

Lemma run_report_mono (j k : nat) :
  j <= k ->
  not_above (run_report maxLoops d i s j) (run_report maxLoops d i s k).
Proof.
  intros L.
  destruct (run_report_value j) as (tj & pj & _ & Vtj & -> & Vpj & _).
  destruct (run_report_value k) as (tk & pk & _ & Vtk & -> & Vpk & _).
  unfold not_above. apply le_Fin. rewrite Vpj, Vpk.
  apply spec_progress_mono; [exact d_pos|exact ceiling_pos| |lia].
  rewrite Vtj, Vtk. apply Qplus_le_r.
  apply Qmult_le_compat_r; [|apply Qlt_le_weak; exact i_pos].
  rewrite <- Zle_Qle. lia.
Qed.

Lemma run_reports_sorted (n : nat) :
  StronglySorted not_above
    (of_Z 0 :: map (run_report maxLoops d i s) (seq 0 n) ++ [of_Z 100]).
Proof.
  constructor.
  - apply StronglySorted_snoc.
    + apply map_seq_sorted. apply run_report_mono.
    + apply List.Forall_forall. intros x Hx.
      apply in_map_iff in Hx as (k & <- & _).
      destruct (run_report_value k) as (t & p & _ & _ & -> & _ & _ & P).
      unfold not_above. apply le_Fin.
      apply Qle_trans with 99%Q; [exact P|discriminate].
  - apply Forall_app; split; [|constructor; [reflexivity|constructor]].
    apply List.Forall_forall. intros x Hx.
    apply in_map_iff in Hx as (k & <- & _).
    destruct (run_report_value k) as (t & p & _ & _ & -> & _ & P & _).
    unfold not_above. apply le_Fin. exact P.
Qed.
End ProgressOrder.


Section ReportLog.
Variables (guard : LoopSt -> bool) (report : num -> nat -> num)
          (sel : bool) (src : Source) (interval : num).

Lemma reporting_loop_log fuel s e :
  while guard (reporting_body report sel src interval) fuel s = Some e ->
  progressLog (world (final e)) =
    progressLog (world s) ++
    map (fun j => report (time_at (currentTime s) interval j) (S (loopCount s + j)))
        (seq 0 (iterations e)).
Proof.
  revert s e; induction fuel as [|fuel IH]; intros s e; simpl.
  - destruct (guard s); [discriminate|].
    intros [= <-]; simpl. rewrite app_nil_r. reflexivity.
  - destruct (guard s).
    2:{ intros [= <-]; simpl. rewrite app_nil_r. reflexivity. }
    destruct (reporting_body report sel src interval s) as [s' t] eqn:B.
    assert (s' = fst (reporting_body report sel src interval s)) as Es
      by (rewrite B; reflexivity).
    assert (progressLog (world s') =
            progressLog (world s) ++ [report (currentTime s) (S (loopCount s))]) as L.
    { rewrite Es. unfold reporting_body. rewrite capture_step_log. reflexivity. }
    destruct t.
    + intros [= <-]; simpl. rewrite L, Nat.add_0_r. reflexivity.
    + destruct (while _ _ fuel s') as [e'|] eqn:W; [|discriminate].
      intros [= <-]; simpl. rewrite (IH _ _ W), L, <- app_assoc. simpl.
      rewrite Nat.add_0_r. f_equal. f_equal. rewrite <- seq_shift, map_map.
      apply map_ext. intros j.
      replace (currentTime s') with (add (currentTime s) interval).
      2:{ rewrite Es. unfold reporting_body. rewrite capture_step_time; [reflexivity|].
          fold (reporting_body report sel src interval s). rewrite B; reflexivity. }
      replace (loopCount s') with (S (loopCount s)).
      2:{ rewrite Es. unfold reporting_body. rewrite capture_step_count. reflexivity. }
      simpl. rewrite Nat.add_succ_r. reflexivity.
Qed.
End ReportLog.

Lemma index_report_value (d t : Q) :
  ~ (d == 0)%Q ->
  exists p, index_report (Fin d) (Fin t) = Fin p /\ (p == index_spec_progress t d)%Q.
Proof.
  intros D. unfold index_report, index_spec_progress, of_Z.
  destruct (div_Fin t d D) as (a & -> & Ha).
  destruct (mul_Fin a (inject_Z 100)) as (a' & -> & Ha').
  unfold round, of_Z.
  destruct (min_Fin (inject_Z 99) (inject_Z (Qfloor (a' + (1 # 2))))) as (p & -> & Hp).
  exists p; split; [reflexivity|].
  rewrite Hp, Ha', Ha. reflexivity.
Qed.

Lemma index_spec_progress_mono (t t' d : Q) :
  (0 < d)%Q -> (t <= t')%Q ->
  (index_spec_progress t d <= index_spec_progress t' d)%Q.
Proof.
  intros D T. unfold index_spec_progress.
  apply Q.min_le_compat_l.
  rewrite <- Zle_Qle. apply Qfloor_resp_le.
  apply Qplus_le_l.
  apply Qmult_le_compat_r; [|discriminate].
  unfold Qdiv. apply Qmult_le_compat_r; [exact T|].
  apply Qlt_le_weak, Qinv_lt_0_compat, D.
Qed.

Lemma index_spec_progress_bounds (t d : Q) :
  (0 < d)%Q -> (0 <= t)%Q ->
  (0 <= index_spec_progress t d)%Q /\ (index_spec_progress t d <= 99)%Q.
Proof.
  intros D T. unfold index_spec_progress. split; [|apply Q.le_min_l].
  apply Q.min_glb; [discriminate|].
  change 0%Q with (inject_Z 0). rewrite <- Zle_Qle.
  change 0%Z with (Qfloor 0). apply Qfloor_resp_le.
  apply Qle_trans with (0 + (1 # 2))%Q; [discriminate|].
  apply Qplus_le_l.
  apply Qmult_le_0_compat; [|discriminate].
  unfold Qdiv. apply Qmult_le_0_compat; [exact T|].
  apply Qinv_le_0_compat. apply Qlt_le_weak. exact D.
Qed.

Section IndexProgressOrder.
Variables (d i s : Q).
Hypothesis d_pos : (0 < d)%Q.
Hypothesis i_pos : (0 < i)%Q.
Hypothesis s_nonneg : (0 <= s)%Q.

Lemma index_run_report_value (k : nat) :
  exists t p,
    time_at (Fin s) (Fin i) k = Fin t /\
    (t == s + inject_Z (Z.of_nat k) * i)%Q /\
    index_report (Fin d) (time_at (Fin s) (Fin i) k) = Fin p /\
    (p == index_spec_progress t d)%Q /\
    (0 <= p)%Q /\ (p <= 99)%Q.
Proof.
  destruct (time_at_Fin s i k) as (t & -> & Vt).
  destruct (index_report_value d t) as (p & -> & Vp).
  { intros Z. rewrite Z in d_pos. discriminate d_pos. }
  assert (0 <= t)%Q as T.
  { rewrite Vt. apply Qle_trans with (s + 0)%Q; [lra|].
    apply Qplus_le_r. apply Qmult_le_0_compat; [|apply Qlt_le_weak; exact i_pos].
    change 0%Q with (inject_Z 0). rewrite <- Zle_Qle. lia. }
  exists t, p. repeat split; try assumption; try reflexivity.
  - rewrite Vp. apply index_spec_progress_bounds; assumption.
  - rewrite Vp. apply index_spec_progress_bounds; assumption.
Qed.

Lemma index_run_reports_sorted (n : nat) :
  StronglySorted not_above
    (of_Z 0 :: map (fun k => index_report (Fin d) (time_at (Fin s) (Fin i) k)) (seq 0 n)
            ++ [of_Z 100]) /\
  Forall (fun p => not_above p (of_Z 99))
    (map (fun k => index_report (Fin d) (time_at (Fin s) (Fin i) k)) (seq 0 n)).
Proof.
  assert (Forall (fun p => not_above p (of_Z 99))
    (map (fun k => index_report (Fin d) (time_at (Fin s) (Fin i) k)) (seq 0 n))) as B.
  { apply List.Forall_forall. intros x Hx.
    apply in_map_iff in Hx as (k & <- & _).
    destruct (index_run_report_value k) as (t & p & _ & _ & -> & _ & _ & P).
    unfold not_above. apply le_Fin. exact P. }
  split; [|exact B].
  constructor.
  - apply StronglySorted_snoc.
    + apply map_seq_sorted. intros j k L.
      destruct (index_run_report_value j) as (tj & pj & _ & Vtj & -> & Vpj & _).
      destruct (index_run_report_value k) as (tk & pk & _ & Vtk & -> & Vpk & _).
      unfold not_above. apply le_Fin. rewrite Vpj, Vpk.
      apply index_spec_progress_mono; [exact d_pos|].
      rewrite Vtj, Vtk. apply Qplus_le_r.
      apply Qmult_le_compat_r; [|apply Qlt_le_weak; exact i_pos].
      rewrite <- Zle_Qle. lia.
    + eapply List.Forall_impl; [|exact B].
      intros p P. unfold not_above in *.
      destruct p as [| | |q]; try discriminate; try reflexivity.
      apply le_Fin. apply le_Fin in P.
      apply Qle_trans with 99%Q; [exact P|discriminate].
  - apply Forall_app; split; [|constructor; [reflexivity|constructor]].
    apply List.Forall_forall. intros x Hx.
    apply in_map_iff in Hx as (k & <- & _).
    destruct (index_run_report_value k) as (t & p & _ & _ & -> & _ & P & _).
    unfold not_above. apply le_Fin. exact P.
Qed.
End IndexProgressOrder.

Lemma while_guard_false {St : Type} (guard : St -> bool) (body : St -> St * bool)
    fuel s e :
  guard s = false -> while guard body fuel s = Some e -> iterations e = 0.
Proof.
  intros G. destruct fuel; simpl; rewrite G; intros [= <-]; reflexivity.
Qed.

(** With an infinite duration the loop of [src/index.tsx] makes one pass. *)
Lemma index_infinite_one_pass src fuel w e :
  while (Index.guard PInf) (Index.body src PInf PInf) fuel
        (mkLoop (Fin (1 # 2)) 0 [] w) = Some e ->
  iterations e <= 1.
Proof.
  destruct fuel as [|fuel]; [discriminate|].
  unfold while at 1. simpl Index.guard. cbv iota.
  destruct (Index.body src PInf PInf (mkLoop (Fin (1 # 2)) 0 [] w)) as [s' t] eqn:B.
  destruct t; [intros [= <-]; simpl; lia|].
  assert (currentTime s' = PInf) as T.
  { replace s' with (fst (Index.body src PInf PInf (mkLoop (Fin (1 # 2)) 0 [] w)))
      by (rewrite B; reflexivity).
    unfold Index.body. rewrite capture_step_time; [reflexivity|].
    fold (Index.body src PInf PInf (mkLoop (Fin (1 # 2)) 0 [] w)).
    rewrite B; reflexivity. }
  fold (while (Index.guard PInf) (Index.body src PInf PInf) fuel s').
  destruct (while _ _ fuel s') as [e'|] eqn:W; [|discriminate].
  intros [= <-]; simpl.
  assert (Index.guard PInf s' = false) as G
    by (unfold Index.guard; rewrite T; reflexivity).
  rewrite (while_guard_false _ _ _ _ _ G W). lia.
Qed.

Lemma index_reports_sorted src reported fuel w e :
  let d := Index.fallback_duration reported in
  let i := Index.plan_interval d in
  let s := Index.start_offset d in
  let report k := index_report d (time_at s i k) in
  while (Index.guard d) (Index.body src i d) fuel (mkLoop s 0 [] w) = Some e ->
  StronglySorted not_above (of_Z 0 :: map report (seq 0 (iterations e)) ++ [of_Z 100]) /\
  Forall (fun p => not_above p (of_Z 99)) (map report (seq 0 (iterations e))).
Proof.
  intros d i s report W.
  assert (forall q, (0 < q)%Q -> d = Fin q ->
    StronglySorted not_above (of_Z 0 :: map report (seq 0 (iterations e)) ++ [of_Z 100]) /\
    Forall (fun p => not_above p (of_Z 99)) (map report (seq 0 (iterations e)))) as Pos.
  { intros q Q E. subst report s i. rewrite E.
    destruct (index_plan_interval_value q) as (iq & -> & Vi).
    destruct (index_start_offset_value q) as (sq & -> & Vs).
    apply index_run_reports_sorted.
    - exact Q.
    - rewrite Vi. apply Qlt_le_trans with (1 # 2)%Q; [reflexivity|apply Q.le_max_l].
    - rewrite Vs. apply Q.min_glb; [discriminate|].
      apply Qlt_le_weak, Qdiv_pos; [exact Q|reflexivity]. }
  assert (iterations e = 0 ->
    StronglySorted not_above (of_Z 0 :: map report (seq 0 (iterations e)) ++ [of_Z 100]) /\
    Forall (fun p => not_above p (of_Z 99)) (map report (seq 0 (iterations e)))) as Zero.
  { intros ->. simpl. split; [|constructor].
    repeat constructor. }
  subst d. destruct reported as [| | |q].
  - apply (Pos 1%Q); reflexivity.
  - assert (iterations e <= 1) as K by (eapply index_infinite_one_pass; exact W).
    destruct (iterations e) as [|[|n]]; [apply Zero; reflexivity| |lia].
    subst report s i. simpl. split; repeat constructor.
  - apply Zero. eapply while_guard_false; [|exact W]. reflexivity.
  - unfold Index.fallback_duration, or in *. simpl truthy in *.
    destruct (Qeq_bool q 0) eqn:Z; simpl negb in *; cbv iota in *.
    + apply (Pos 1%Q); reflexivity.
    + destruct (Qlt_le_dec 0 q) as [P|N].
      * apply (Pos q); [exact P|reflexivity].
      * assert (q < 0)%Q as N'.
        { apply Qle_lt_or_eq in N as [N|N]; [exact N|].
          apply Qeq_bool_false_iff in Z. contradiction. }
        apply Zero. eapply while_guard_false; [|exact W].
        apply index_guard_negative. exact N'.
Qed.

(** The progress values of [src/index.tsx]: [0], then
    [min(99, round(currentTime/duration*100))] per pass (there is no step
    term), then [100]; the sequence never decreases. *)
Lemma index_progress_reports :
  forall src file app w,
    exists app' w',
      Index.processVideo 30 src file app w = Some (app', w') /\
      match metadata src, context2d src with
      | Some reported, true =>
          let d := Index.fallback_duration reported in
          let i := Index.plan_interval d in
          let s := Index.start_offset d in
          let report k := index_report d (time_at s i k) in
          exists n,
            n <= 30 /\
            progressLog w' =
              progressLog w ++ of_Z 0 :: map report (seq 0 n) ++ [of_Z 100] /\
            Forall (fun p => not_above p (of_Z 99)) (map report (seq 0 n)) /\
            StronglySorted not_above
              (of_Z 0 :: map report (seq 0 n) ++ [of_Z 100])
      | _, _ => progressLog w' = progressLog w ++ [of_Z 0]
      end.
Proof.
  intros src file app w.
  destruct (index_processVideo_returns src file app w) as (app' & w' & R & _).
  specialize (R 0). rewrite Nat.add_0_r in R.
  exists app', w'. split; [exact R|].
  revert R. unfold Index.processVideo.
  destruct (begin_processing app w) as [[app1 videoUrl] w1] eqn:B.
  assert (progressLog w1 = progressLog w ++ [of_Z 0]) as L1.
  { unfold begin_processing in B. injection B as _ _ <-. reflexivity. }
  destruct (metadata src) as [reported|].
  2:{ intros [= <- <-]. exact L1. }
  destruct (context2d src); simpl negb; cbv iota.
  2:{ intros [= <- <-]. exact L1. }
  destruct (while _ _ _ _) as [e|] eqn:W; [|discriminate].
  intros [= <- <-].
  exists (iterations e).
  split; [eapply while_iterations_fuel; exact W|].
  destruct (index_reports_sorted _ _ _ _ _ W) as (Sorted & Below).
  split; [|split; [exact Below|exact Sorted]].
  pose proof (reporting_loop_log (Index.guard (Index.fallback_duration reported))
                (fun t _ => index_report (Index.fallback_duration reported) t)
                true src (Index.plan_interval (Index.fallback_duration reported))
                30 _ e W) as L.
  simpl currentTime in L. simpl world in L.
  unfold finalize; destruct (threw e); simpl; rewrite L, L1, <- !app_assoc; reflexivity.
Qed.

(** The progress values of [Curator]: as in [Folio], with ceiling 60. *)
Lemma curator_progress_reports :
  forall src file app w,
    exists app' w',
      Curator.processVideo Curator.MAX_LOOPS src file app w = Some (app', w') /\
      match metadata src, context2d src with
      | Some reported, true =>
          let d := Curator.sane_duration reported in
          let i := Curator.plan_interval d in
          let s := Curator.start_offset d in
          let report k := Curator.reported_progress d (time_at s i k) (S k) in
          exists n,
            n <= Curator.MAX_LOOPS /\
            progressLog w' =
              progressLog w ++ of_Z 0 :: map report (seq 0 n) ++ [of_Z 100] /\
            (forall k, exists t dq p,
               time_at s i k = Fin t /\ d = Fin dq /\ report k = Fin p /\
               (p == spec_progress t dq (S k) Curator.MAX_LOOPS)%Q /\
               (p <= 99)%Q) /\
            StronglySorted not_above
              (of_Z 0 :: map report (seq 0 n) ++ [of_Z 100])
      | _, _ => progressLog w' = progressLog w ++ [of_Z 0]
      end.
Proof.
  intros src file app w.
  destruct (curator_processVideo_returns src file app w) as (app' & w' & R & _).
  specialize (R 0). rewrite Nat.add_0_r in R.
  exists app', w'. split; [exact R|].
  revert R. unfold Curator.processVideo, Curator.sane_duration, Curator.start_offset.
  destruct (begin_processing app w) as [[app1 videoUrl] w1] eqn:B.
  assert (progressLog w1 = progressLog w ++ [of_Z 0]) as L1.
  { unfold begin_processing in B. injection B as _ _ <-. reflexivity. }
  destruct (metadata src) as [reported|].
  2:{ intros [= <- <-]. exact L1. }
  destruct (context2d src); simpl negb; cbv iota.
  2:{ intros [= <- <-]. exact L1. }
  destruct (sane_duration_pos reported) as (d & -> & D).
  destruct (curator_plan_interval_value d) as (i & -> & Vi).
  assert (0 < i)%Q as I
    by (rewrite Vi; apply Qlt_le_trans with (1 # 10)%Q; [reflexivity|apply Q.le_max_l]).
  destruct (start_offset_pos d D) as (s0 & -> & S0).
  destruct (while _ _ _ _) as [e|] eqn:W; [|discriminate].
  intros [= <- <-].
  exists (iterations e).
  split; [eapply while_iterations_fuel; exact W|].
  split.
  { assert (progressLog (world (final e)) =
            (progressLog w ++ [of_Z 0]) ++
            map (fun k => Curator.reported_progress (Fin d)
                            (time_at (Fin s0) (Fin i) k) (S k))
                (seq 0 (iterations e))) as L.
    { unfold Curator.guard, Curator.body in W.
      rewrite (loop_progress_log _ _ _ _ _ _ _ _ W). simpl world.
      rewrite L1. reflexivity. }
    unfold finalize; destruct (threw e); simpl; rewrite L, <- !app_assoc; reflexivity. }
  split.
  { intros k.
    destruct (run_report_value Curator.MAX_LOOPS d i s0 D) with (k := k)
      as (t & p & Et & _ & Ep & Vp & _ & P); [discriminate|].
    exists t, d, p. repeat split; assumption. }
  apply (run_reports_sorted Curator.MAX_LOOPS d i s0 D I); discriminate.
Qed.

(** ** C8: archive entry names *)

Lemma names_sorted_up_to_b_correct (n : nat) :
  names_sorted_up_to_b n = true -> names_sorted_up_to n.
Proof.
  unfold names_sorted_up_to_b, names_sorted_up_to. intros H i j Hij Hj.
  rewrite forallb_forall in H.
  specialize (H j ltac:(apply in_seq; lia)).
  rewrite forallb_forall in H.
  apply H. apply in_seq. lia.
Qed.

(** Two digits keep up to 99 entries in order. *)
Lemma names_sorted_up_to_99 : names_sorted_up_to 99.
Proof. apply names_sorted_up_to_b_correct. vm_compute. reflexivity. Qed.

Lemma names_sorted_within_99 (n : nat) : n <= 99 -> names_sorted_up_to n.
Proof.
  intros L i j Hij Hj. apply names_sorted_up_to_99; lia.
Qed.

(** The ceilings of [Curator] (60) and of [src/index.tsx] (30 frames) are
    within what two digits support. *)
Lemma curator_and_index_names_sorted :
  names_sorted_up_to Curator.MAX_LOOPS /\ names_sorted_up_to 30.
Proof.
  split; apply names_sorted_within_99; unfold Curator.MAX_LOOPS; lia.
Qed.

Lemma zip_entries_from_names (fs : list PortfolioFrame) (a k : nat) :
  k < length fs ->
  nth_error (map fst (zip_entries_from a fs)) k = Some (entry_name (a + k)).
Proof.
  revert a k; induction fs as [|f fs IH]; intros a k L; simpl in *; [lia|].
  destruct k as [|k]; simpl.
  - rewrite Nat.add_0_r. reflexivity.
  - rewrite IH by lia. f_equal. f_equal. lia.
Qed.

Lemma zip_entries_from_length (fs : list PortfolioFrame) (a : nat) :
  length (zip_entries_from a fs) = length fs.
Proof.
  revert a; induction fs as [|f fs IH]; intros a; simpl; [reflexivity|].
  rewrite IH. reflexivity.
Qed.

(** C8, the code at the failing input: [Folio] on a 100 s video at the
    default rate of one frame per second, every capture succeeding, then
    "Select All" and "Download".  The run holds 100 frames (the ceiling is
    600), the archive gets 100 entries, and the entry with index 100,
    [portfolio_shot_100.jpg], sorts before the entry with index 11,
    [portfolio_shot_11.jpg]. *)
Theorem hundred_entries_misordered :
  exists app w entries w',
    Folio.processVideo Folio.MAX_LOOPS (steady_source (of_Z 100)) []
      initialApp initialWorld = Some (app, w) /\
    length (frames app) = 100 /\
    handleDownload (selectAll true app) w = (Some entries, w') /\
    length entries = 100 /\
    nth_error (map fst entries) 10 = Some "portfolio_shot_11.jpg"%string /\
    nth_error (map fst entries) 99 = Some "portfolio_shot_100.jpg"%string /\
    String.compare "portfolio_shot_100.jpg" "portfolio_shot_11.jpg" = Lt /\
    name_before 10 99 = false.
Proof.
  destruct (Folio.processVideo Folio.MAX_LOOPS (steady_source (of_Z 100)) []
              initialApp initialWorld) as [[app w]|] eqn:R;
    [|vm_compute in R; discriminate R].
  assert (length (frames app) = 100) as L.
  { assert (option_map (fun r => length (frames (fst r)))
              (Folio.processVideo Folio.MAX_LOOPS (steady_source (of_Z 100)) []
                 initialApp initialWorld) = Some 100) as C
      by (vm_compute; reflexivity).
    rewrite R in C. simpl in C. injection C as C. exact C. }
  assert (List.filter selected (frames (selectAll true app)) = frames (selectAll true app)) as S.
  { simpl. clear. induction (frames app) as [|f fs IH]; simpl; [reflexivity|].
    rewrite IH. reflexivity. }
  assert (length (frames (selectAll true app)) = 100) as L'.
  { simpl. rewrite length_map. exact L. }
  exists app, w.
  unfold handleDownload. rewrite S, L'. simpl Nat.eqb. cbv iota.
  unfold createObjectURL.
  eexists _, _. split; [reflexivity|]. split; [exact L|].
  split; [reflexivity|].
  split; [rewrite zip_entries_from_length; exact L'|].
  split; [rewrite zip_entries_from_names by lia; reflexivity|].
  split; [rewrite zip_entries_from_names by lia; reflexivity|].
  split; reflexivity.
Qed.

(** ** C9 and C10: deleting a frame *)

Lemma filter_no_match (i : string) (fs : list PortfolioFrame) :
  Forall (fun f => has_id i f = false) fs ->
  List.filter (fun f => negb (has_id i f)) fs = fs.
Proof.
  induction 1 as [|f fs H _ IH]; simpl; [reflexivity|].
  rewrite H; simpl. rewrite IH. reflexivity.
Qed.

Lemma find_no_match (i : string) (fs : list PortfolioFrame) :
  Forall (fun f => has_id i f = false) fs -> List.find (has_id i) fs = None.
Proof.
  induction 1 as [|f fs H _ IH]; simpl; [reflexivity|].
  rewrite H. exact IH.
Qed.

(** C10: deleting with an id that matches no frame of a non-empty
    sequence leaves the frames as they are (same frames, same order, same
    flags), revokes no URL, and sets no timer: in [Folio], in [Curator] and
    in [src/index.tsx]. *)
Theorem delete_unknown_id_changes_nothing
    (i : string) (app : App) (w : World)
    (Hne : frames app <> [])
    (Hno : Forall (fun f => has_id i f = false) (frames app)) :
  (frames (fst (Folio.deleteFrame i app w)) = frames app /\
   snd (Folio.deleteFrame i app w) = w /\
   timers (fst (Folio.deleteFrame i app w)) = timers app) /\
  (frames (fst (Curator.deleteFrame i app w)) = frames app /\
   snd (Curator.deleteFrame i app w) = w /\
   timers (fst (Curator.deleteFrame i app w)) = timers app) /\
  (frames (fst (Index.deleteFrame i app w)) = frames app /\
   snd (Index.deleteFrame i app w) = w).
Proof.
  assert ((length (frames app) =? 0) = false) as L.
  { destruct (frames app); [contradiction|reflexivity]. }
  unfold Curator.deleteFrame, Folio.deleteFrame, Index.deleteFrame.
  rewrite (filter_no_match i _ Hno), (find_no_match i _ Hno), L.
  simpl. repeat split; reflexivity.
Qed.

Lemma delete_unknown_id_changes_nothing_witness :
  let f := mkFrame "frame-0.10" 1 [] false (Fin (1 # 10)) in
  let app := mkApp (Some []) false (of_Z 100) [f] false None (of_Z 1) [f] 0 in
  frames (fst (Folio.deleteFrame "frame-9.99" app initialWorld)) = [f] /\
  snd (Folio.deleteFrame "frame-9.99" app initialWorld) = initialWorld.
Proof.
  intros f app.
  destruct (delete_unknown_id_changes_nothing "frame-9.99" app initialWorld)
    as ((F & W & _) & _).
  - discriminate.
  - constructor; [reflexivity|constructor].
  - split; [exact F|exact W].
Defined.

Lemma revoke_all_log (fs : list PortfolioFrame) (b : Browser) :
  revoked (revoke_all fs b) = revoked b ++ urls fs.
Proof.
  unfold revoke_all, urls. revert b.
  induction fs as [|f fs IH]; intros b; simpl.
  - rewrite app_nil_r. reflexivity.
  - rewrite IH. simpl. rewrite <- app_assoc. reflexivity.
Qed.

(** Outside [deleteFrame]: in [src/index.tsx] the cleanup of the effect
    keyed on [frames] runs after every [setFrames] that installs a new
    array, with the previous array, and revokes the URL of each of its
    frames, also of those that stay.  [Curator] and [Folio] replaced it by
    a cleanup at unmount only. *)
Lemma index_effect_cleanup_revokes (previous : list PortfolioFrame) (w : World) :
  revoked (browser (Index.frames_effect_cleanup previous w)) =
    revoked (browser w) ++ urls previous.
Proof. unfold Index.frames_effect_cleanup. simpl. apply revoke_all_log. Qed.

Lemma has_id_true (i : string) (f : PortfolioFrame) : has_id i f = true <-> id f = i.
Proof. unfold has_id. apply String.eqb_eq. Qed.

Lemma has_id_false (i : string) (f : PortfolioFrame) : has_id i f = false <-> id f <> i.
Proof. unfold has_id. apply String.eqb_neq. Qed.

Lemma distinct_ids_others (l1 l2 : list PortfolioFrame) (f : PortfolioFrame) :
  distinct_ids (l1 ++ f :: l2) ->
  Forall (fun g => has_id (id f) g = false) l1 /\
  Forall (fun g => has_id (id f) g = false) l2.
Proof.
  unfold distinct_ids. rewrite map_app. simpl. intros N.
  apply NoDup_remove_2 in N.
  split; apply List.Forall_forall; intros g G; apply has_id_false; intros E;
    apply N, in_or_app; [left|right]; rewrite <- E; apply in_map; exact G.
Qed.

Lemma filter_app_match (i : string) (l1 l2 : list PortfolioFrame) (f : PortfolioFrame) :
  has_id i f = true ->
  Forall (fun g => has_id i g = false) l1 ->
  Forall (fun g => has_id i g = false) l2 ->
  List.filter (fun g => negb (has_id i g)) (l1 ++ f :: l2) = l1 ++ l2.
Proof.
  intros F H1 H2. rewrite List.filter_app. simpl. rewrite F. simpl.
  rewrite (filter_no_match i l1 H1), (filter_no_match i l2 H2). reflexivity.
Qed.

Lemma find_app_match (i : string) (l1 l2 : list PortfolioFrame) (f : PortfolioFrame) :
  has_id i f = true ->
  Forall (fun g => has_id i g = false) l1 ->
  List.find (has_id i) (l1 ++ f :: l2) = Some f.
Proof.
  intros F H1. induction H1 as [|g l1 G _ IH]; simpl.
  - rewrite F. reflexivity.
  - rewrite G. exact IH.
Qed.

Lemma findIndex_from_app_match (i : string) (l1 l2 : list PortfolioFrame)
    (f : PortfolioFrame) (a : Z) :
  has_id i f = true ->
  Forall (fun g => has_id i g = false) l1 ->
  findIndex_from (has_id i) (l1 ++ f :: l2) a = (a + Z.of_nat (length l1))%Z.
Proof.
  intros F H1. revert a. induction H1 as [|g l1 G _ IH]; intros a; simpl length.
  - simpl. rewrite F. lia.
  - cbn [app findIndex_from]. rewrite G, IH. lia.
Qed.

Lemma nextFrameToShow_successor (i : string) (l1 l2 : list PortfolioFrame)
    (f : PortfolioFrame) :
  has_id i f = true ->
  Forall (fun g => has_id i g = false) l1 ->
  Folio.nextFrameToShow i (l1 ++ f :: l2) = successor_of l1 l2.
Proof.
  intros F H1. unfold Folio.nextFrameToShow, findIndex.
  rewrite (findIndex_from_app_match i l1 l2 f 0 F H1).
  unfold js_index, successor_of.
  replace (0 + Z.of_nat (length l1) + 1 <? 0)%Z with false
    by (symmetry; apply Z.ltb_ge; lia).
  replace (Z.to_nat (0 + Z.of_nat (length l1) + 1)) with (S (length l1)) by lia.
  rewrite nth_error_app2 by lia.
  replace (S (length l1) - length l1) with 1 by lia. simpl nth_error.
  destruct l2 as [|next l2']; [|reflexivity]. simpl or_else.
  destruct (rev l1) as [|previous r] eqn:R.
  - assert (l1 = []) as -> by (rewrite <- (rev_involutive l1), R; reflexivity).
    reflexivity.
  - assert (l1 = rev r ++ [previous]) as ->
      by (rewrite <- (rev_involutive l1), R; reflexivity).
    rewrite length_app. simpl length.
    replace (0 + Z.of_nat (length (rev r) + 1) - 1 <? 0)%Z with false
      by (symmetry; apply Z.ltb_ge; lia).
    replace (Z.to_nat (0 + Z.of_nat (length (rev r) + 1) - 1)) with (length (rev r)) by lia.
    rewrite <- app_assoc. rewrite nth_error_app2 by lia.
    rewrite Nat.sub_diag. reflexivity.
Qed.

(** Where ids are pairwise different, [deleteFrame] does what C9 says:
    one frame fewer, one URL revoked (that frame's), the successor is the
    next frame, else the previous, else none; and when the sequence
    empties, the lightbox closes and the "bad video" timer is set. *)
Lemma deleteFrame_distinct_ids (l1 l2 : list PortfolioFrame) (f : PortfolioFrame)
    (app : App) (w : World) :
  frames app = l1 ++ f :: l2 ->
  distinct_ids (frames app) ->
  let app' := fst (Folio.deleteFrame (id f) app w) in
  let w' := snd (Folio.deleteFrame (id f) app w) in
  frames app' = l1 ++ l2 /\
  S (length (frames app')) = length (frames app) /\
  revoked (browser w') = revoked (browser w) ++ [url f] /\
  Folio.nextFrameToShow (id f) (frames app) = successor_of l1 l2 /\
  (l1 ++ l2 = [] ->
     expandedFrame app' = None /\ timers app' = S (timers app)) /\
  (l1 ++ l2 <> [] ->
     timers app' = timers app /\
     forall e, expandedFrame app = Some e -> id e = id f ->
               expandedFrame app' = successor_of l1 l2).
Proof.
  intros E D. rewrite E in D.
  destruct (distinct_ids_others l1 l2 f D) as (H1 & H2).
  assert (has_id (id f) f = true) as F by (apply has_id_true; reflexivity).
  pose proof (nextFrameToShow_successor (id f) l1 l2 f F H1) as N.
  unfold Folio.deleteFrame. rewrite E.
  rewrite (filter_app_match _ l1 l2 f F H1 H2), (find_app_match _ l1 l2 f F H1), N.
  destruct (l1 ++ l2) as [|g rest] eqn:L; simpl.
  - split; [reflexivity|]. split.
    { rewrite length_app; simpl.
      apply app_eq_nil in L as [-> ->]. reflexivity. }
    split; [reflexivity|]. split; [reflexivity|]. split.
    { intros _. split; reflexivity. }
    intros C; contradiction.
  - split; [reflexivity|]. split.
    { rewrite length_app; simpl.
      apply (f_equal (@length _)) in L. rewrite length_app in L. simpl in L. lia. }
    split; [reflexivity|]. split; [reflexivity|]. split.
    { intros C; discriminate C. }
    intros _. split; [reflexivity|].
    intros e -> Ee. apply has_id_true in Ee. rewrite Ee. reflexivity.
Qed.

(** ** Display handles where ids are pairwise different *)

Lemma createObjectURL_store (b : Browser) :
  store_ok b ->
  store_ok (snd (createObjectURL b)) /\
  (next_url b ∉ live b) /\ (next_url b ∉ revoked b).
Proof.
  intros (N & L & R). unfold createObjectURL, store_ok; simpl.
  split; [|split].
  - split; [exact N|]. split.
    + intros u Hu. apply elem_of_union in Hu as [Hu|Hu].
      * apply elem_of_singleton in Hu. lia.
      * specialize (L u Hu). lia.
    + intros u Hu. destruct (R u Hu) as [Lt Nl]. split; [lia|].
      intros Hu'. apply elem_of_union in Hu' as [Hu'|Hu']; [|contradiction].
      apply elem_of_singleton in Hu'. lia.
  - intros H. specialize (L _ H). lia.
  - intros H. destruct (R _ H). lia.
Qed.

Lemma revokeObjectURL_store (u : nat) (b : Browser) :
  store_ok b -> u ∈ live b -> store_ok (revokeObjectURL u b).
Proof.
  intros (N & L & R) U. unfold revokeObjectURL, store_ok; simpl.
  split; [|split].
  - apply NoDup_app. split; [exact N|]. split; [|apply NoDup_singleton].
    intros x Hx Hx'. apply list_elem_of_singleton in Hx' as ->.
    destruct (R _ Hx) as [_ Nl]. contradiction.
  - intros x Hx. apply elem_of_difference in Hx as [Hx _]. apply L; exact Hx.
  - intros x Hx. apply elem_of_app in Hx as [Hx|Hx].
    + destruct (R _ Hx) as [Lt Nl]. split; [exact Lt|]. set_solver.
    + apply list_elem_of_singleton in Hx as ->. split; [apply L; exact U|]. set_solver.
Qed.

Lemma revoke_all_store (fs : list PortfolioFrame) (b : Browser) :
  store_ok b -> NoDup (urls fs) -> (forall u, u ∈ urls fs -> u ∈ live b) ->
  store_ok (revoke_all fs b) /\
  revoked (revoke_all fs b) = revoked b ++ urls fs /\
  next_url (revoke_all fs b) = next_url b /\
  (forall u, u ∈ live (revoke_all fs b) <-> u ∈ live b /\ u ∉ urls fs).
Proof.
  unfold revoke_all. revert b. induction fs as [|f fs IH]; intros b S N L; simpl.
  - split; [exact S|]. split; [rewrite app_nil_r; reflexivity|].
    split; [reflexivity|]. intros u. split; [intros H; split; [exact H|apply not_elem_of_nil]|tauto].
  - unfold urls in N; simpl in N. apply NoDup_cons in N as [Nf N].
    assert (url f ∈ live b) as Uf by (apply L; left).
    destruct (IH (revokeObjectURL (url f) b)) as (S' & R' & X' & L').
    + apply revokeObjectURL_store; assumption.
    + exact N.
    + intros u Hu. simpl. apply elem_of_difference. split.
      * apply L. right. exact Hu.
      * intros E. apply elem_of_singleton in E as ->. contradiction.
    + split; [exact S'|]. split; [rewrite R'; simpl; rewrite <- app_assoc; reflexivity|].
      split; [rewrite X'; reflexivity|].
      intros u. rewrite L'. simpl. unfold urls; simpl. set_solver.
Qed.

Lemma urls_snoc (fs : list PortfolioFrame) (f : PortfolioFrame) :
  urls (fs ++ [f]) = urls fs ++ [url f].
Proof. unfold urls. rewrite map_app. reflexivity. Qed.

Lemma capture_step_handles videoUrl log src sel interval n s p :
  loop_handles_ok videoUrl log s ->
  loop_handles_ok videoUrl log
    (fst (capture_step src sel interval n s (setProgress_log p (world s)))).
Proof.
  intros (S & R & V & N & L).
  unfold capture_step, push_frame.
  destruct (capture src (loopCount s) (currentTime s)) as [b| |];
    [|split; [exact S|split; [exact R|split; [exact V|split; [exact N|exact L]]]]..].
  destruct (createObjectURL_store _ S) as (S' & Fl & Fr).
  unfold loop_handles_ok, createObjectURL in *; simpl in *.
  split; [exact S'|]. split; [exact R|].
  split; [set_solver|]. rewrite urls_snoc.
  split.
  - apply NoDup_app. split; [exact N|]. split; [|apply NoDup_singleton].
    intros u Hu Hu'. apply list_elem_of_singleton in Hu' as ->.
    destruct (L _ Hu) as [Hl _]. contradiction.
  - intros u Hu. apply elem_of_app in Hu as [Hu|Hu].
    + destruct (L _ Hu) as [Hl Hv]. split; [set_solver|exact Hv].
    + apply list_elem_of_singleton in Hu as ->. split; [set_solver|].
      intros E. simpl in E. rewrite <- E in V. contradiction.
Qed.

(** What a completed sampling run leaves behind, from any consistent
    store: frames with live URLs of their own, the revocation log longer
    by the video URL only. *)
Lemma finalize_handles app videoUrl log (e : Exit (St:=LoopSt)) :
  loop_handles_ok videoUrl log (final e) ->
  videoUrl ∉ log ->
  let r := finalize app videoUrl e in
  NoDup (urls (frames (fst r))) /\
  (forall u, u ∈ urls (frames (fst r)) -> u ∈ live (browser (snd r))) /\
  store_ok (browser (snd r)) /\
  revoked (browser (snd r)) = log ++ [videoUrl].
Proof.
  intros (S & R & V & N & L) Nv. unfold finalize.
  assert (forall w, browser w = browser (world (final e)) ->
            store_ok (revokeObjectURL videoUrl (browser w)) /\
            (forall u, u ∈ urls (newFrames (final e)) ->
                       u ∈ live (revokeObjectURL videoUrl (browser w))) /\
            revoked (revokeObjectURL videoUrl (browser w)) = log ++ [videoUrl])
    as K.
  { intros w ->. split; [apply revokeObjectURL_store; assumption|].
    split; [|simpl; rewrite R; reflexivity].
    intros u Hu. destruct (L _ Hu) as [Hl Hv]. simpl. set_solver. }
  destruct (threw e); simpl; (split; [exact N|]);
    [destruct (K (alert errGeneral (world (final e))) eq_refl) as (A & B & C)
    |destruct (K (world (final e)) eq_refl) as (A & B & C)];
    split; try exact B; split; try exact A; exact C.
Qed.

Lemma begin_processing_facts app w app1 videoUrl w1 :
  begin_processing app w = (app1, videoUrl, w1) ->
  frames app1 = [] /\ framesRef app1 = framesRef app /\
  videoUrl = next_url (browser w) /\
  browser w1 = snd (createObjectURL (browser w)).
Proof.
  unfold begin_processing, createObjectURL. intros [= <- <- <-].
  repeat split.
Qed.

Lemma early_return_facts a app w :
  frames (fst (early_return a app w)) = frames app /\
  framesRef (fst (early_return a app w)) = framesRef app /\
  browser (snd (early_return a app w)) = browser w.
Proof. repeat split. Qed.

Lemma folio_processVideo_handles fuel src file app w app' w' :
  store_ok (browser w) ->
  Folio.processVideo fuel src file app w = Some (app', w') ->
  NoDup (urls (frames app')) /\
  (forall u, u ∈ urls (frames app') -> u ∈ live (browser w')) /\
  store_ok (browser w') /\
  framesRef app' = framesRef app /\
  (forall u, u ∈ revoked (browser w) -> u ∈ revoked (browser w')).
Proof.
  intros Sok. unfold Folio.processVideo.
  destruct (begin_processing app w) as [[app1 videoUrl] w1] eqn:B.
  destruct (begin_processing_facts _ _ _ _ _ B) as (F1 & R1 & -> & B1).
  destruct (createObjectURL_store _ Sok) as (S1 & Fl & Fr).
  rewrite <- B1 in S1.
  assert (revoked (browser w1) = revoked (browser w)) as Rv
    by (rewrite B1; reflexivity).
  assert (next_url (browser w) ∈ live (browser w1)) as Vl
    by (rewrite B1; simpl; set_solver).
  assert (forall a,
            NoDup (urls (frames (fst (early_return a app1 w1)))) /\
            (forall u, u ∈ urls (frames (fst (early_return a app1 w1))) ->
                       u ∈ live (browser (snd (early_return a app1 w1)))) /\
            store_ok (browser (snd (early_return a app1 w1))) /\
            framesRef (fst (early_return a app1 w1)) = framesRef app /\
            (forall u, u ∈ revoked (browser w) ->
                       u ∈ revoked (browser (snd (early_return a app1 w1))))) as Early.
  { intros a. destruct (early_return_facts a app1 w1) as (-> & -> & ->).
    rewrite F1, R1, Rv. split; [constructor|].
    split; [intros u Hu; apply elem_of_nil in Hu; contradiction|].
    split; [exact S1|]. split; [reflexivity|]. intros u Hu; exact Hu. }
  destruct (metadata src) as [reported|].
  2:{ intros [= <- <-]. apply (Early errMetadata). }
  destruct (context2d src); simpl negb; cbv iota.
  2:{ intros [= <- <-]. apply (Early errCanvas). }
  destruct (while _ _ _ _) as [e|] eqn:W; [|discriminate].
  intros E. 
  assert (loop_handles_ok (next_url (browser w)) (revoked (browser w)) (final e)) as LH.
  { eapply while_invariant; [| |exact W].
    - intros s Hs _. unfold Folio.body, Folio.body_with.
      apply capture_step_handles. exact Hs.
    - split; [exact S1|]. split; [exact Rv|].
      split; [exact Vl|]. split; [constructor|].
      intros u Hu. apply elem_of_nil in Hu. contradiction. }
  destruct (finalize_handles app1 _ _ e LH Fr) as (N & L & S' & R).
  assert (framesRef (fst (finalize app1 (next_url (browser w)) e)) = framesRef app) as FR
    by (rewrite <- R1; unfold finalize; destruct (threw e); reflexivity).
  assert (finalize app1 (next_url (browser w)) e = (app', w')) as E' by congruence.
  rewrite E' in N, L, S', R, FR. simpl in N, L, S', R, FR.
  split; [exact N|]. split; [exact L|]. split; [exact S'|].
  split; [exact FR|].
  intros u Hu. rewrite R. apply elem_of_app. left. exact Hu.
Qed.

Lemma urls_map_same (g : PortfolioFrame -> PortfolioFrame) (fs : list PortfolioFrame) :
  (forall f, url (g f) = url f) -> urls (map g fs) = urls fs.
Proof.
  intros H. unfold urls. rewrite map_map. apply map_ext. exact H.
Qed.

(** The first frame carrying the id, when one does. *)
Lemma first_match (i : string) (fs : list PortfolioFrame) :
  existsb (has_id i) fs = true ->
  exists l1 f l2, fs = l1 ++ f :: l2 /\ has_id i f = true /\
                  Forall (fun g => has_id i g = false) l1.
Proof.
  induction fs as [|g fs IH]; simpl; [discriminate|].
  destruct (has_id i g) eqn:G; simpl.
  - intros _. exists [], g, fs. split; [reflexivity|]. split; [exact G|constructor].
  - intros H. destruct (IH H) as (l1 & f & l2 & -> & F & N).
    exists (g :: l1), f, l2. split; [reflexivity|]. split; [exact F|].
    constructor; assumption.
Qed.

Lemma no_match (i : string) (fs : list PortfolioFrame) :
  existsb (has_id i) fs = false -> Forall (fun g => has_id i g = false) fs.
Proof.
  induction fs as [|g fs IH]; simpl; [constructor|].
  intros H. apply orb_false_iff in H as [G H]. constructor; [exact G|apply IH; exact H].
Qed.

Lemma deleteFrame_match (l1 l2 : list PortfolioFrame) (f : PortfolioFrame)
    (app : App) (w : World) :
  frames app = l1 ++ f :: l2 ->
  distinct_ids (frames app) ->
  frames (fst (Folio.deleteFrame (id f) app w)) = l1 ++ l2 /\
  snd (Folio.deleteFrame (id f) app w) = on_browser (revokeObjectURL (url f)) w.
Proof.
  intros E D. rewrite E in D.
  destruct (distinct_ids_others l1 l2 f D) as (H1 & H2).
  assert (has_id (id f) f = true) as F by (apply has_id_true; reflexivity).
  unfold Folio.deleteFrame. rewrite E.
  rewrite (filter_app_match _ l1 l2 f F H1 H2), (find_app_match _ l1 l2 f F H1).
  destruct (l1 ++ l2); simpl; split; reflexivity.
Qed.

Lemma deleteFrame_no_match (i : string) (app : App) (w : World) :
  existsb (has_id i) (frames app) = false ->
  frames (fst (Folio.deleteFrame i app w)) = frames app /\
  snd (Folio.deleteFrame i app w) = w.
Proof.
  intros H. apply no_match in H. unfold Folio.deleteFrame.
  rewrite (filter_no_match i _ H), (find_no_match i _ H).
  destruct (frames app); simpl; split; reflexivity.
Qed.

Lemma deleteFrame_handles (i : string) (app : App) (w : World) :
  handles_ok (app, w) -> distinct_ids (frames app) ->
  handles_ok (Folio.sync_framesRef (fst (Folio.deleteFrame i app w)),
              snd (Folio.deleteFrame i app w)) /\
  leavers_released (app, w) (Folio.deleteFrame i app w).
Proof.
  intros (FR & N & L & Sok) D. simpl in FR, N, L, Sok.
  unfold handles_ok, leavers_released, Folio.sync_framesRef.
  cbn [frames framesRef fst snd].
  destruct (existsb (has_id i) (frames app)) eqn:X.
  - destruct (first_match i _ X) as (l1 & f & l2 & E & F & _).
    apply has_id_true in F. subst i.
    destruct (deleteFrame_match l1 l2 f app w E D) as (-> & ->).
    rewrite E in N, L. unfold urls in N, L. rewrite map_app in N, L.
    simpl in N, L.
    apply NoDup_app in N as (N1 & N12 & N2). apply NoDup_cons in N2 as (Nf & N2).
    assert (url f ∈ live (browser w)) as Uf by (apply L; set_solver).
    assert (url f ∉ urls (l1 ++ l2)) as Nu.
    { unfold urls. rewrite map_app. intros H. apply elem_of_app in H as [H|H].
      - apply (N12 _ H). left.
      - contradiction. }
    split.
    + simpl. split; [reflexivity|]. split.
      * unfold urls. rewrite map_app. apply NoDup_app. split; [exact N1|].
        split; [|exact N2]. intros u Hu Hu'. apply (N12 _ Hu). right. exact Hu'.
      * split.
        { intros u Hu. apply elem_of_difference. split.
          - apply L. unfold urls in Hu. rewrite map_app in Hu. set_solver.
          - intros Eu. apply elem_of_singleton in Eu as ->. contradiction. }
        { apply revokeObjectURL_store; assumption. }
    + intros g Hg Hn. simpl. rewrite E in Hg.
      assert (g = f) as ->.
      { apply elem_of_app in Hg as [Hg|Hg].
        - exfalso. apply Hn. unfold urls. rewrite map_app.
          apply elem_of_app. left. apply list_elem_of_fmap_2. exact Hg.
        - apply elem_of_cons in Hg as [Hg|Hg]; [exact Hg|].
          exfalso. apply Hn. unfold urls. rewrite map_app.
          apply elem_of_app. right. apply list_elem_of_fmap_2. exact Hg. }
      split; [set_solver|set_solver].
  - destruct (deleteFrame_no_match i app w X) as (-> & ->).
    split.
    + simpl. split; [reflexivity|]. split; [exact N|]. split; [exact L|exact Sok].
    + intros g Hg Hn. exfalso. apply Hn. apply list_elem_of_fmap_2. exact Hg.
Qed.

Lemma handles_ok_same_urls (app app' : App) (w : World) :
  handles_ok (app, w) ->
  urls (frames app') = urls (frames app) ->
  framesRef app' = frames app' ->
  handles_ok (app', w) /\ leavers_released (app, w) (app', w).
Proof.
  intros (FR & N & L & Sok) U R. simpl in *. split.
  - unfold handles_ok; simpl. rewrite U.
    split; [exact R|]. split; [exact N|]. split; [exact L|exact Sok].
  - intros f Hf Hn. exfalso. apply Hn. simpl. rewrite U.
    apply list_elem_of_fmap_2. exact Hf.
Qed.

Lemma handleRerun_handles (app : App) (w : World) :
  handles_ok (app, w) ->
  handles_ok (Folio.sync_framesRef (fst (Folio.handleRerun app w)),
              snd (Folio.handleRerun app w)) /\
  leavers_released (app, w) (Folio.handleRerun app w).
Proof.
  intros (FR & N & L & Sok). simpl in FR, N, L, Sok.
  unfold Folio.handleRerun, handles_ok, leavers_released, Folio.sync_framesRef.
  cbn [frames framesRef fst snd on_browser browser]. rewrite FR.
  destruct (revoke_all_store (frames app) (browser w) Sok N L) as (S' & R' & _ & L').
  split.
  - split; [reflexivity|]. split; [constructor|].
    split; [intros u Hu; apply elem_of_nil in Hu; contradiction|exact S'].
  - intros f Hf _. assert (url f ∈ urls (frames app)) as Hu
      by (apply list_elem_of_fmap_2; exact Hf).
    split.
    + rewrite R'. apply elem_of_app. right. exact Hu.
    + rewrite L'. intros [_ H]. contradiction.
Qed.

Lemma alert_browser (a : Alert) (w : World) : browser (alert a w) = browser w.
Proof. reflexivity. Qed.

Lemma badVideoTimer_handles (app : App) (w : World) :
  handles_ok (app, w) ->
  handles_ok (Folio.sync_framesRef (fst (Folio.badVideoTimer app w)),
              snd (Folio.badVideoTimer app w)) /\
  leavers_released (app, w) (Folio.badVideoTimer app w).
Proof.
  intros H.
  assert (handles_ok (app, alert warnBadVideo w)) as H' by exact H.
  destruct (handleRerun_handles app (alert warnBadVideo w) H') as (A & B).
  unfold Folio.badVideoTimer.
  destruct (Folio.handleRerun app (alert warnBadVideo w)) as [app' w'] eqn:E.
  split; [exact A|exact B].
Qed.

Lemma handleDownload_handles (app : App) (w w' : World) entries :
  handles_ok (app, w) ->
  handleDownload app w = (Some entries, w') ->
  handles_ok (app, w') /\ leavers_released (app, w) (app, w').
Proof.
  intros (FR & N & L & Sok). simpl in FR, N, L, Sok. unfold handleDownload.
  destruct (length (List.filter selected (frames app)) =? 0); [discriminate|].
  destruct (createObjectURL_store _ Sok) as (S1 & Fl & Fr).
  unfold createObjectURL in *. simpl in S1. intros [= _ <-].
  split.
  - unfold handles_ok; simpl. split; [exact FR|]. split; [exact N|]. split.
    + intros u Hu. specialize (L u Hu).
      assert (u <> next_url (browser w)) by (intros ->; contradiction).
      set_solver.
    + apply (revokeObjectURL_store (next_url (browser w)) _ S1). simpl. set_solver.
  - intros f Hf Hn. exfalso. apply Hn. apply list_elem_of_fmap_2. exact Hf.
Qed.

(** Where the ids of the frames on screen are pairwise different, every
    event keeps one live handle per frame, and releases the handle of
    every frame it removes. *)
Theorem step_keeps_handles (ev : Event) (st st' : App * World) :
  handles_ok st -> distinct_ids (frames (fst st)) ->
  step ev st = Some st' ->
  handles_ok st' /\ leavers_released st st'.
Proof.
  destruct st as [app w]. intros H D. simpl in D.
  pose proof H as (FR & N & L & Sok). simpl in FR, N, L, Sok.
  unfold step, rendered.
  destruct ev as [r|file src|k| |i|i| | | |]; destruct (screen app) eqn:Sc;
    try discriminate.
  - (* TypeRate *)
    intros [= <-]. apply handles_ok_same_urls; [exact H|reflexivity|exact FR].
  - (* PickFile *)
    destruct (Folio.processVideo _ _ _ _ _) as [[app1 w1]|] eqn:P; [|discriminate].
    intros [= <-].
    destruct (folio_processVideo_handles _ _ _ _ _ _ _ Sok P) as (N1 & L1 & S1 & _ & _).
    split.
    + unfold handles_ok, Folio.sync_framesRef; simpl.
      split; [reflexivity|]. split; [exact N1|]. split; [exact L1|exact S1].
    + intros f Hf. exfalso. cbn [fst] in Hf. unfold screen in Sc.
      destruct (videoFile app), (isProcessing app), (frames app); try discriminate.
      apply elem_of_nil in Hf. exact Hf.
  - (* OpenFrame *)
    destruct (nth_error (frames app) k); [|discriminate].
    destruct (isZipping app); [discriminate|]. intros [= <-].
    apply handles_ok_same_urls; [exact H|reflexivity|exact FR].
  - (* CloseLightbox *)
    intros [= <-]. apply handles_ok_same_urls; [exact H|reflexivity|exact FR].
  - (* ClickToggle *)
    destruct (offered i app); [|discriminate]. intros [= <-].
    apply handles_ok_same_urls; [exact H| |reflexivity].
    simpl. apply urls_map_same. intros f. destruct (has_id i f); reflexivity.
  - (* ClickDelete *)
    destruct (offered i app); [|discriminate]. intros [= <-].
    destruct (deleteFrame_handles i app w H D) as (A & B).
    split; [exact A|]. exact B.
  - (* ClickSelectAll *)
    destruct (isZipping app); [discriminate|]. intros [= <-].
    apply handles_ok_same_urls; [exact H| |reflexivity].
    simpl. apply urls_map_same. reflexivity.
  - (* ClickStartOver *)
    destruct (isZipping app); [discriminate|]. intros [= <-].
    destruct (handleRerun_handles app w H) as (A & B).
    split; [exact A|exact B].
  - (* ClickDownload *)
    destruct (isZipping app); [discriminate|].
    destruct (handleDownload app w) as [[entries|] w1] eqn:Dl; [|discriminate].
    intros [= <-]. eapply handleDownload_handles; [exact H|exact Dl].
  - (* TimerFires, on the three screens *)
    destruct (timers app); [discriminate|]. intros [= <-].
    destruct (badVideoTimer_handles app w H) as (A & B). split; [exact A|exact B].
  - destruct (timers app); [discriminate|]. intros [= <-].
    destruct (badVideoTimer_handles app w H) as (A & B). split; [exact A|exact B].
  - destruct (timers app); [discriminate|]. intros [= <-].
    destruct (badVideoTimer_handles app w H) as (A & B). split; [exact A|exact B].
Qed.

(** From any state with consistent handles, over any sequence of events
    along which ids stay pairwise different, handles stay consistent. *)
Lemma run_keeps_handles (evs : list Event) (st st' : App * World) :
  handles_ok st -> ids_stay_distinct evs st -> run evs st = Some st' ->
  handles_ok st'.
Proof.
  revert st. induction evs as [|ev evs IH]; intros st H D; simpl.
  - intros [= <-]. exact H.
  - destruct D as [D1 D2].
    destruct (step ev st) as [st1|] eqn:E; [|discriminate].
    intros R. apply (IH st1); [|exact D2|exact R].
    destruct (step_keeps_handles ev st st1 H D1 E) as [H1 _]. exact H1.
Qed.

Lemma initial_handles_ok : handles_ok (initialApp, initialWorld).
Proof.
  split; [reflexivity|]. split; [constructor|].
  split; [intros u Hu; apply elem_of_nil in Hu; contradiction|].
  split; [constructor|]. split.
  - intros u Hu. apply elem_of_empty in Hu. contradiction.
  - intros u Hu. apply elem_of_nil in Hu. contradiction.
Qed.

(** A file can be picked only on the upload screen, where no frame of an
    earlier run is left: by then "Start Over" (or the timer) has run
    [handleRerun], which revoked the URL of every frame it discarded. *)
Lemma pick_file_needs_empty_run file src (app : App) (w : World) st' :
  step (PickFile file src) (app, w) = Some st' ->
  frames app = [] /\ videoFile app = None /\ isProcessing app = false.
Proof.
  unfold step, screen.
  destruct (videoFile app), (isProcessing app), (frames app); try discriminate.
  intros _. repeat split.
Qed.

(** Deleting the only frame of a run: its URL is revoked, the sequence is
    empty, the lightbox is closed; when the timer fires the "bad video"
    alert is shown and [handleRerun] finds nothing left to revoke. *)
Lemma delete_only_frame_exhausts_run (f : PortfolioFrame) (app : App) (w : World) :
  frames app = [f] -> framesRef app = [f] -> isProcessing app = false ->
  exists app' w',
    run [ClickDelete (id f); TimerFires] (app, w) = Some (app', w') /\
    frames app' = [] /\ expandedFrame app' = None /\ videoFile app' = None /\
    timers app' = timers app /\
    revoked (browser w') = revoked (browser w) ++ [url f] /\
    alerts w' = alerts w ++ [warnBadVideo].
Proof.
  intros F R P.
  assert (has_id (id f) f = true) as H by (apply has_id_true; reflexivity).
  unfold run, step, screen, offered, rendered. rewrite F, P. simpl existsb. rewrite H.
  destruct (videoFile app) as [v|]; simpl orb; cbv iota;
    unfold Folio.deleteFrame; rewrite F; simpl List.filter; simpl List.find;
    rewrite H; simpl;
    (eexists _, _; split; [reflexivity|]; simpl; repeat split; reflexivity).
Qed.

(** C9, the code at the failing input: the frames of a one-second video
    sampled at 300 frames per second, every capture succeeding.  The first
    two frames (0.1 s and 0.1033 s) both get the id [frame-0.10].
    Deleting that id drops two frames, not one, revokes one URL (that of
    the first, URL 1), and leaves URL 2, the handle of the second dropped
    frame, live with no frame to own it.  The successor was computed as
    [frames[1]], which is itself dropped. *)
Theorem delete_with_colliding_ids :
  exists app w app' w' second,
    run [TypeRate (of_Z 300); PickFile [] (steady_source (of_Z 1))]
        (initialApp, initialWorld) = Some (app, w) /\
    length (frames app) = 270 /\
    map id (firstn 3 (frames app)) =
      ["frame-0.10"; "frame-0.10"; "frame-0.11"]%string /\
    nth_error (frames app) 1 = Some second /\ url second = 2 /\
    Folio.nextFrameToShow "frame-0.10" (frames app) = Some second /\
    Folio.deleteFrame "frame-0.10" app w = (app', w') /\
    length (frames app') = 268 /\
    revoked (browser w') = revoked (browser w) ++ [1] /\
    existsb (fun f => url f =? 2) (frames app') = false /\
    bool_decide (2 ∈ live (browser w')) = true.
Proof.
  eexists _, _, _, _, _.
  split; [vm_compute; reflexivity|].
  split; [vm_compute; reflexivity|].
  split; [vm_compute; reflexivity|].
  split; [vm_compute; reflexivity|].
  split; [vm_compute; reflexivity|].
  split; [vm_compute; reflexivity|].
  split; [vm_compute; reflexivity|].
  split; [vm_compute; reflexivity|].
  split; [vm_compute; reflexivity|].
  split; vm_compute; reflexivity.
Qed.

(** C4, the code at the failing input: [Folio] with the rate set to 300, a
    one-second video whose captures all succeed, a click on the delete
    button of the first thumbnail (id [frame-0.10]), then "Start Over".
    The run is discarded ([frames] is empty, the upload screen is back);
    270 URLs were revoked (the video's, the first frame's, and those of
    the 268 frames that were left), and URL 2, the display handle of the
    second frame, is not among them: it is still live after the run is
    gone, and stays so after unmount. *)
Theorem handle_outlives_run :
  exists app w w',
    run [TypeRate (of_Z 300); PickFile [] (steady_source (of_Z 1));
         ClickDelete "frame-0.10"; ClickStartOver]
        (initialApp, initialWorld) = Some (app, w) /\
    frames app = [] /\ screen app = UploadScreen /\
    length (revoked (browser w)) = 270 /\
    existsb (Nat.eqb 2) (revoked (browser w)) = false /\
    bool_decide (2 ∈ live (browser w)) = true /\
    Folio.unmount app w = w' /\
    bool_decide (2 ∈ live (browser w')) = true.
Proof.
  eexists _, _, _.
  split; [vm_compute; reflexivity|].
  split; [vm_compute; reflexivity|].
  split; [vm_compute; reflexivity|].
  split; [vm_compute; reflexivity|].
  split; [vm_compute; reflexivity|].
  split; [vm_compute; reflexivity|].
  split; vm_compute; reflexivity.
Qed.

(** * Further properties *)

(** ** Selection *)

Lemma has_id_with_selected i s f : has_id i (with_selected s f) = has_id i f.
Proof. reflexivity. Qed.

Lemma with_selected_twice f :
  with_selected (negb (selected (with_selected (negb (selected f)) f)))
                (with_selected (negb (selected f)) f) = f.
Proof. destruct f as [a b c [] e]; reflexivity. Qed.

Lemma toggled_twice i fs : toggled i (toggled i fs) = fs.
Proof.
  unfold toggled. rewrite map_map.
  induction fs as [|f fs IH]; [reflexivity|].
  simpl. rewrite IH. f_equal.
  destruct (has_id i f) eqn:E.
  - rewrite has_id_with_selected, E. apply with_selected_twice.
  - rewrite E. reflexivity.
Qed.

Lemma toggled_no_match i fs :
  existsb (has_id i) fs = false -> toggled i fs = fs.
Proof.
  induction fs as [|f fs IH]; [reflexivity|].
  simpl. intros E. apply orb_false_iff in E as [E1 E2].
  rewrite E1, (IH E2). reflexivity.
Qed.


Lemma toggled_data i fs :
  map (fun f => (id f, url f, blob f, timestamp f)) (toggled i fs) =
  map (fun f => (id f, url f, blob f, timestamp f)) fs.
Proof.
  unfold toggled. rewrite map_map. apply map_ext.
  intros f. destruct (has_id i f); reflexivity.
Qed.

(** X1: [toggleFrameSelection] is its own inverse.  Toggling the same id
    twice gives back the state it started from: every frame, the frame in
    the lightbox and all other state ([Folio], [Curator], [src/index.tsx]). *)
Theorem toggle_twice_restores (i : string) (app : App) :
  Folio.toggleFrameSelection i (Folio.toggleFrameSelection i app) = app /\
  Curator.toggleFrameSelection i (Curator.toggleFrameSelection i app) = app /\
  Index.toggleFrameSelection i (Index.toggleFrameSelection i app) = app.
Proof.
  assert (F : Folio.toggleFrameSelection i (Folio.toggleFrameSelection i app) = app).
  { destruct app as [vf ip pr fs iz ex fp fr tm].
    unfold Folio.toggleFrameSelection. cbn [frames expandedFrame videoFile isProcessing
      progress isZipping framepSecond framesRef timers].
    fold (toggled i fs). fold (toggled i (toggled i fs)).
    rewrite toggled_twice. f_equal.
    destruct ex as [e|]; [|reflexivity].
    destruct (has_id i e) eqn:E.
    - rewrite has_id_with_selected, E, with_selected_twice. reflexivity.
    - rewrite E. reflexivity. }
  split; [exact F|]. split; [exact F|].
  destruct app as [vf ip pr fs iz ex fp fr tm].
  unfold Index.toggleFrameSelection. cbn [frames expandedFrame videoFile isProcessing
    progress isZipping framepSecond framesRef timers].
  fold (toggled i fs). fold (toggled i (toggled i fs)).
  rewrite toggled_twice. reflexivity.
Qed.

Lemma toggled_first_match i l1 f l2 :
  has_id i f = true ->
  Forall (fun g => has_id i g = false) l1 ->
  Forall (fun g => has_id i g = false) l2 ->
  toggled i (l1 ++ f :: l2) = l1 ++ with_selected (negb (selected f)) f :: l2.
Proof.
  intros E F1 F2. unfold toggled. rewrite map_app. cbn [map]. rewrite E.
  f_equal; [|f_equal].
  - induction F1 as [|g l Hg _ IH]; [reflexivity|]. simpl. rewrite Hg, IH. reflexivity.
  - induction F2 as [|g l Hg _ IH]; [reflexivity|]. simpl. rewrite Hg, IH. reflexivity.
Qed.

Lemma filter_selected_app (l1 l2 : list PortfolioFrame) :
  length (List.filter selected (l1 ++ l2)) =
  length (List.filter selected l1) + length (List.filter selected l2).
Proof. rewrite List.filter_app, length_app. reflexivity. Qed.

(** X2: where ids are pairwise different, toggling the id of a frame
    flips the [selected] flag of that frame and of no other, leaves every
    frame in its place, and so changes the selected count by exactly one
    (up when the frame was unselected, down when it was selected). *)
Theorem toggle_flips_one_flag (l1 l2 : list PortfolioFrame) (f : PortfolioFrame)
    (app : App) :
  frames app = l1 ++ f :: l2 ->
  distinct_ids (frames app) ->
  let app' := Folio.toggleFrameSelection (id f) app in
  frames app' = l1 ++ with_selected (negb (selected f)) f :: l2 /\
  frames (Index.toggleFrameSelection (id f) app) = frames app' /\
  (selected f = false -> selectedCount app' = S (selectedCount app)) /\
  (selected f = true -> S (selectedCount app') = selectedCount app).
Proof.
  intros E D app'.
  rewrite E in D. destruct (distinct_ids_others _ _ _ D) as [F1 F2].
  assert (Hf : has_id (id f) f = true) by (apply has_id_true; reflexivity).
  assert (E' : frames app' = l1 ++ with_selected (negb (selected f)) f :: l2).
  { subst app'. unfold Folio.toggleFrameSelection. cbn [frames].
    fold (toggled (id f) (frames app)). rewrite E.
    apply toggled_first_match; assumption. }
  split; [exact E'|]. split; [reflexivity|].
  unfold selectedCount. rewrite E', E, !filter_selected_app.
  split; intros S; cbn [List.filter selected with_selected]; rewrite S; simpl; lia.
Qed.

Lemma toggle_flips_one_flag_witness :
  let f := mkFrame "frame-0.10" 1 [] false (Fin (1 # 10)) in
  let g := mkFrame "frame-0.43" 2 [] true (Fin (13 # 30)) in
  let app := mkApp (Some []) false (of_Z 100) [f; g] false None (of_Z 1) [f; g] 0 in
  frames (Folio.toggleFrameSelection "frame-0.43" app) = [f; with_selected false g] /\
  selectedCount (Folio.toggleFrameSelection "frame-0.43" app) = 0.
Proof.
  intros f g app.
  assert (E : frames app = [f] ++ g :: []) by reflexivity.
  assert (D : distinct_ids (frames app)).
  { unfold distinct_ids. simpl. repeat constructor; simpl; intuition discriminate. }
  destruct (toggle_flips_one_flag [f] [] g app E D) as (A & _ & _ & B).
  split; [exact A|].
  specialize (B eq_refl). simpl in B. unfold selectedCount in *. simpl in *. lia.
Defined.

Lemma filter_all_selected (b : bool) (fs : list PortfolioFrame) :
  List.filter selected (map (with_selected b) fs) =
  if b then map (with_selected b) fs else [].
Proof.
  induction fs as [|f fs IH]; [destruct b; reflexivity|].
  simpl. rewrite IH. destruct b; reflexivity.
Qed.

Lemma filter_selected_true (fs : list PortfolioFrame) :
  List.filter selected (map (with_selected true) fs) = map (with_selected true) fs.
Proof. apply (filter_all_selected true). Qed.

(** X3: [selectAll b] sets every flag to [b] and touches nothing else of a
    frame; a second [selectAll] overrides the first.  The selected count
    becomes the number of frames or zero; a download after "select all"
    packs every frame of the gallery in display order (when there is one),
    a download after "deselect all" is refused with the "nothing selected"
    alert. *)
Theorem select_all_then_download (b : bool) (app : App) (w : World) :
  selectedCount (selectAll b app) = (if b then length (frames app) else 0) /\
  map (fun f => (id f, url f, blob f, timestamp f)) (frames (selectAll b app)) =
    map (fun f => (id f, url f, blob f, timestamp f)) (frames app) /\
  (forall c, selectAll b (selectAll c app) = selectAll b app) /\
  fst (handleDownload (selectAll b app) w) =
    (if b && negb (length (frames app) =? 0)
     then Some (zip_entries_from 0 (map (with_selected true) (frames app)))
     else None) /\
  (b = false -> handleDownload (selectAll b app) w = (None, alert errNoSel w)).
Proof.
  unfold selectAll, selectedCount, handleDownload. cbn [frames].
  rewrite filter_all_selected.
  split; [destruct b; [apply length_map|reflexivity]|].
  split; [rewrite map_map; reflexivity|].
  split; [intros c; cbn; rewrite map_map; reflexivity|].
  split.
  - destruct b; [|reflexivity]. rewrite length_map. cbn [andb].
    destruct (length (frames app) =? 0); reflexivity.
  - intros ->. reflexivity.
Qed.

Lemma some_unselected (fs : list PortfolioFrame) :
  existsb (fun f => negb (selected f)) fs =
  (length (List.filter selected fs) <? length fs).
Proof.
  assert (L : forall l : list PortfolioFrame, length (List.filter selected l) <= length l).
  { induction l as [|g l IH]; simpl; [lia|]. destruct (selected g); simpl; lia. }
  induction fs as [|f fs IH]; [reflexivity|].
  simpl. destruct (selected f); simpl.
  - rewrite IH. reflexivity.
  - symmetry. apply Nat.ltb_lt. specialize (L fs). lia.
Qed.

(** X4: the button in the header calls
    [selectAll(frames.some(f => !f.selected))]: when any frame is
    unselected it selects all of them, otherwise it deselects all.  Ids,
    URLs and the outside world are unchanged. *)
Theorem select_all_button (app : App) (w : World) (st' : App * World) :
  step ClickSelectAll (app, w) = Some st' ->
  selectedCount (fst st') =
    (if selectedCount app <? length (frames app) then length (frames app) else 0) /\
  map id (frames (fst st')) = map id (frames app) /\
  urls (frames (fst st')) = urls (frames app) /\
  snd st' = w.
Proof.
  unfold step. destruct (screen app); try discriminate.
  destruct (isZipping app); [discriminate|].
  unfold rendered. intros [= <-].
  cbn [fst snd]. unfold Folio.sync_framesRef, selectedCount. cbn [frames selectAll].
  rewrite some_unselected.
  set (b := length (List.filter selected (frames app)) <? length (frames app)).
  rewrite filter_all_selected.
  split; [|split; [|split]].
  - destruct b; [apply length_map|reflexivity].
  - rewrite map_map. reflexivity.
  - unfold urls. rewrite map_map. reflexivity.
  - reflexivity.
Qed.

Lemma select_all_button_witness :
  let f := mkFrame "frame-0.10" 1 [] false (Fin (1 # 10)) in
  let g := mkFrame "frame-0.43" 2 [] true (Fin (13 # 30)) in
  let app := mkApp (Some []) false (of_Z 100) [f; g] false None (of_Z 1) [f; g] 0 in
  exists st', step ClickSelectAll (app, initialWorld) = Some st' /\
              selectedCount (fst st') = 2.
Proof.
  intros f g app.
  destruct (step ClickSelectAll (app, initialWorld)) as [st'|] eqn:E; [|discriminate E].
  exists st'. split; [reflexivity|].
  destruct (select_all_button app initialWorld st' E) as (C & _). exact C.
Defined.

(** ** Decimal text: [padStart] and [toFixed(2)] never merge two numbers *)

Lemma decimal_value_of_N (n : N) : decimal_value (Text.of_N n) = Some n.
Proof.
  unfold decimal_value, Text.of_N.
  pose proof (DecimalN.Unsigned.of_to n) as R.
  destruct (N.to_uint n) as [|d|d|d|d|d|d|d|d|d|d] eqn:U;
    try (rewrite NilZero.usu by discriminate; simpl; f_equal; exact R).
  simpl. f_equal. exact R.
Qed.

Lemma of_N_nonempty (n : N) : Text.of_N n <> EmptyString.
Proof.
  intros E. pose proof (decimal_value_of_N n) as V. rewrite E in V. discriminate V.
Qed.

Lemma decimal_value_zero (s : string) :
  s <> EmptyString -> decimal_value (String "0" s) = decimal_value s.
Proof.
  intros Hs. unfold decimal_value, NilZero.uint_of_string.
  destruct s as [|c s]; [congruence|].
  cbn [NilEmpty.uint_of_string].
  set (r := uint_of_char c (NilEmpty.uint_of_string s)).
  unfold uint_of_char at 1. simpl.
  destruct r; reflexivity.
Qed.

Lemma zeros_nonempty k s : s <> EmptyString -> (Text.zeros k ++ s)%string <> EmptyString.
Proof. destruct k; simpl; [auto|discriminate]. Qed.

Lemma decimal_value_zeros (k : nat) (s : string) :
  s <> EmptyString -> decimal_value (Text.zeros k ++ s) = decimal_value s.
Proof.
  intros Hs. induction k as [|k IH]; [reflexivity|].
  change (decimal_value (String "0" (Text.zeros k ++ s)) = decimal_value s).
  rewrite decimal_value_zero; [exact IH|]. apply zeros_nonempty, Hs.
Qed.

(** [padStart] never merges two numbers. *)
Lemma padStart0_of_N_value (w : nat) (n : N) :
  decimal_value (Text.padStart0 w (Text.of_N n)) = Some n.
Proof.
  unfold Text.padStart0. rewrite decimal_value_zeros by apply of_N_nonempty.
  apply decimal_value_of_N.
Qed.

Lemma padStart0_of_N_inj (w : nat) (n n' : N) :
  Text.padStart0 w (Text.of_N n) = Text.padStart0 w (Text.of_N n') -> n = n'.
Proof.
  intros E. pose proof (padStart0_of_N_value w n) as V.
  rewrite E, padStart0_of_N_value in V. congruence.
Qed.

Lemma string_app_length (a b : string) :
  String.length (a ++ b) = String.length a + String.length b.
Proof. induction a as [|c a IH]; simpl; [reflexivity|]. rewrite IH. reflexivity. Qed.

Lemma string_app_inj_length (a b x y : string) :
  String.length a = String.length b -> (a ++ x = b ++ y)%string -> a = b /\ x = y.
Proof.
  revert b. induction a as [|c a IH]; intros [|c' b] L E; simpl in *; try discriminate.
  - split; [reflexivity|exact E].
  - injection E as -> E. injection L as L.
    destruct (IH b L E) as [-> ->]. split; reflexivity.
Qed.



Lemma substring_prefix_length (n : nat) (m : string) :
  n <= String.length m -> String.length (substring 0 n m) = n.
Proof.
  revert m. induction n as [|n IH]; intros m L.
  - destruct m; reflexivity.
  - destruct m as [|c m]; simpl in *; [lia|]. rewrite IH by lia. reflexivity.
Qed.

Lemma substring_split (n : nat) (m : string) :
  n <= String.length m ->
  (substring 0 n m ++ substring n (String.length m - n) m)%string = m.
Proof.
  revert m. induction n as [|n IH]; intros m L.
  - rewrite Nat.sub_0_r.
    assert (P : forall s, substring 0 (String.length s) s = s).
    { induction s as [|c s IHs]; simpl; [reflexivity|]. rewrite IHs. reflexivity. }
    rewrite P. destruct m; reflexivity.
  - destruct m as [|c m]; simpl in *; [lia|].
    transitivity (String c (substring 0 n m ++ substring n (String.length m - n) m));
      [reflexivity|].
    rewrite IH by lia. reflexivity.
Qed.

Lemma point_two_inj (m m' : string) :
  2 <= String.length m -> 2 <= String.length m' ->
  point_two m = point_two m' -> m = m'.
Proof.
  intros L L' E.
  pose proof (substring_split (String.length m - 2) m ltac:(lia)) as S.
  pose proof (substring_split (String.length m' - 2) m' ltac:(lia)) as S'.
  replace (String.length m - (String.length m - 2)) with 2 in S by lia.
  replace (String.length m' - (String.length m' - 2)) with 2 in S' by lia.
  assert (K : String.length m = String.length m').
  { pose proof (f_equal String.length E) as EL. unfold point_two in EL.
    rewrite !string_app_length in EL.
    rewrite !substring_prefix_length in EL by lia.
    pose proof (f_equal String.length S) as SL.
    pose proof (f_equal String.length S') as SL'.
    rewrite string_app_length, substring_prefix_length in SL, SL' by lia.
    lia. }
  unfold point_two in E.
  apply string_app_inj_length in E as [E1 E2];
    [|rewrite !substring_prefix_length by lia; lia].
  apply string_app_inj_length in E2 as [_ E2]; [|reflexivity].
  rewrite <- S, <- S', E1, E2. reflexivity.
Qed.

Lemma padStart0_length (w : nat) (s : string) : w <= String.length (Text.padStart0 w s).
Proof.
  unfold Text.padStart0. rewrite string_app_length.
  assert (Z : forall k, String.length (Text.zeros k) = k).
  { induction k as [|k IH]; simpl; [reflexivity|]. rewrite IH. reflexivity. }
  rewrite Z. lia.
Qed.

Lemma toFixed2_nonneg (q : Q) :
  (0 <= q)%Q ->
  Text.toFixed2 (Fin q) = point_two (Text.padStart0 3 (Text.of_N (cents q))).
Proof.
  intros P. unfold Text.toFixed2.
  assert (N : Qlt_bool q 0 = false) by (apply Qlt_bool_false_iff; exact P).
  rewrite N. reflexivity.
Qed.

(** Two non-negative numbers print alike under [toFixed(2)] only when they
    round to the same hundredth. *)
Lemma toFixed2_inj (q q' : Q) :
  (0 <= q)%Q -> (0 <= q')%Q ->
  Text.toFixed2 (Fin q) = Text.toFixed2 (Fin q') -> cents q = cents q'.
Proof.
  intros P P' E. rewrite !toFixed2_nonneg in E by assumption.
  apply point_two_inj in E.
  - apply padStart0_of_N_inj in E. exact E.
  - pose proof (padStart0_length 3 (Text.of_N (cents q))). lia.
  - pose proof (padStart0_length 3 (Text.of_N (cents q'))). lia.
Qed.

Lemma cents_apart (q q' : Q) :
  (0 <= q)%Q -> (q + (1 # 100) <= q')%Q -> (cents q < cents q')%N.
Proof.
  intros P G. unfold cents.
  assert (A : (0 <= Qfloor (q * 100 + (1 # 2)))%Z).
  { change 0%Z with (Qfloor 0). apply Qfloor_resp_le. lra. }
  assert (B : (Qfloor (q * 100 + (1 # 2)) + 1 <= Qfloor (q' * 100 + (1 # 2)))%Z).
  { rewrite <- (Qfloor_Z (Qfloor (q * 100 + (1 # 2)) + 1)).
    apply Qfloor_resp_le. rewrite inject_Z_plus.
    pose proof (Qfloor_le (q * 100 + (1 # 2))) as F.
    change (inject_Z 1) with 1%Q. lra. }
  lia.
Qed.

Lemma frame_ids_apart (q q' : Q) :
  (0 <= q)%Q -> (q + (1 # 100) <= q')%Q ->
  ("frame-" ++ Text.toFixed2 (Fin q))%string <> ("frame-" ++ Text.toFixed2 (Fin q'))%string.
Proof.
  intros P G E.
  apply string_app_inj_length in E as [_ E]; [|reflexivity].
  apply toFixed2_inj in E; [|exact P|lra].
  pose proof (cents_apart q q' P G). lia.
Qed.

(** ** Spacing of the samples, timestamps and ids *)

Section Spacing.
Variable guard : LoopSt -> bool.
Variable report : num -> nat -> num.
Variables (sel : bool) (src : Source) (interval duration : num) (g : Q).
Hypothesis g_pos : (0 < g)%Q.
Hypothesis interval_ok : at_least g interval.
Hypothesis guard_lt : forall s, guard s = true -> lt (currentTime s) duration = true.

Lemma lt_PInf (b : num) : lt PInf b = false.
Proof. destruct b; reflexivity. Qed.

Lemma le_after (x t : Q) :
  (x <= t + g)%Q -> le (Fin x) (add (Fin t) interval) = true.
Proof.
  intros L. destruct interval_ok as [->|(i & -> & I)]; [reflexivity|].
  simpl. apply le_Fin. rewrite Qred_correct. lra.
Qed.

Lemma time_after (t : Q) :
  (0 <= t)%Q ->
  add (Fin t) interval = PInf \/ exists t', add (Fin t) interval = Fin t' /\ (0 <= t')%Q.
Proof.
  intros T. destruct interval_ok as [->|(i & -> & I)]; [left; reflexivity|].
  right. exists (Qred (t + i)). split; [reflexivity|]. rewrite Qred_correct. lra.
Qed.

Lemma spaced_kept s :
  spaced g duration s -> guard s = true ->
  spaced g duration (fst (reporting_body report sel src interval s)).
Proof.
  intros (T & F & S) G. apply guard_lt in G.
  destruct T as [T|(t & T & T0)]; [rewrite T, lt_PInf in G; discriminate G|].
  assert (F' : Forall (fun f => exists q,
              timestamp f = Fin q /\
              id f = ("frame-" ++ Text.toFixed2 (Fin q))%string /\
              (0 <= q)%Q /\ lt (Fin q) duration = true /\
              le (Fin (q + g)) (add (Fin t) interval) = true) (newFrames s)).
  { eapply List.Forall_impl; [|exact F].
    intros f (q & Eq & Ei & Q0 & Qd & Qt). exists q.
    repeat (split; [assumption|]).
    rewrite T in Qt. apply le_Fin in Qt. apply le_after. lra. }
  unfold reporting_body, capture_step, push_frame, createObjectURL.
  rewrite T in *.
  destruct (capture src (loopCount s) (Fin t)) as [b| |]; cbn [fst].
  - unfold spaced. cbn [currentTime newFrames].
    split; [apply time_after; exact T0|]. split.
    + apply Forall_app; split; [exact F'|].
      constructor; [|constructor]. exists t. cbn [timestamp id].
      repeat (split; [first [reflexivity|assumption]|]).
      apply le_after. lra.
    + apply StronglySorted_snoc; [exact S|].
      eapply List.Forall_impl; [|exact F].
      intros f (q & Eq & _ & _ & _ & Qt). exists q, t. cbn [timestamp].
      apply le_Fin in Qt. repeat split; [exact Eq|exact Qt].
  - unfold spaced. cbn [currentTime newFrames].
    split; [apply time_after; exact T0|]. split; [exact F'|exact S].
  - unfold spaced. cbn [currentTime newFrames].
    split; [right; exists t; split; [reflexivity|exact T0]|].
    split; [|exact S]. exact F.
Qed.

Lemma loop_spaced fuel (s0 : Q) (w : World) e :
  (0 <= s0)%Q ->
  while guard (reporting_body report sel src interval) fuel
        (mkLoop (Fin s0) 0 [] w) = Some e ->
  spaced g duration (final e).
Proof.
  intros S0 W.
  eapply while_invariant; [apply spaced_kept| |exact W].
  split; [right; exists s0; split; [reflexivity|exact S0]|].
  split; constructor.
Qed.
End Spacing.

Lemma spaced_in_order g d s :
  (0 < g)%Q -> spaced g d s ->
  StronglySorted earlier (newFrames s) /\ Forall (in_range d) (newFrames s).
Proof.
  intros G (_ & F & S). split.
  - clear F. induction S as [|f l S IH A]; constructor; [exact IH|].
    eapply List.Forall_impl; [|exact A].
    intros h (q & r & Eq & Er & L). unfold earlier. rewrite Eq, Er.
    apply lt_Fin. lra.
  - eapply List.Forall_impl; [|exact F].
    intros f (q & Eq & _ & Q0 & Qd & _). unfold in_range. rewrite Eq.
    split; [apply le_Fin; exact Q0|exact Qd].
Qed.

Lemma spaced_distinct_ids g d s :
  (1 # 100 <= g)%Q -> spaced g d s -> distinct_ids (newFrames s).
Proof.
  intros G (_ & F & S). unfold distinct_ids.
  induction S as [|f l S IH A]; simpl; constructor.
  - intros I. apply in_map_iff in I as (h & Eh & Hh).
    inversion F as [|? ? (q & Eq & Ei & Q0 & _) F']; subst.
    pose proof (proj1 (List.Forall_forall _ _) A h Hh) as (q' & r & Eq' & Er & L).
    pose proof (proj1 (List.Forall_forall _ _) F' h Hh) as (r' & Er' & Ej & _).
    assert (q' = q) by congruence. assert (r' = r) by congruence. subst q' r'.
    rewrite Ei, Ej in Eh. symmetry in Eh. revert Eh.
    apply frame_ids_apart; [exact Q0|lra].
  - apply IH. inversion F; assumption.
Qed.

Lemma folio_processVideo_cases fuel src file app w r :
  Folio.processVideo fuel src file app w = Some r ->
  exists o, r = outcome_result app w o /\
    match o with
    | NoMetadata => metadata src = None
    | NoCanvas => metadata src <> None /\ context2d src = false
    | Sampled e =>
        exists reported, metadata src = Some reported /\ context2d src = true /\
          let d := Folio.sane_duration reported in
          while (Folio.guard d)
                (Folio.body src (Folio.plan_interval (framepSecond app) d) d) fuel
                (loop_entry (Folio.start_offset d) app w) = Some e
    end.
Proof.
  unfold Folio.processVideo, outcome_result, loop_entry.
  destruct (begin_processing app w) as [[app1 videoUrl] w1].
  destruct (metadata src) as [reported|].
  2:{ intros [= <-]. exists NoMetadata. split; reflexivity. }
  destruct (context2d src); cbn [negb].
  2:{ intros [= <-]. exists NoCanvas. split; [reflexivity|]. split; [discriminate|reflexivity]. }
  cbn [snd].
  destruct (while _ _ _ _) as [e|] eqn:W; [|discriminate].
  intros [= <-]. exists (Sampled e). split; [reflexivity|].
  exists reported. split; [reflexivity|split; [reflexivity|exact W]].
Qed.

Lemma curator_processVideo_cases fuel src file app w r :
  Curator.processVideo fuel src file app w = Some r ->
  exists o, r = outcome_result app w o /\
    match o with
    | NoMetadata => metadata src = None
    | NoCanvas => metadata src <> None /\ context2d src = false
    | Sampled e =>
        exists reported, metadata src = Some reported /\ context2d src = true /\
          let d := Curator.sane_duration reported in
          while (Curator.guard d) (Curator.body src (Curator.plan_interval d) d) fuel
                (loop_entry (Curator.start_offset d) app w) = Some e
    end.
Proof.
  unfold Curator.processVideo, outcome_result, loop_entry.
  destruct (begin_processing app w) as [[app1 videoUrl] w1].
  destruct (metadata src) as [reported|].
  2:{ intros [= <-]. exists NoMetadata. split; reflexivity. }
  destruct (context2d src); cbn [negb].
  2:{ intros [= <-]. exists NoCanvas. split; [reflexivity|]. split; [discriminate|reflexivity]. }
  cbn [snd].
  destruct (while _ _ _ _) as [e|] eqn:W; [|discriminate].
  intros [= <-]. exists (Sampled e). split; [reflexivity|].
  exists reported. split; [reflexivity|split; [reflexivity|exact W]].
Qed.

Lemma index_processVideo_cases fuel src file app w r :
  Index.processVideo fuel src file app w = Some r ->
  exists o, r = outcome_result app w o /\
    match o with
    | NoMetadata => metadata src = None
    | NoCanvas => metadata src <> None /\ context2d src = false
    | Sampled e =>
        exists reported, metadata src = Some reported /\ context2d src = true /\
          let d := Index.fallback_duration reported in
          while (Index.guard d) (Index.body src (Index.plan_interval d) d) fuel
                (loop_entry (Index.start_offset d) app w) = Some e
    end.
Proof.
  unfold Index.processVideo, outcome_result, loop_entry.
  destruct (begin_processing app w) as [[app1 videoUrl] w1].
  destruct (metadata src) as [reported|].
  2:{ intros [= <-]. exists NoMetadata. split; reflexivity. }
  destruct (context2d src); cbn [negb].
  2:{ intros [= <-]. exists NoCanvas. split; [reflexivity|]. split; [discriminate|reflexivity]. }
  cbn [snd].
  destruct (while _ _ _ _) as [e|] eqn:W; [|discriminate].
  intros [= <-]. exists (Sampled e). split; [reflexivity|].
  exists reported. split; [reflexivity|split; [reflexivity|exact W]].
Qed.

Lemma outcome_frames app w o :
  frames (fst (outcome_result app w o)) =
  match o with Sampled e => newFrames (final e) | _ => [] end.
Proof.
  unfold outcome_result, begin_processing, createObjectURL.
  destruct o; reflexivity.
Qed.

Lemma spaced_nothing g d w : spaced g d (mkLoop (of_Z 0) 0 [] w).
Proof.
  split; [right; exists 0%Q; split; [reflexivity|apply Qle_refl]|].
  split; constructor.
Qed.

Lemma while_guard_false_final {St : Type} (guard : St -> bool) (body : St -> St * bool)
    fuel s e :
  guard s = false -> while guard body fuel s = Some e -> final e = s.
Proof.
  intros G. destruct fuel; simpl; rewrite G; intros [= <-]; reflexivity.
Qed.

Lemma folio_guard_lt maxLoops d s :
  Folio.guard_with maxLoops d s = true -> lt (currentTime s) d = true.
Proof. unfold Folio.guard_with. intros G. apply andb_true_iff in G as [G _]. exact G. Qed.

Lemma start_offset_nonneg (d : Q) :
  (0 < d)%Q -> exists s, Folio.start_offset (Fin d) = Fin s /\ (0 <= s)%Q.
Proof.
  intros D. destruct (start_offset_pos d D) as (s & E & S).
  exists s. split; [exact E|apply Qlt_le_weak; exact S].
Qed.

(** The frames of a run of [Folio] are [g] apart whenever its interval is
    at least [g]. *)
Lemma folio_run_spaced fuel src file app w r (g : Q) :
  Folio.processVideo fuel src file app w = Some r ->
  (0 < g)%Q ->
  at_least g (Folio.plan_interval (framepSecond app) (run_duration src)) ->
  exists s, spaced g (run_duration src) s /\ frames (fst r) = newFrames s.
Proof.
  intros P G A.
  destruct (folio_processVideo_cases _ _ _ _ _ _ P) as (o & -> & C).
  rewrite outcome_frames. destruct o as [| |e].
  - eexists; split; [apply (spaced_nothing g _ w)|reflexivity].
  - eexists; split; [apply (spaced_nothing g _ w)|reflexivity].
  - exists (final e). split; [|reflexivity].
    destruct C as (reported & M & _ & W). cbv zeta in W.
    unfold run_duration in *. rewrite M in *.
    destruct (sane_duration_pos reported) as (d & Ed & D). rewrite Ed in *.
    destruct (start_offset_nonneg d D) as (s0 & Es & S0). rewrite Es in W.
    eapply (loop_spaced (Folio.guard (Fin d)) (Folio.reported_progress (Fin d))
              false src _ (Fin d) g G A); [|exact S0|exact W].
    intros s. apply folio_guard_lt.
Qed.

Lemma curator_run_spaced fuel src file app w r (g : Q) :
  Curator.processVideo fuel src file app w = Some r ->
  (0 < g)%Q -> at_least g (Curator.plan_interval (run_duration src)) ->
  exists s, spaced g (run_duration src) s /\ frames (fst r) = newFrames s.
Proof.
  intros P G A.
  destruct (curator_processVideo_cases _ _ _ _ _ _ P) as (o & -> & C).
  rewrite outcome_frames. destruct o as [| |e].
  - eexists; split; [apply (spaced_nothing g _ w)|reflexivity].
  - eexists; split; [apply (spaced_nothing g _ w)|reflexivity].
  - exists (final e). split; [|reflexivity].
    destruct C as (reported & M & _ & W). cbv zeta in W.
    unfold run_duration in *. rewrite M in *.
    unfold Curator.sane_duration, Curator.start_offset in W.
    destruct (sane_duration_pos reported) as (d & Ed & D). rewrite Ed in *.
    destruct (start_offset_nonneg d D) as (s0 & Es & S0). rewrite Es in W.
    eapply (loop_spaced (Curator.guard (Fin d)) (Curator.reported_progress (Fin d))
              true src _ (Fin d) g G A); [|exact S0|exact W].
    intros s. apply folio_guard_lt.
Qed.

Lemma index_loop_spaced_positive fuel src (q : Q) (w : World) e (g : Q) :
  (0 < q)%Q -> (0 < g)%Q -> at_least g (Index.plan_interval (Fin q)) ->
  while (Index.guard (Fin q)) (Index.body src (Index.plan_interval (Fin q)) (Fin q)) fuel
        (mkLoop (Index.start_offset (Fin q)) 0 [] w) = Some e ->
  spaced g (Fin q) (final e).
Proof.
  intros Q G A W.
  destruct (index_start_offset_value q) as (s0 & Es & S0).
  rewrite Es in W.
  eapply (loop_spaced (Index.guard (Fin q)) (fun t _ => index_report (Fin q) t)
            true src _ (Fin q) g G A); [| |exact W].
  - intros s L. exact L.
  - rewrite S0. apply Q.min_glb; [discriminate|].
    apply Qlt_le_weak, Qdiv_pos; [exact Q|reflexivity].
Qed.

Lemma index_run_spaced fuel src file app w r (g : Q) :
  Index.processVideo fuel src file app w = Some r ->
  (0 < g)%Q -> at_least g (Index.plan_interval (index_run_duration src)) ->
  exists s, spaced g (index_run_duration src) s /\ frames (fst r) = newFrames s.
Proof.
  intros P G A.
  destruct (index_processVideo_cases _ _ _ _ _ _ P) as (o & -> & C).
  rewrite outcome_frames. destruct o as [| |e].
  - eexists; split; [apply (spaced_nothing g _ w)|reflexivity].
  - eexists; split; [apply (spaced_nothing g _ w)|reflexivity].
  - destruct C as (reported & M & _ & W). cbv zeta in W.
    unfold index_run_duration, loop_entry in *. rewrite M in *.
    assert (Stop : Index.guard (Index.fallback_duration reported)
              (mkLoop (Index.start_offset (Index.fallback_duration reported)) 0 []
                 (snd (begin_processing app w))) = false ->
            exists s, spaced g (Index.fallback_duration reported) s /\
                      newFrames (final e) = newFrames s).
    { intros F. rewrite (while_guard_false_final _ _ _ _ _ F W).
      eexists; split; [apply (spaced_nothing g _ w)|reflexivity]. }
    destruct reported as [| | |q].
    + exists (final e). split; [|reflexivity].
      eapply (index_loop_spaced_positive fuel src 1); [reflexivity|exact G|exact A|exact W].
    + exists (final e). split; [|reflexivity].
      change (Index.fallback_duration PInf) with PInf in *.
      change (Index.plan_interval PInf) with PInf in W.
      change (Index.start_offset PInf) with (Fin (1 # 2)) in W.
      eapply (loop_spaced (Index.guard PInf) (fun t _ => index_report PInf t)
                true src PInf PInf g G A); [| |exact W].
      * intros s L; exact L.
      * discriminate.
    + apply Stop. reflexivity.
    + unfold Index.fallback_duration, or in *. simpl truthy in *.
      destruct (Qeq_bool q 0) eqn:Z; simpl negb in *; cbv iota in *.
      * exists (final e). split; [|reflexivity].
        eapply (index_loop_spaced_positive fuel src 1);
          [reflexivity|exact G|exact A|exact W].
      * destruct (Qlt_le_dec 0 q) as [Pq|N].
        -- exists (final e). split; [|reflexivity].
           eapply (index_loop_spaced_positive fuel src q); eassumption.
        -- assert (q < 0)%Q as N'.
           { apply Qle_lt_or_eq in N as [N|N]; [exact N|].
             apply Qeq_bool_false_iff in Z. contradiction. }
           apply Stop. apply index_guard_negative. exact N'.
Qed.

Lemma curator_interval_tenth (src : Source) :
  at_least (1 # 10) (Curator.plan_interval (run_duration src)).
Proof.
  assert (exists d, run_duration src = Fin d) as (d & ->).
  { unfold run_duration. destruct (metadata src) as [reported|]; [|eexists; reflexivity].
    destruct (sane_duration_pos reported) as (d & -> & _). eexists; reflexivity. }
  destruct (curator_plan_interval_value d) as (i & -> & I).
  right. exists i. split; [reflexivity|]. rewrite I. apply Q.le_max_l.
Qed.

Lemma index_interval_half (src : Source) :
  at_least (1 # 2) (Index.plan_interval (index_run_duration src)).
Proof.
  assert (forall q, at_least (1 # 2) (Index.plan_interval (Fin q))) as F.
  { intros q. destruct (index_plan_interval_value q) as (i & -> & I).
    right. exists i. split; [reflexivity|]. rewrite I. apply Q.le_max_l. }
  unfold index_run_duration. destruct (metadata src) as [[| | |q]|].
  - apply (F 1%Q).
  - left; reflexivity.
  - right. exists (1 # 2)%Q. split; [reflexivity|apply Qle_refl].
  - unfold Index.fallback_duration, or. simpl truthy.
    destruct (Qeq_bool q 0); simpl negb; cbv iota; [apply (F 1%Q)|apply F].
  - apply (F 1%Q).
Qed.

Lemma at_least_weaken (g g' : Q) (interval : num) :
  (g <= g')%Q -> at_least g' interval -> at_least g interval.
Proof.
  intros L [->|(i & -> & I)]; [left; reflexivity|].
  right. exists i. split; [reflexivity|]. apply Qle_trans with g'; assumption.
Qed.

(** X10: in [src/index.tsx] too the frames of a run are in strictly
    increasing timestamp order and every timestamp lies in [[0, duration)],
    where [duration] is [video.duration || 1]: also when that is
    [Infinity] (at most one frame, at 0.5 s) or negative (no frame). *)
Theorem index_timestamps_increasing_and_in_range :
  forall src file app w,
    exists app' w',
      Index.processVideo 30 src file app w = Some (app', w') /\
      StronglySorted earlier (frames app') /\
      Forall (in_range (index_run_duration src)) (frames app').
Proof.
  intros src file app w.
  destruct (index_processVideo_returns src file app w) as (app' & w' & R & _).
  specialize (R 0). rewrite Nat.add_0_r in R.
  exists app', w'. split; [exact R|].
  destruct (index_run_spaced _ _ _ _ _ _ (1 # 2) R) as (s & Sp & E);
    [reflexivity|apply index_interval_half|].
  cbn [fst] in E. rewrite E. eapply spaced_in_order; [|exact Sp]. reflexivity.
Qed.

(** X11: in [Curator] and in [src/index.tsx] the frames of a run have
    pairwise different ids, for every source: the interval is at least
    0.1 s, and [toFixed(2)] tells apart two times a hundredth of a second
    apart. *)
Theorem curator_and_index_ids_distinct :
  (forall src file app w,
     exists app' w',
       Curator.processVideo Curator.MAX_LOOPS src file app w = Some (app', w') /\
       distinct_ids (frames app')) /\
  (forall src file app w,
     exists app' w',
       Index.processVideo 30 src file app w = Some (app', w') /\
       distinct_ids (frames app')).
Proof.
  split; intros src file app w.
  - destruct (curator_processVideo_returns src file app w) as (app' & w' & R & _).
    specialize (R 0). rewrite Nat.add_0_r in R.
    exists app', w'. split; [exact R|].
    destruct (curator_run_spaced _ _ _ _ _ _ (1 # 10) R) as (s & Sp & E);
      [reflexivity|apply curator_interval_tenth|].
    cbn [fst] in E. rewrite E. eapply spaced_distinct_ids; [|exact Sp]. discriminate.
  - destruct (index_processVideo_returns src file app w) as (app' & w' & R & _).
    specialize (R 0). rewrite Nat.add_0_r in R.
    exists app', w'. split; [exact R|].
    destruct (index_run_spaced _ _ _ _ _ _ (1 # 2) R) as (s & Sp & E);
      [reflexivity|apply index_interval_half|].
    cbn [fst] in E. rewrite E. eapply spaced_distinct_ids; [|exact Sp]. discriminate.
Qed.






(** ** Sessions at moderate rates *)








(** ** The frames of a run are the decoded passes *)

Lemma capture_step_yield src sel interval n s w :
  map frame_data (newFrames (fst (capture_step src sel interval n s w))) =
    map frame_data (newFrames s) ++ pass_frames src sel (currentTime s) (loopCount s) /\
  (snd (capture_step src sel interval n s w) = true <->
   capture src (loopCount s) (currentTime s) = Throws).
Proof.
  unfold capture_step, pass_frames, push_frame, createObjectURL.
  destruct (capture src (loopCount s) (currentTime s)) as [b| |]; cbn [fst snd newFrames].
  - split; [rewrite map_app; reflexivity|]. split; discriminate.
  - split; [rewrite app_nil_r; reflexivity|]. split; discriminate.
  - split; [rewrite app_nil_r; reflexivity|]. split; reflexivity.
Qed.

Lemma flat_map_seq_shift {A : Type} (f : nat -> list A) (a n : nat) :
  flat_map f (seq (S a) n) = flat_map (fun j => f (S j)) (seq a n).
Proof.
  revert a. induction n as [|n IH]; intros a; [reflexivity|].
  cbn [seq flat_map]. rewrite IH. reflexivity.
Qed.

Section Passes.
Variable cond : num -> nat -> bool.
Variable report : num -> nat -> num.
Variables (sel : bool) (src : Source) (interval : num).

Let guard (s : LoopSt) : bool := cond (currentTime s) (loopCount s).

Lemma loop_passes fuel s e :
  while guard (reporting_body report sel src interval) fuel s = Some e ->
  let T j := time_at (currentTime s) interval j in
  let C j := loopCount s + j in
  map frame_data (newFrames (final e)) =
    map frame_data (newFrames s) ++
    flat_map (fun j => pass_frames src sel (T j) (C j)) (seq 0 (iterations e)) /\
  (forall j, j < iterations e -> cond (T j) (C j) = true) /\
  (forall j, S j < iterations e -> capture src (C j) (T j) <> Throws) /\
  (if threw e
   then exists k, iterations e = S k /\ capture src (C k) (T k) = Throws
   else cond (T (iterations e)) (C (iterations e)) = false /\
        forall j, j < iterations e -> capture src (C j) (T j) <> Throws).
Proof.
  revert s e; induction fuel as [|fuel IH]; intros s e; simpl.
  - destruct (guard s) eqn:G; [discriminate|].
    intros [= <-]; simpl. rewrite app_nil_r, Nat.add_0_r.
    split; [reflexivity|]. split; [intros j Hj; lia|]. split; [intros j Hj; lia|].
    split; [exact G|intros j Hj; lia].
  - destruct (guard s) eqn:G.
    2:{ intros [= <-]; simpl. rewrite app_nil_r, Nat.add_0_r.
        split; [reflexivity|]. split; [intros j Hj; lia|]. split; [intros j Hj; lia|].
        split; [exact G|intros j Hj; lia]. }
    destruct (reporting_body report sel src interval s) as [s' t] eqn:B.
    assert (s' = fst (reporting_body report sel src interval s)) as Es
      by (rewrite B; reflexivity).
    assert (t = snd (reporting_body report sel src interval s)) as Et
      by (rewrite B; reflexivity).
    unfold reporting_body in Es, Et.
    destruct (capture_step_yield src sel interval (S (loopCount s)) s
                (setProgress_log (report (currentTime s) (S (loopCount s))) (world s)))
      as (Y & Th).
    rewrite <- Es in Y. rewrite <- Et in Th.
    destruct t.
    + intros [= <-]; cbn [final threw iterations seq flat_map].
      rewrite app_nil_r, Nat.add_0_r. cbn [time_at].
      split; [exact Y|]. split.
      { intros j Hj. assert (j = 0) as -> by lia. rewrite Nat.add_0_r. exact G. }
      split; [intros j Hj; lia|].
      exists 0. rewrite Nat.add_0_r. split; [reflexivity|]. apply Th. reflexivity.
    + assert (capture src (loopCount s) (currentTime s) <> Throws) as NT.
      { intros X. apply Th in X. discriminate X. }
      assert (currentTime s' = add (currentTime s) interval) as Ct.
      { rewrite Es. apply capture_step_time. rewrite <- Et. reflexivity. }
      assert (loopCount s' = S (loopCount s)) as Cc.
      { rewrite Es. apply capture_step_count. }
      destruct (while _ _ fuel s') as [e'|] eqn:W; [|discriminate].
      intros [= <-]; cbn [final threw iterations].
      destruct (IH _ _ W) as (F & Gd & Nt & En). cbv zeta in F, Gd, Nt, En.
      rewrite Ct, Cc in F, Gd, Nt, En.
      assert (forall j, time_at (add (currentTime s) interval) interval j =
                        time_at (currentTime s) interval (S j)) as Ta by reflexivity.
      assert (forall j, S (loopCount s) + j = loopCount s + S j) as Ca by (intros; lia).
      split; [|split; [|split]].
      * rewrite F, Y, <- app_assoc. f_equal.
        cbn [seq flat_map]. rewrite flat_map_seq_shift.
        cbn [time_at]. rewrite Nat.add_0_r. f_equal.
        apply flat_map_ext. intros j. rewrite Ta, Ca. reflexivity.
      * intros [|j] Hj; [cbn [time_at]; rewrite Nat.add_0_r; exact G|].
        rewrite <- Ta, <- Ca. apply Gd. lia.
      * intros [|j] Hj; [cbn [time_at]; rewrite Nat.add_0_r; exact NT|].
        rewrite <- Ta, <- Ca. apply Nt. lia.
      * destruct (threw e').
        -- destruct En as (k & Ek & Tk). exists (S k).
           split; [rewrite Ek; reflexivity|]. rewrite <- Ta, <- Ca. exact Tk.
        -- destruct En as (Gf & Na). split.
           ++ rewrite <- Ta, <- Ca. exact Gf.
           ++ intros [|j] Hj; [cbn [time_at]; rewrite Nat.add_0_r; exact NT|].
              rewrite <- Ta, <- Ca. apply Na. lia.
Qed.
End Passes.

Lemma capture_step_alerts src sel interval n s w :
  alerts (world (fst (capture_step src sel interval n s w))) = alerts w.
Proof.
  unfold capture_step, push_frame, createObjectURL.
  destruct (capture src (loopCount s) (currentTime s)); reflexivity.
Qed.

Section RunShape.
Variable cond : num -> nat -> bool.
Variable report : num -> nat -> num.
Variables (sel : bool) (src : Source) (start interval duration : num).
Variable ceiling : option nat.
Hypothesis cond_inside : forall t n, cond t n = true -> lt t duration = true.
Hypothesis cond_ceiling : forall t n c, cond t n = true -> ceiling = Some c -> n < c.
Hypothesis cond_stop :
  forall t n, cond t n = false -> lt t duration = false \/ exists c, ceiling = Some c /\ c <= n.

Lemma run_sampled_as_decoded fuel app w e :
  while (fun s => cond (currentTime s) (loopCount s))
        (reporting_body report sel src interval) fuel
        (loop_entry start app w) = Some e ->
  sampled_as_decoded src sel start interval duration ceiling w
    (outcome_result app w (Sampled e)).
Proof.
  intros W.
  destruct (loop_passes cond report sel src interval _ _ _ W) as (F & Gd & Nt & En).
  cbv zeta in F, Gd, Nt, En. unfold loop_entry in F, Gd, Nt, En.
  cbn [currentTime loopCount newFrames map List.app Nat.add] in F, Gd, Nt, En.
  assert (alerts (world (final e)) = alerts w) as Al.
  { apply (while_invariant _ _ (fun s => alerts (world s) = alerts w)) in W; [exact W| |].
    - intros s Hs _. unfold reporting_body. rewrite capture_step_alerts. exact Hs.
    - unfold loop_entry, begin_processing, createObjectURL. reflexivity. }
  assert (forall c, ceiling = Some c -> iterations e <= c) as Ce.
  { intros c Ec. destruct (iterations e) as [|k] eqn:K; [lia|].
    assert (k < c); [|lia].
    apply (cond_ceiling (time_at start interval k) k c); [|exact Ec].
    apply Gd. lia. }
  exists (iterations e).
  split; [intros j Hj; eapply cond_inside; apply Gd; exact Hj|].
  split; [exact Ce|].
  split.
  { rewrite outcome_frames. exact F. }
  split; [exact Nt|].
  unfold outcome_result, begin_processing, createObjectURL, finalize.
  destruct (threw e); cbn [snd alerts alert on_browser setProgress_log].
  - left. destruct En as (k & Ek & Tk). exists k.
    split; [exact Ek|]. split; [exact Tk|]. rewrite Al. reflexivity.
  - right. destruct En as (Gf & Na). split; [exact Na|]. split; [|exact Al].
    destruct (cond_stop _ _ Gf) as [L|(c & Ec & Lc)]; [left; exact L|].
    right. rewrite Ec. f_equal. specialize (Ce c Ec). lia.
Qed.
End RunShape.

Lemma outcome_abandoned (src : Source) (app : App) (w : World) (o : Outcome) :
  match o with
  | NoMetadata => metadata src = None
  | NoCanvas => metadata src <> None /\ context2d src = false
  | Sampled _ => False
  end ->
  abandoned src w (outcome_result app w o).
Proof.
  unfold abandoned, outcome_result, begin_processing, createObjectURL.
  destruct o as [| |e]; cbn.
  - intros ->. repeat split.
  - intros [M _]. destruct (metadata src); [repeat split|congruence].
  - contradiction.
Qed.

Lemma ceiling_stop (maxLoops : nat) (d t : num) (n : nat) :
  lt t d && (n <? maxLoops) = false ->
  lt t d = false \/ exists c, Some maxLoops = Some c /\ c <= n.
Proof.
  intros H. apply andb_false_iff in H as [H|H]; [left; exact H|].
  right. exists maxLoops. split; [reflexivity|]. apply Nat.ltb_ge. exact H.
Qed.

Lemma folio_run_decoded src file app w :
  exists r,
    Folio.processVideo Folio.MAX_LOOPS src file app w = Some r /\
    match metadata src, context2d src with
    | Some reported, true =>
        let d := Folio.sane_duration reported in
        sampled_as_decoded src false (Folio.start_offset d)
          (Folio.plan_interval (framepSecond app) d) d (Some Folio.MAX_LOOPS) w r
    | _, _ => abandoned src w r
    end.
Proof.
  destruct (folio_processVideo_returns src file app w) as (app' & w' & R & _).
  specialize (R 0). rewrite Nat.add_0_r in R.
  exists (app', w'). split; [exact R|].
  destruct (folio_processVideo_cases _ _ _ _ _ _ R) as (o & -> & C).
  destruct o as [| |e].
  - rewrite C. apply outcome_abandoned. exact C.
  - destruct C as [M C]. destruct (metadata src) eqn:Em; [|congruence]. rewrite C.
    apply outcome_abandoned. rewrite Em. split; [discriminate|exact C].
  - destruct C as (reported & -> & -> & W). cbv zeta in W |- *.
    eapply (run_sampled_as_decoded
              (fun t n => lt t (Folio.sane_duration reported) && (n <? Folio.MAX_LOOPS))
              (Folio.reported_progress (Folio.sane_duration reported))); [| | |exact W].
    + intros t n H. apply andb_true_iff in H as [H _]. exact H.
    + intros t n c H [= <-]. apply andb_true_iff in H as [_ H].
      apply Nat.ltb_lt. exact H.
    + apply ceiling_stop.
Qed.

Lemma curator_run_decoded src file app w :
  exists r,
    Curator.processVideo Curator.MAX_LOOPS src file app w = Some r /\
    match metadata src, context2d src with
    | Some reported, true =>
        let d := Curator.sane_duration reported in
        sampled_as_decoded src true (Curator.start_offset d)
          (Curator.plan_interval d) d (Some Curator.MAX_LOOPS) w r
    | _, _ => abandoned src w r
    end.
Proof.
  destruct (curator_processVideo_returns src file app w) as (app' & w' & R & _).
  specialize (R 0). rewrite Nat.add_0_r in R.
  exists (app', w'). split; [exact R|].
  destruct (curator_processVideo_cases _ _ _ _ _ _ R) as (o & -> & C).
  destruct o as [| |e].
  - rewrite C. apply outcome_abandoned. exact C.
  - destruct C as [M C]. destruct (metadata src) eqn:Em; [|congruence]. rewrite C.
    apply outcome_abandoned. rewrite Em. split; [discriminate|exact C].
  - destruct C as (reported & -> & -> & W). cbv zeta in W |- *.
    eapply (run_sampled_as_decoded
              (fun t n => lt t (Curator.sane_duration reported) && (n <? Curator.MAX_LOOPS))
              (Curator.reported_progress (Curator.sane_duration reported))); [| | |exact W].
    + intros t n H. apply andb_true_iff in H as [H _]. exact H.
    + intros t n c H [= <-]. apply andb_true_iff in H as [_ H].
      apply Nat.ltb_lt. exact H.
    + apply ceiling_stop.
Qed.

Lemma index_run_decoded src file app w :
  exists r,
    Index.processVideo 30 src file app w = Some r /\
    match metadata src, context2d src with
    | Some reported, true =>
        let d := Index.fallback_duration reported in
        sampled_as_decoded src true (Index.start_offset d)
          (Index.plan_interval d) d None w r
    | _, _ => abandoned src w r
    end.
Proof.
  destruct (index_processVideo_returns src file app w) as (app' & w' & R & _).
  specialize (R 0). rewrite Nat.add_0_r in R.
  exists (app', w'). split; [exact R|].
  destruct (index_processVideo_cases _ _ _ _ _ _ R) as (o & -> & C).
  destruct o as [| |e].
  - rewrite C. apply outcome_abandoned. exact C.
  - destruct C as [M C]. destruct (metadata src) eqn:Em; [|congruence]. rewrite C.
    apply outcome_abandoned. rewrite Em. split; [discriminate|exact C].
  - destruct C as (reported & -> & -> & W). cbv zeta in W |- *.
    eapply (run_sampled_as_decoded
              (fun t _ => lt t (Index.fallback_duration reported))
              (fun t _ => index_report (Index.fallback_duration reported) t)); [| | |exact W].
    + intros t n H. exact H.
    + intros t n c _ [=].
    + intros t n H. left. exact H.
Qed.


(** ** Lightbox navigation *)

Lemma js_index_app_middle {A : Type} (l1 l2 : list A) (x : A) :
  js_index (l1 ++ x :: l2) (Z.of_nat (length l1)) = Some x.
Proof.
  unfold js_index.
  destruct (Z.of_nat (length l1) <? 0)%Z eqn:E; [apply Z.ltb_lt in E; lia|].
  rewrite Nat2Z.id, nth_error_app2 by lia. rewrite Nat.sub_diag. reflexivity.
Qed.

Lemma setExpandedFrame_same (app : App) :
  setExpandedFrame (expandedFrame app) app = app.
Proof. destruct app; reflexivity. Qed.

Lemma currentIndex_first_match (l1 l2 : list PortfolioFrame) (f e : PortfolioFrame)
    (app : App) :
  frames app = l1 ++ f :: l2 ->
  expandedFrame app = Some e ->
  has_id (id e) f = true ->
  Forall (fun g => has_id (id e) g = false) l1 ->
  currentIndex app = Z.of_nat (length l1).
Proof.
  intros F E M N. unfold currentIndex, findIndex. rewrite E, F.
  rewrite (findIndex_from_app_match _ l1 l2 f 0 M N). lia.
Qed.

Section FirstMatch.
Variables (l1 l2 : list PortfolioFrame) (f e : PortfolioFrame) (app : App).
Hypothesis in_gallery : frames app = l1 ++ f :: l2.
Hypothesis in_lightbox : expandedFrame app = Some e.
Hypothesis same_id : has_id (id e) f = true.
Hypothesis first : Forall (fun g => has_id (id e) g = false) l1.

Lemma hasPrev_first_match : hasPrev app = negb (length l1 =? 0).
Proof.
  unfold hasPrev.
  rewrite (currentIndex_first_match l1 l2 f e app in_gallery in_lightbox same_id first).
  destruct l1; simpl; [reflexivity|]. apply Z.ltb_lt. lia.
Qed.

Lemma hasNext_first_match : hasNext app = negb (length l2 =? 0).
Proof.
  unfold hasNext.
  rewrite (currentIndex_first_match l1 l2 f e app in_gallery in_lightbox same_id first).
  rewrite in_gallery, length_app. cbn [length].
  destruct (Z.of_nat (length l1) =? -1)%Z eqn:E1; [apply Z.eqb_eq in E1; lia|].
  cbn [negb andb]. destruct l2; simpl.
  - apply Z.ltb_ge. lia.
  - apply Z.ltb_lt. lia.
Qed.

Lemma goToNext_first_match :
  goToNext app =
    match l2 with
    | next :: _ => setExpandedFrame (Some next) app
    | [] => app
    end.
Proof.
  unfold goToNext. rewrite hasNext_first_match.
  rewrite (currentIndex_first_match l1 l2 f e app in_gallery in_lightbox same_id first).
  rewrite in_gallery. destruct l2 as [|next l2']; [reflexivity|].
  cbn [length Nat.eqb negb].
  replace (Z.of_nat (length l1) + 1)%Z with (Z.of_nat (length (l1 ++ [f])))
    by (rewrite length_app; cbn [length]; lia).
  replace (l1 ++ f :: next :: l2') with ((l1 ++ [f]) ++ next :: l2')
    by (rewrite <- app_assoc; reflexivity).
  rewrite js_index_app_middle. reflexivity.
Qed.

Lemma goToPrev_first_match :
  goToPrev app =
    match rev l1 with
    | previous :: _ => setExpandedFrame (Some previous) app
    | [] => app
    end.
Proof.
  unfold goToPrev. rewrite hasPrev_first_match.
  rewrite (currentIndex_first_match l1 l2 f e app in_gallery in_lightbox same_id first).
  rewrite in_gallery. clear in_gallery first.
  destruct (rev l1) as [|previous rl] eqn:R.
  - assert (l1 = []) as ->
      by (apply (f_equal (@rev _)) in R; rewrite rev_involutive in R; exact R).
    reflexivity.
  - assert (l1 = rev rl ++ [previous]) as ->
      by (apply (f_equal (@rev _)) in R; rewrite rev_involutive in R; exact R).
    rewrite length_app. cbn [length].
    replace (length (rev rl) + 1 =? 0) with false by (symmetry; apply Nat.eqb_neq; lia).
    cbn [negb].
    replace (Z.of_nat (length (rev rl) + 1) - 1)%Z with (Z.of_nat (length (rev rl))) by lia.
    rewrite <- app_assoc. cbn [List.app].
    rewrite js_index_app_middle. reflexivity.
Qed.
End FirstMatch.

(** X19: lightbox navigation looks the shown frame up by id and works
    from the first frame of the gallery that carries it.  [currentIndex]
    is the position of that frame; there is a previous frame when it is
    not the first, a next when it is not the last; [goToNext] shows the
    frame after it and [goToPrev] the frame before it, and each does
    nothing at its end of the gallery.  (Where two frames share an id, the
    lightbox on the later one navigates as if it showed the earlier one.) *)
Theorem navigation_by_first_match (l1 l2 : list PortfolioFrame) (f e : PortfolioFrame)
    (app : App) :
  frames app = l1 ++ f :: l2 ->
  expandedFrame app = Some e ->
  has_id (id e) f = true ->
  Forall (fun g => has_id (id e) g = false) l1 ->
  currentIndex app = Z.of_nat (length l1) /\
  hasPrev app = negb (length l1 =? 0) /\
  hasNext app = negb (length l2 =? 0) /\
  goToNext app =
    match l2 with
    | next :: _ => setExpandedFrame (Some next) app
    | [] => app
    end /\
  goToPrev app =
    match rev l1 with
    | previous :: _ => setExpandedFrame (Some previous) app
    | [] => app
    end.
Proof.
  intros F E M N.
  split; [exact (currentIndex_first_match l1 l2 f e app F E M N)|].
  split; [exact (hasPrev_first_match l1 l2 f e app F E M N)|].
  split; [exact (hasNext_first_match l1 l2 f e app F E M N)|].
  split; [exact (goToNext_first_match l1 l2 f e app F E M N)|].
  exact (goToPrev_first_match l1 l2 f e app F E M N).
Qed.

Lemma navigation_by_first_match_witness :
  let f := mkFrame "frame-0.10" 1 [] false (Fin (1 # 10)) in
  let g := mkFrame "frame-0.43" 2 [] true (Fin (13 # 30)) in
  let app := mkApp (Some []) false (of_Z 100) [f; g] false (Some f) (of_Z 1) [f; g] 0 in
  goToNext app = setExpandedFrame (Some g) app /\ goToPrev app = app.
Proof.
  intros f g app.
  destruct (navigation_by_first_match [] [g] f f app eq_refl eq_refl eq_refl
              (List.Forall_nil _)) as (_ & _ & _ & A & B).
  split; [exact A|exact B].
Defined.

(** X20: where ids are pairwise different, [goToNext] followed by
    [goToPrev] comes back to the same state, and so does [goToPrev]
    followed by [goToNext], whenever the first move is possible. *)
Theorem next_then_prev_returns (l1 l2 : list PortfolioFrame) (f g : PortfolioFrame)
    (app : App) :
  frames app = l1 ++ f :: g :: l2 ->
  distinct_ids (frames app) ->
  (expandedFrame app = Some f -> goToPrev (goToNext app) = app) /\
  (expandedFrame app = Some g -> goToNext (goToPrev app) = app).
Proof.
  intros F D. rewrite F in D.
  destruct (distinct_ids_others l1 (g :: l2) f D) as [Nf _].
  assert (Ng : Forall (fun h => has_id (id g) h = false) (l1 ++ [f])).
  { replace (l1 ++ f :: g :: l2) with ((l1 ++ [f]) ++ g :: l2) in D
      by (rewrite <- app_assoc; reflexivity).
    destruct (distinct_ids_others (l1 ++ [f]) l2 g D) as [N _]. exact N. }
  assert (Mf : has_id (id f) f = true) by (apply has_id_true; reflexivity).
  assert (Mg : has_id (id g) g = true) by (apply has_id_true; reflexivity).
  assert (F' : frames app = (l1 ++ [f]) ++ g :: l2)
    by (rewrite <- app_assoc; exact F).
  split; intros E.
  - rewrite (goToNext_first_match l1 (g :: l2) f f app F E Mf Nf).
    rewrite (goToPrev_first_match (l1 ++ [f]) l2 g g
               (setExpandedFrame (Some g) app) F' eq_refl Mg Ng).
    rewrite rev_app_distr. cbn [rev List.app].
    rewrite <- E. destruct app; reflexivity.
  - rewrite (goToPrev_first_match (l1 ++ [f]) l2 g g app F' E Mg Ng).
    rewrite rev_app_distr. cbn [rev List.app].
    rewrite (goToNext_first_match l1 (g :: l2) f f
               (setExpandedFrame (Some f) app) F eq_refl Mf Nf).
    rewrite <- E. destruct app; reflexivity.
Qed.

Lemma next_then_prev_returns_witness :
  let f := mkFrame "frame-0.10" 1 [] false (Fin (1 # 10)) in
  let g := mkFrame "frame-0.43" 2 [] true (Fin (13 # 30)) in
  let app := mkApp (Some []) false (of_Z 100) [f; g] false (Some f) (of_Z 1) [f; g] 0 in
  goToPrev (goToNext app) = app.
Proof.
  intros f g app.
  assert (D : distinct_ids (frames app)).
  { unfold distinct_ids. simpl. repeat constructor; simpl; intuition discriminate. }
  destruct (next_then_prev_returns [] [] f g app eq_refl D) as [A _].
  exact (A eq_refl).
Defined.

Lemma js_index_In {A : Type} (l : list A) (i : Z) (x : A) :
  js_index l i = Some x -> In x l.
Proof.
  unfold js_index. destruct (i <? 0)%Z; [discriminate|]. apply nth_error_In.
Qed.

(** X21: the keyboard handler changes nothing but [expandedFrame]; with
    the lightbox closed it changes nothing at all, whatever the key; and
    the frame it leaves in the lightbox is the one that was there or a
    frame of the gallery. *)
Theorem keys_only_move_the_lightbox (key : string) (app : App) :
  handleKeyDown key app = setExpandedFrame (expandedFrame (handleKeyDown key app)) app /\
  (expandedFrame app = None -> handleKeyDown key app = app) /\
  (forall e', expandedFrame (handleKeyDown key app) = Some e' ->
              expandedFrame app = Some e' \/ In e' (frames app)).
Proof.
  assert (P : forall app' : App,
            app' = app \/ (exists x, app' = setExpandedFrame x app /\
                                     forall e', x = Some e' -> In e' (frames app)) ->
            app' = setExpandedFrame (expandedFrame app') app /\
            (forall e', expandedFrame app' = Some e' ->
                        expandedFrame app = Some e' \/ In e' (frames app))).
  { intros app' [->|(x & -> & Hx)].
    - split; [symmetry; apply setExpandedFrame_same|]. intros e' H; left; exact H.
    - split; [reflexivity|]. intros e' H. right. apply Hx. exact H. }
  assert (Prev : goToPrev app = app \/
                 exists x, goToPrev app = setExpandedFrame x app /\
                           forall e', x = Some e' -> In e' (frames app)).
  { unfold goToPrev. destruct (hasPrev app); [right|left; reflexivity].
    eexists; split; [reflexivity|]. intros e'. apply js_index_In. }
  assert (Next : goToNext app = app \/
                 exists x, goToNext app = setExpandedFrame x app /\
                           forall e', x = Some e' -> In e' (frames app)).
  { unfold goToNext. destruct (hasNext app); [right|left; reflexivity].
    eexists; split; [reflexivity|]. intros e'. apply js_index_In. }
  assert (K : handleKeyDown key app = app \/
              exists x, handleKeyDown key app = setExpandedFrame x app /\
                        forall e', x = Some e' -> In e' (frames app)).
  { unfold handleKeyDown. destruct (expandedFrame app); [|left; reflexivity].
    destruct (String.eqb key "Escape").
    { right. exists None. split; [reflexivity|discriminate]. }
    destruct (String.eqb key "ArrowLeft"); [exact Prev|].
    destruct (String.eqb key "ArrowRight"); [exact Next|left; reflexivity]. }
  destruct (P _ K) as [A B].
  split; [exact A|]. split; [|exact B].
  intros E. unfold handleKeyDown. rewrite E. reflexivity.
Qed.

(** ** The URL store across a run *)

Section RunHandles.
Variable guard : LoopSt -> bool.
Variable report : num -> nat -> num.
Variables (sel : bool) (src : Source) (start interval : num).

Lemma run_handles fuel app w e :
  store_ok (browser w) ->
  while guard (reporting_body report sel src interval) fuel
        (loop_entry start app w) = Some e ->
  let r := outcome_result app w (Sampled e) in
  NoDup (urls (frames (fst r))) /\
  (forall u, u ∈ urls (frames (fst r)) ->
             u ∈ live (browser (snd r)) /\ u <> next_url (browser w)) /\
  store_ok (browser (snd r)) /\
  revoked (browser (snd r)) = revoked (browser w) ++ [next_url (browser w)] /\
  next_url (browser w) ∉ live (browser (snd r)).
Proof.
  intros Sok W.
  destruct (createObjectURL_store _ Sok) as (S1 & Fl & Fr).
  assert (loop_handles_ok (next_url (browser w)) (revoked (browser w)) (final e)) as LH.
  { eapply while_invariant; [| |exact W].
    - intros s Hs _. unfold reporting_body. apply capture_step_handles. exact Hs.
    - unfold loop_entry, begin_processing, createObjectURL in *. cbn in *.
      split; [exact S1|]. split; [reflexivity|].
      split; [set_solver|]. split; [constructor|].
      intros u Hu. apply elem_of_nil in Hu. contradiction. }
  pose proof LH as (_ & _ & _ & _ & L).
  unfold outcome_result, begin_processing, createObjectURL. cbv zeta.
  destruct (finalize_handles
              (mkApp (videoFile app) true (of_Z 0) [] (isZipping app)
                     (expandedFrame app) (framepSecond app) (framesRef app) (timers app))
              _ _ e LH Fr) as (N & Lv & S' & R).
  cbv zeta in N, Lv, S', R.
  split; [exact N|]. split.
  - intros u Hu. split; [apply Lv; exact Hu|].
    apply L. unfold finalize in Hu. destruct (threw e); exact Hu.
  - split; [exact S'|]. split; [exact R|].
    unfold finalize. destruct (threw e); cbn; set_solver.
Qed.
End RunHandles.

Lemma abandoned_handles (app : App) (w : World) (o : Outcome) :
  store_ok (browser w) ->
  match o with Sampled _ => False | _ => True end ->
  let r := outcome_result app w o in
  store_ok (browser (snd r)) /\
  revoked (browser (snd r)) = revoked (browser w) /\
  next_url (browser w) ∈ live (browser (snd r)).
Proof.
  intros Sok Ho.
  destruct (createObjectURL_store _ Sok) as (S1 & _ & _).
  unfold outcome_result, begin_processing, createObjectURL in *.
  destruct o; [| |contradiction]; cbn in *;
    (split; [exact S1|]; split; [reflexivity|set_solver]).
Qed.

Lemma abandoned_url_effects src app w o :
  store_ok (browser w) ->
  match o with
  | NoMetadata => metadata src = None
  | NoCanvas => metadata src <> None /\ context2d src = false
  | Sampled _ => False
  end ->
  run_url_effects src w (outcome_result app w o).
Proof.
  intros Sok Ho.
  assert (match o with Sampled _ => False | _ => True end) as Ho'
    by (destruct o; [exact I|exact I|exact Ho]).
  destruct (abandoned_handles app w o Sok Ho') as (S' & R & V).
  unfold run_url_effects. split; [exact S'|].
  rewrite outcome_frames.
  assert (match o with Sampled e => newFrames (final e) | _ => [] end = []) as ->
    by (destruct o; [reflexivity|reflexivity|contradiction]).
  split; [constructor|]. split; [intros u Hu; apply elem_of_nil in Hu; contradiction|].
  destruct o as [| |e]; [rewrite Ho|destruct Ho as [_ ->]; destruct (metadata src)|contradiction];
    split; assumption.
Qed.

(** X14: what [processVideo] does to the URL store, in the three
    variants and from any consistent store.  The frames it returns have
    live URLs of their own, none of them the URL minted for the video.
    When the loop was reached, the revocation log grows by the video's URL
    and nothing else.  When the run is abandoned (no metadata, no canvas
    context) nothing is revoked: the URL minted for the video stays live. *)
Theorem video_url_released_only_after_sampling
    (fuel : nat) (src : Source) (file : Blob) (app : App) (w : World) :
  store_ok (browser w) ->
  (forall r, Folio.processVideo fuel src file app w = Some r -> run_url_effects src w r) /\
  (forall r, Curator.processVideo fuel src file app w = Some r -> run_url_effects src w r) /\
  (forall r, Index.processVideo fuel src file app w = Some r -> run_url_effects src w r).
Proof.
  intros Sok.
  assert (forall e guard report sel start interval reported,
            metadata src = Some reported -> context2d src = true ->
            while guard (reporting_body report sel src interval) fuel
                  (loop_entry start app w) = Some e ->
            run_url_effects src w (outcome_result app w (Sampled e))) as Done.
  { intros e guard report sel start interval reported M C W.
    destruct (run_handles guard report sel src start interval fuel app w e Sok W)
      as (N & L & S' & R & V).
    unfold run_url_effects. rewrite M, C.
    split; [exact S'|]. split; [exact N|]. split; [exact L|]. split; [exact R|exact V]. }
  split; [|split]; intros r P.
  - destruct (folio_processVideo_cases _ _ _ _ _ _ P) as (o & -> & K).
    destruct o as [| |e]; [apply abandoned_url_effects; assumption..|].
    destruct K as (reported & M & C & W). cbv zeta in W.
    eapply (Done e _ (Folio.reported_progress _) false); [exact M|exact C|exact W].
  - destruct (curator_processVideo_cases _ _ _ _ _ _ P) as (o & -> & K).
    destruct o as [| |e]; [apply abandoned_url_effects; assumption..|].
    destruct K as (reported & M & C & W). cbv zeta in W.
    eapply (Done e _ (Curator.reported_progress _) true); [exact M|exact C|exact W].
  - destruct (index_processVideo_cases _ _ _ _ _ _ P) as (o & -> & K).
    destruct o as [| |e]; [apply abandoned_url_effects; assumption..|].
    destruct K as (reported & M & C & W). cbv zeta in W.
    eapply (Done e _ (fun t _ => index_report _ t) true); [exact M|exact C|exact W].
Qed.

Lemma initial_store_ok : store_ok (browser initialWorld).
Proof. destruct initial_handles_ok as (_ & _ & _ & S). exact S. Qed.

Lemma video_url_released_only_after_sampling_witness :
  let src := mkSource None 0 0 true (fun _ _ => NoBlob) in
  exists r,
    Folio.processVideo Folio.MAX_LOOPS src [] initialApp initialWorld = Some r /\
    run_url_effects src initialWorld r.
Proof.
  intros src.
  destruct (Folio.processVideo Folio.MAX_LOOPS src [] initialApp initialWorld)
    as [r|] eqn:P; [|discriminate P].
  exists r. split; [reflexivity|].
  exact (proj1 (video_url_released_only_after_sampling Folio.MAX_LOOPS
                  src [] initialApp initialWorld initial_store_ok) r P).
Defined.





(** X15: picking a file always ends on the gallery screen, with
    [videoFile] set and [isProcessing] cleared.  When the metadata did not
    load or the canvas has no context the gallery is empty, the download
    button does nothing, and "Start Over" brings back the upload screen. *)
Theorem picked_file_lands_on_gallery (file : Blob) (src : Source)
    (app : App) (w : World) (st' : App * World) :
  step (PickFile file src) (app, w) = Some st' ->
  screen (fst st') = Gallery /\
  videoFile (fst st') = Some file /\
  isProcessing (fst st') = false /\
  (metadata src = None \/ context2d src = false ->
     frames (fst st') = [] /\ step ClickDownload st' = None /\
     (isZipping app = false ->
      exists st'', step ClickStartOver st' = Some st'' /\
                   screen (fst st'') = UploadScreen)).
Proof.
  unfold step at 1. destruct (screen app); try discriminate.
  destruct (Folio.processVideo _ _ _ _ _) as [r|] eqn:P; [|discriminate].
  unfold rendered. intros [= <-]. cbn [fst snd].
  destruct (folio_processVideo_cases _ _ _ _ _ _ P) as (o & -> & K).
  assert (V : videoFile (fst (outcome_result (setVideoFile (Some file) app) w o)) = Some file /\
              isProcessing (fst (outcome_result (setVideoFile (Some file) app) w o)) = false /\
              isZipping (fst (outcome_result (setVideoFile (Some file) app) w o)) = isZipping app).
  { unfold outcome_result, begin_processing, createObjectURL.
    destruct o; repeat split. }
  destruct V as (V1 & V2 & V3).
  assert (Sc : screen (Folio.sync_framesRef
                         (fst (outcome_result (setVideoFile (Some file) app) w o))) = Gallery).
  { unfold screen, Folio.sync_framesRef. cbn [videoFile isProcessing frames].
    rewrite V1, V2.
    destruct (frames (fst (outcome_result (setVideoFile (Some file) app) w o))); reflexivity. }
  split; [exact Sc|]. split; [exact V1|]. split; [exact V2|].
  intros Fail.
  assert (F : frames (fst (outcome_result (setVideoFile (Some file) app) w o)) = []).
  { rewrite outcome_frames. destruct o as [| |e]; [reflexivity|reflexivity|].
    destruct K as (reported & M & C & _). destruct Fail; congruence. }
  split; [exact F|]. split.
  - unfold step. rewrite Sc. unfold Folio.sync_framesRef. cbn [isZipping].
    rewrite V3. destruct (isZipping app); [reflexivity|].
    unfold handleDownload. cbn [frames]. rewrite F. reflexivity.
  - intros Z. unfold step. rewrite Sc. unfold Folio.sync_framesRef at 1. cbn [isZipping].
    rewrite V3, Z. unfold rendered. eexists. split; [reflexivity|]. reflexivity.
Qed.

Lemma picked_file_lands_on_gallery_witness :
  exists st',
    step (PickFile [] (mkSource None 0 0 true (fun _ _ => NoBlob)))
         (initialApp, initialWorld) = Some st' /\
    screen (fst st') = Gallery /\ frames (fst st') = [].
Proof.
  destruct (step (PickFile [] (mkSource None 0 0 true (fun _ _ => NoBlob)))
                 (initialApp, initialWorld)) as [st'|] eqn:E; [|discriminate E].
  exists st'. split; [reflexivity|].
  destruct (picked_file_lands_on_gallery _ _ _ _ _ E) as (A & _ & _ & B).
  split; [exact A|]. destruct (B (or_introl eq_refl)) as [F _]. exact F.
Defined.

(** ** The gallery after a run, deleting, discarding *)

Lemma pass_frames_selected src sel (g : nat -> num) (n : nat) (fs : list PortfolioFrame) :
  map frame_data fs = flat_map (fun j => pass_frames src sel (g j) j) (seq 0 n) ->
  Forall (fun f => selected f = sel /\
                   id f = ("frame-" ++ Text.toFixed2 (timestamp f))%string) fs.
Proof.
  intros E. apply List.Forall_forall. intros f Hf.
  assert (In (frame_data f) (map frame_data fs)) as I by (apply in_map; exact Hf).
  rewrite E in I. apply in_flat_map in I as (j & _ & I).
  unfold pass_frames in I. destruct (capture src j (g j)); [|contradiction..].
  destruct I as [I|[]]. unfold frame_data in I. injection I as I1 I2 I3 I4.
  split; [symmetry; exact I3|]. rewrite <- I4. symmetry. exact I1.
Qed.

Lemma filter_selected_all (b : bool) (fs : list PortfolioFrame) :
  Forall (fun f => selected f = b) fs ->
  List.filter selected fs = if b then fs else [].
Proof.
  induction 1 as [|f fs Hf _ IH]; [destruct b; reflexivity|].
  simpl. rewrite Hf, IH. destruct b; reflexivity.
Qed.

Lemma abandoned_stamped src w r (sel : bool) :
  abandoned src w r ->
  Forall (fun f => selected f = sel /\
                   id f = ("frame-" ++ Text.toFixed2 (timestamp f))%string) (frames (fst r)).
Proof. intros (-> & _). constructor. Qed.

Lemma decoded_stamped src sel start interval duration ceiling w r :
  sampled_as_decoded src sel start interval duration ceiling w r ->
  Forall (fun f => selected f = sel /\
                   id f = ("frame-" ++ Text.toFixed2 (timestamp f))%string) (frames (fst r)).
Proof.
  intros (n & _ & _ & E & _). eapply pass_frames_selected. exact E.
Qed.

(** X8: the gallery right after a run.  Every frame has the id
    ["frame-" + timestamp.toFixed(2)].  In [Folio] no frame is selected, so
    the selected count is 0 and a download is refused with the "nothing
    selected" alert until the user selects something; in [Curator] and
    [src/index.tsx] every frame is selected. *)
Theorem fresh_gallery_selection :
  (forall src file app w,
     exists app' w',
       Folio.processVideo Folio.MAX_LOOPS src file app w = Some (app', w') /\
       Forall (fun f => selected f = false /\
                        id f = ("frame-" ++ Text.toFixed2 (timestamp f))%string)
              (frames app') /\
       selectedCount app' = 0 /\
       handleDownload app' w' = (None, alert errNoSel w')) /\
  (forall src file app w,
     exists app' w',
       Curator.processVideo Curator.MAX_LOOPS src file app w = Some (app', w') /\
       Forall (fun f => selected f = true /\
                        id f = ("frame-" ++ Text.toFixed2 (timestamp f))%string)
              (frames app') /\
       selectedCount app' = length (frames app')) /\
  (forall src file app w,
     exists app' w',
       Index.processVideo 30 src file app w = Some (app', w') /\
       Forall (fun f => selected f = true /\
                        id f = ("frame-" ++ Text.toFixed2 (timestamp f))%string)
              (frames app') /\
       selectedCount app' = length (frames app')).
Proof.
  split; [|split]; intros src file app w.
  - destruct (folio_run_decoded src file app w) as ([app' w'] & R & Sh).
    exists app', w'. split; [exact R|].
    assert (St : Forall (fun f => selected f = false /\
                   id f = ("frame-" ++ Text.toFixed2 (timestamp f))%string) (frames app')).
    { destruct (metadata src); [destruct (context2d src)|];
        [exact (decoded_stamped _ _ _ _ _ _ _ _ Sh)
        |exact (abandoned_stamped _ _ _ _ Sh)..]. }
    split; [exact St|].
    assert (Fl : List.filter selected (frames app') = []).
    { apply (filter_selected_all false). eapply List.Forall_impl; [|exact St].
      intros f [H _]; exact H. }
    split; [unfold selectedCount; rewrite Fl; reflexivity|].
    unfold handleDownload. rewrite Fl. reflexivity.
  - destruct (curator_run_decoded src file app w) as ([app' w'] & R & Sh).
    exists app', w'. split; [exact R|].
    assert (St : Forall (fun f => selected f = true /\
                   id f = ("frame-" ++ Text.toFixed2 (timestamp f))%string) (frames app')).
    { destruct (metadata src); [destruct (context2d src)|];
        [exact (decoded_stamped _ _ _ _ _ _ _ _ Sh)
        |exact (abandoned_stamped _ _ _ _ Sh)..]. }
    split; [exact St|].
    unfold selectedCount. rewrite (filter_selected_all true); [reflexivity|].
    eapply List.Forall_impl; [|exact St]. intros f [H _]; exact H.
  - destruct (index_run_decoded src file app w) as ([app' w'] & R & Sh).
    exists app', w'. split; [exact R|].
    assert (St : Forall (fun f => selected f = true /\
                   id f = ("frame-" ++ Text.toFixed2 (timestamp f))%string) (frames app')).
    { destruct (metadata src); [destruct (context2d src)|];
        [exact (decoded_stamped _ _ _ _ _ _ _ _ Sh)
        |exact (abandoned_stamped _ _ _ _ Sh)..]. }
    split; [exact St|].
    unfold selectedCount. rewrite (filter_selected_all true); [reflexivity|].
    eapply List.Forall_impl; [|exact St]. intros f [H _]; exact H.
Qed.

Lemma index_deleteFrame_match (l1 l2 : list PortfolioFrame) (f : PortfolioFrame)
    (app : App) (w : World) :
  frames app = l1 ++ f :: l2 ->
  distinct_ids (frames app) ->
  frames (fst (Index.deleteFrame (id f) app w)) = l1 ++ l2 /\
  snd (Index.deleteFrame (id f) app w) = on_browser (revokeObjectURL (url f)) w.
Proof.
  intros E D. rewrite E in D.
  destruct (distinct_ids_others l1 l2 f D) as (H1 & H2).
  assert (has_id (id f) f = true) as F by (apply has_id_true; reflexivity).
  unfold Index.deleteFrame. rewrite E.
  rewrite (filter_app_match _ l1 l2 f F H1 H2), (find_app_match _ l1 l2 f F H1).
  split; reflexivity.
Qed.

(** X13: in the gallery a run of [Curator] or [src/index.tsx] leaves
    behind, [deleteFrame] called with the id of a frame removes that frame
    and no other, keeps the others in order, and revokes the URL of that
    frame and nothing else. *)
Theorem curator_and_index_delete_exactly_one :
  (forall src file app w,
     exists app' w',
       Curator.processVideo Curator.MAX_LOOPS src file app w = Some (app', w') /\
       forall l1 f l2, frames app' = l1 ++ f :: l2 ->
         frames (fst (Curator.deleteFrame (id f) app' w')) = l1 ++ l2 /\
         revoked (browser (snd (Curator.deleteFrame (id f) app' w'))) =
           revoked (browser w') ++ [url f]) /\
  (forall src file app w,
     exists app' w',
       Index.processVideo 30 src file app w = Some (app', w') /\
       forall l1 f l2, frames app' = l1 ++ f :: l2 ->
         frames (fst (Index.deleteFrame (id f) app' w')) = l1 ++ l2 /\
         revoked (browser (snd (Index.deleteFrame (id f) app' w'))) =
           revoked (browser w') ++ [url f]).
Proof.
  split; intros src file app w.
  - destruct (curator_processVideo_returns src file app w) as (app' & w' & R & _).
    specialize (R 0). rewrite Nat.add_0_r in R.
    exists app', w'. split; [exact R|].
    destruct (curator_run_spaced _ _ _ _ _ _ (1 # 10) R) as (s & Sp & E);
      [reflexivity|apply curator_interval_tenth|].
    cbn [fst] in E.
    assert (distinct_ids (frames app')) as D
      by (rewrite E; eapply spaced_distinct_ids; [|exact Sp]; discriminate).
    intros l1 f l2 F.
    destruct (deleteFrame_match l1 l2 f app' w' F D) as (A & B).
    unfold Curator.deleteFrame. split; [exact A|]. rewrite B. reflexivity.
  - destruct (index_processVideo_returns src file app w) as (app' & w' & R & _).
    specialize (R 0). rewrite Nat.add_0_r in R.
    exists app', w'. split; [exact R|].
    destruct (index_run_spaced _ _ _ _ _ _ (1 # 2) R) as (s & Sp & E);
      [reflexivity|apply index_interval_half|].
    cbn [fst] in E.
    assert (distinct_ids (frames app')) as D
      by (rewrite E; eapply spaced_distinct_ids; [|exact Sp]; discriminate).
    intros l1 f l2 F.
    destruct (index_deleteFrame_match l1 l2 f app' w' F D) as (A & B).
    split; [exact A|]. rewrite B. reflexivity.
Qed.

Lemma successor_of_In (l1 l2 : list PortfolioFrame) (e : PortfolioFrame) :
  successor_of l1 l2 = Some e -> In e (l1 ++ l2).
Proof.
  unfold successor_of. destruct l2 as [|next l2].
  - destruct (rev l1) as [|previous rl] eqn:R; [discriminate|].
    intros [= <-]. rewrite app_nil_r. apply in_rev. rewrite R. left. reflexivity.
  - intros [= <-]. apply in_or_app. right. left. reflexivity.
Qed.

(** X17: where ids are pairwise different and the lightbox shows a frame
    of the gallery, after [deleteFrame] the lightbox is closed only when
    the gallery became empty; otherwise it shows a frame that is still in
    the gallery and is not the deleted one: the same frame as before when
    another frame was deleted. *)
Theorem delete_keeps_lightbox_in_gallery (l1 l2 : list PortfolioFrame)
    (f e : PortfolioFrame) (app : App) (w : World) :
  frames app = l1 ++ f :: l2 ->
  distinct_ids (frames app) ->
  expandedFrame app = Some e ->
  In e (frames app) ->
  let app' := fst (Folio.deleteFrame (id f) app w) in
  frames app' = l1 ++ l2 /\
  match expandedFrame app' with
  | Some e' => In e' (frames app') /\ id e' <> id f /\ (e <> f -> e' = e)
  | None => l1 ++ l2 = []
  end.
Proof.
  intros F D E I app'.
  destruct (deleteFrame_distinct_ids l1 l2 f app w F D) as (Fr & _ & _ & _ & Em & Ne).
  fold app' in Fr, Em, Ne. split; [exact Fr|].
  pose proof D as D'. rewrite F in D'.
  destruct (distinct_ids_others l1 l2 f D') as [N1 N2].
  assert (Others : forall g, In g (l1 ++ l2) -> id g <> id f).
  { intros g Hg. apply has_id_false. apply in_app_or in Hg as [Hg|Hg].
    - exact (proj1 (List.Forall_forall _ _) N1 g Hg).
    - exact (proj1 (List.Forall_forall _ _) N2 g Hg). }
  destruct (l1 ++ l2) as [|g rest] eqn:L.
  - destruct (Em eq_refl) as [-> _]. reflexivity.
  - assert (g :: rest <> []) as Nn by discriminate.
    destruct (Ne Nn) as [_ Ex].
    destruct (has_id (id f) e) eqn:He.
    + apply has_id_true in He. rewrite (Ex e E He).
      destruct (successor_of l1 l2) as [e'|] eqn:Su.
      * apply successor_of_In in Su. rewrite L in Su.
        split; [rewrite Fr; exact Su|].
        split; [apply Others; exact Su|].
        intros Nef. exfalso. apply Nef.
        rewrite F in I. apply in_app_or in I as [I|[I|I]].
        -- exfalso. apply (Others e); [|exact He].
           rewrite <- L. apply in_or_app. left. exact I.
        -- symmetry. exact I.
        -- exfalso. apply (Others e); [|exact He].
           rewrite <- L. apply in_or_app. right. exact I.
      * exfalso. unfold successor_of in Su. destruct l2; [|discriminate].
        destruct (rev l1) eqn:R; [|discriminate].
        apply (f_equal (@rev _)) in R. rewrite rev_involutive in R. subst l1.
        discriminate L.
    + assert (expandedFrame app' = Some e) as ->.
      { subst app'. unfold Folio.deleteFrame. rewrite F.
        rewrite (filter_app_match _ l1 l2 f (proj2 (has_id_true _ _) eq_refl) N1 N2), L.
        cbn [length Nat.eqb fst expandedFrame]. rewrite E, He. reflexivity. }
      apply has_id_false in He.
      split; [|split; [exact He|reflexivity]].
      rewrite Fr. rewrite F in I. apply in_app_or in I as [I|[I|I]].
      * rewrite <- L. apply in_or_app. left. exact I.
      * exfalso. apply He. rewrite I. reflexivity.
      * rewrite <- L. apply in_or_app. right. exact I.
Qed.

Lemma delete_keeps_lightbox_in_gallery_witness :
  let f := mkFrame "frame-0.10" 1 [] false (Fin (1 # 10)) in
  let g := mkFrame "frame-0.43" 2 [] true (Fin (13 # 30)) in
  let app := mkApp (Some []) false (of_Z 100) [f; g] false (Some f) (of_Z 1) [f; g] 0 in
  frames (fst (Folio.deleteFrame "frame-0.10" app initialWorld)) = [g] /\
  expandedFrame (fst (Folio.deleteFrame "frame-0.10" app initialWorld)) = Some g.
Proof.
  intros f g app.
  assert (D : distinct_ids (frames app)).
  { unfold distinct_ids. simpl. repeat constructor; simpl; intuition discriminate. }
  destruct (delete_keeps_lightbox_in_gallery [] [g] f f app initialWorld
              eq_refl D eq_refl (or_introl eq_refl)) as (A & _).
  split; [exact A|reflexivity].
Defined.

Lemma world_eta (w : World) : mkWorld (browser w) (progressLog w) (alerts w) = w.
Proof. destruct w; reflexivity. Qed.

(** X18: [handleRerun] from a state with consistent handles: the page is
    back on the upload screen with no frame, no file and progress 0; the
    URL of every frame was revoked, once, and is no longer live.  After
    the render that follows, a second [handleRerun] and the unmount
    cleanup find nothing to revoke.  The unmount cleanup alone revokes the
    URL of every frame in the same way. *)
Theorem discarding_releases_every_frame (app : App) (w : World) :
  handles_ok (app, w) ->
  let r := Folio.handleRerun app w in
  let app' := Folio.sync_framesRef (fst r) in
  (isProcessing app' = false /\ videoFile app' = None /\ frames app' = [] /\
   screen app' = UploadScreen /\ progress app' = of_Z 0) /\
  revoked (browser (snd r)) = revoked (browser w) ++ urls (frames app) /\
  (forall u, u ∈ urls (frames app) -> u ∉ live (browser (snd r))) /\
  store_ok (browser (snd r)) /\
  Folio.handleRerun app' (snd r) = (app', snd r) /\
  Folio.unmount app' (snd r) = snd r /\
  revoked (browser (Folio.unmount app w)) = revoked (browser w) ++ urls (frames app) /\
  (forall u, u ∈ urls (frames app) -> u ∉ live (browser (Folio.unmount app w))).
Proof.
  intros (FR & N & L & Sok) r app'. cbn [fst snd] in FR, N, L, Sok.
  destruct (revoke_all_store (frames app) (browser w) Sok N L) as (S' & R' & _ & L').
  subst r app'. unfold Folio.handleRerun, Folio.unmount, Folio.sync_framesRef, screen.
  cbn [fst snd frames framesRef videoFile isProcessing progress on_browser browser
       isZipping expandedFrame framepSecond timers revoke_all fold_left].
  rewrite FR.
  split; [repeat split|]. split; [exact R'|].
  split; [intros u Hu Hl; apply L' in Hl as [_ Hl]; contradiction|].
  split; [exact S'|].
  split; [f_equal; apply world_eta|].
  split; [apply world_eta|].
  split; [exact R'|].
  intros u Hu Hl; apply L' in Hl as [_ Hl]; contradiction.
Qed.

Lemma discarding_releases_every_frame_witness :
  let f := mkFrame "frame-0.10" 1 [] false (Fin (1 # 10)) in
  let app := mkApp (Some []) false (of_Z 100) [f] false None (of_Z 1) [f] 0 in
  let w := mkWorld (mkBrowser 2 {[ 1 ]} [0]) [] [] in
  revoked (browser (snd (Folio.handleRerun app w))) = [0; 1].
Proof.
  intros f app w.
  assert (H : handles_ok (app, w)).
  { split; [reflexivity|]. split; [apply NoDup_singleton|]. split.
    - intros u Hu. apply list_elem_of_singleton in Hu as ->. cbn. set_solver.
    - split; [apply NoDup_singleton|]. cbn. split.
      + intros u Hu. apply elem_of_singleton in Hu as ->. lia.
      + intros u Hu. apply list_elem_of_singleton in Hu as ->. split; [lia|].
        intros Hl. apply elem_of_singleton in Hl. discriminate Hl. }
  exact (proj1 (proj2 (discarding_releases_every_frame app w H))).
Defined.

Lemma revoke_all_live (fs : list PortfolioFrame) (b : Browser) (u : nat) :
  u ∈ live (revoke_all fs b) <-> u ∈ live b /\ u ∉ urls fs.
Proof.
  unfold revoke_all. revert b. induction fs as [|f fs IH]; intros b; simpl.
  - split; [intros H; split; [exact H|apply not_elem_of_nil]|tauto].
  - rewrite IH. simpl. unfold urls. simpl. set_solver.
Qed.

(** X22: in [src/index.tsx] the cleanup effect is keyed on [frames], so
    the render after any handler that replaces [frames] revokes the URL of
    every frame the gallery held.  After toggling one frame, after
    "select all", and after deleting one frame, no frame that is still in
    the gallery has a live URL; after [handleRerun] every URL has been
    revoked twice. *)
Theorem index_render_revokes_the_gallery (i : string) (b : bool) (app : App) (w : World) :
  gallery_released app w
    (Index_commit_frames (frames app) (Index.toggleFrameSelection i app, w)) /\
  gallery_released app w
    (Index_commit_frames (frames app) (selectAll b app, w)) /\
  (forall u, u ∈ urls (frames (fst (Index.deleteFrame i app w))) ->
             u ∉ live (browser (snd (Index_commit_frames (frames app)
                                       (Index.deleteFrame i app w))))) /\
  revoked (browser (snd (Index_commit_frames (frames app) (Index.handleRerun app w)))) =
    revoked (browser w) ++ urls (frames app) ++ urls (frames app).
Proof.
  unfold gallery_released, Index_commit_frames, Index.frames_effect_cleanup.
  cbn [fst snd]. split; [|split; [|split]].
  - split; [apply revoke_all_log|].
    assert (urls (frames (Index.toggleFrameSelection i app)) = urls (frames app)) as U.
    { unfold Index.toggleFrameSelection. cbn [frames]. apply urls_map_same.
      intros f. destruct (has_id i f); reflexivity. }
    rewrite U. intros u Hu. split; [exact Hu|].
    cbn [on_browser browser]. rewrite revoke_all_live. tauto.
  - split; [apply revoke_all_log|].
    assert (urls (frames (selectAll b app)) = urls (frames app)) as U.
    { unfold selectAll. cbn [frames]. apply urls_map_same. reflexivity. }
    rewrite U. intros u Hu. split; [exact Hu|].
    cbn [on_browser browser]. rewrite revoke_all_live. tauto.
  - intros u Hu. cbn [on_browser browser]. rewrite revoke_all_live.
    intros [_ Nu]. apply Nu.
    unfold Index.deleteFrame in Hu.
    assert (u ∈ urls (List.filter (fun f => negb (has_id i f)) (frames app))) as Hu'.
    { destruct (List.find (has_id i) (frames app)); exact Hu. }
    unfold urls in *. apply list_elem_of_fmap in Hu' as (f & -> & Hf).
    apply list_elem_of_fmap_2. apply list_elem_of_In in Hf.
    apply filter_In in Hf as [Hf _]. apply list_elem_of_In. exact Hf.
  - unfold Index.handleRerun. cbn [snd on_browser browser].
    rewrite !revoke_all_log, <- app_assoc. reflexivity.
Qed.

(** ** The archive *)


Lemma zip_entries_from_all_names (fs : list PortfolioFrame) (a : nat) :
  map fst (zip_entries_from a fs) = map entry_name (seq a (length fs)).
Proof.
  revert a. induction fs as [|f fs IH]; intros a; [reflexivity|].
  simpl. rewrite IH. reflexivity.
Qed.



Lemma names_sorted_from (n a k : nat) :
  names_sorted_up_to n -> a + k <= n ->
  StronglySorted string_before (map entry_name (seq a k)).
Proof.
  intros S. revert a. induction k as [|k IH]; intros a L; cbn [seq map]; constructor.
  - apply IH. lia.
  - apply List.Forall_forall. intros x Hx. apply in_map_iff in Hx as (j & <- & Hj).
    apply in_seq in Hj. unfold string_before.
    specialize (S a j ltac:(lia) ltac:(lia)). unfold name_before in S.
    destruct (String.compare (entry_name a) (entry_name j)); [discriminate|reflexivity|discriminate].
Qed.

(** X6: with at most 99 frames in the gallery, the names of the archive
    entries sort, as strings, in the order of the frames. *)
Theorem download_names_in_order_up_to_99 (app : App) (w : World) :
  length (frames app) <= 99 ->
  forall entries w',
    handleDownload app w = (Some entries, w') ->
    StronglySorted string_before (map fst entries).
Proof.
  intros L entries w'. unfold handleDownload.
  destruct (length (List.filter selected (frames app)) =? 0); [discriminate|].
  unfold createObjectURL. intros [= <- _].
  rewrite zip_entries_from_all_names.
  apply (names_sorted_from 99); [exact names_sorted_up_to_99|].
  pose proof (filter_length_le selected (frames app)). simpl. lia.
Qed.

Lemma download_names_in_order_up_to_99_witness :
  let f := mkFrame "frame-0.10" 1 [] true (Fin (1 # 10)) in
  let g := mkFrame "frame-0.43" 2 [] true (Fin (13 # 30)) in
  let app := mkApp (Some []) false (of_Z 100) [f; g] false None (of_Z 1) [f; g] 0 in
  exists entries w',
    handleDownload app initialWorld = (Some entries, w') /\
    StronglySorted string_before (map fst entries).
Proof.
  intros f g app.
  destruct (handleDownload app initialWorld) as [[entries|] w'] eqn:E; [|discriminate E].
  exists entries, w'. split; [reflexivity|].
  exact (download_names_in_order_up_to_99 app initialWorld ltac:(simpl; lia) entries w' E).
Defined.

(** ** The initial language and the time labels *)

Lemma before_dash_app (tag rest : string) :
  I18n.before_dash tag = tag ->
  I18n.before_dash (tag ++ String "-" rest) = tag.
Proof.
  induction tag as [|c tag IH]; intros H.
  - reflexivity.
  - cbn [I18n.before_dash] in H.
    change (String c tag ++ String "-" rest)%string
      with (String c (tag ++ String "-" rest)).
    cbn [I18n.before_dash].
    destruct (Ascii.eqb c "-"); [discriminate H|].
    injection H as H. rewrite (IH H). reflexivity.
Qed.

(** X25: [getInitialLanguage] looks at [navigator.language] up to its
    first ['-'] only, so a region suffix never changes the answer; and it
    answers a language other than English only for the tags [zh], [fr],
    [de] and [es], spelled so. *)
Theorem initial_language_ignores_region (tag region : string) :
  I18n.before_dash tag = tag ->
  I18n.getInitialLanguage (tag ++ String "-" region) = I18n.getInitialLanguage tag /\
  (I18n.getInitialLanguage tag <> I18n.en ->
   tag = "zh" \/ tag = "fr" \/ tag = "de" \/ tag = "es")%string.
Proof.
  intros H. unfold I18n.getInitialLanguage. rewrite before_dash_app by exact H.
  rewrite H. split; [reflexivity|].
  destruct (String.eqb_spec tag "zh"); [auto|].
  destruct (String.eqb_spec tag "fr"); [auto|].
  destruct (String.eqb_spec tag "de"); [auto|].
  destruct (String.eqb_spec tag "es"); [auto|].
  intros N. contradiction.
Qed.

Lemma initial_language_ignores_region_witness :
  I18n.getInitialLanguage "zh-CN" = I18n.zh.
Proof.
  exact (proj1 (initial_language_ignores_region "zh" "CN" eq_refl)).
Defined.

Lemma Qfloor_quot (x : Q) :
  (0 <= x)%Q -> Z.quot (Qnum x) (Z.pos (Qden x)) = Qfloor x.
Proof.
  intros P. destruct x as [n d]. unfold Qle in P. simpl in *.
  apply Z.quot_div_nonneg; lia.
Qed.

Lemma Qfloor_unique (x : Q) (z : Z) :
  (inject_Z z <= x)%Q -> (x < inject_Z (z + 1))%Q -> Qfloor x = z.
Proof.
  intros L U.
  assert (z <= Qfloor x)%Z.
  { rewrite <- (Qfloor_Z z). apply Qfloor_resp_le. exact L. }
  assert (Qfloor x < z + 1)%Z.
  { apply Z.lt_nge. intros G.
    assert (inject_Z (z + 1) <= x)%Q; [|lra].
    apply Qle_trans with (inject_Z (Qfloor x)); [|apply Qfloor_le].
    rewrite <- Zle_Qle. exact G. }
  lia.
Qed.

Lemma Qfloor_thousand (q : Q) : (Qfloor (q * 1000) / 1000)%Z = Qfloor q.
Proof.
  symmetry. apply Z.div_unique with (r := (Qfloor (q * 1000) - 1000 * Qfloor q)%Z); [|lia].
  left.
  pose proof (Qfloor_le q) as A. pose proof (Qlt_floor q) as B.
  pose proof (Qfloor_le (q * 1000)) as C. pose proof (Qlt_floor (q * 1000)) as D.
  rewrite inject_Z_plus in B, D. change (inject_Z 1) with 1%Q in B, D.
  split.
  - assert (1000 * Qfloor q <= Qfloor (q * 1000))%Z; [|lia].
    rewrite <- (Qfloor_Z (1000 * Qfloor q)). apply Qfloor_resp_le.
    rewrite inject_Z_mult. change (inject_Z 1000) with 1000%Q. lra.
  - assert (Qfloor (q * 1000) < 1000 * Qfloor q + 1000)%Z; [|lia].
    rewrite Zlt_Qlt. rewrite inject_Z_plus, inject_Z_mult.
    change (inject_Z 1000) with 1000%Q. lra.
Qed.

Lemma timeLabel_clock (q : Q) :
  (0 <= q)%Q -> (q < 253402300800)%Q ->
  timeLabel (Fin q) = Shown (clock (Qfloor q)).
Proof.
  intros P U.
  unfold timeLabel, mul, of_Z. change (inject_Z 1000) with 1000%Q.
  assert (0 <= Qred (q * 1000))%Q as P' by (rewrite Qred_correct; lra).
  assert (0 <= Qfloor (q * 1000))%Z as F0.
  { change 0%Z with (Qfloor 0). apply Qfloor_resp_le. lra. }
  assert (Qfloor (q * 1000) < 253402300800000)%Z as F1.
  { rewrite Zlt_Qlt. apply Qle_lt_trans with (q * 1000)%Q; [apply Qfloor_le|].
    change (inject_Z 253402300800000) with 253402300800000%Q. lra. }
  assert (Qlt_bool 8640000000000000 (Qred (q * 1000)) = false) as ->
    by (apply Qlt_bool_false_iff; rewrite Qred_correct; lra).
  assert (Qlt_bool (Qred (q * 1000)) (-8640000000000000) = false) as ->
    by (apply Qlt_bool_false_iff; rewrite Qred_correct; lra).
  cbn [orb]. cbv zeta. rewrite (Qfloor_quot _ P').
  assert (Qfloor (Qred (q * 1000)) = Qfloor (q * 1000)) as ->
    by (apply Qfloor_comp, Qred_correct).
  destruct (-62167219200000 <=? Qfloor (q * 1000))%Z eqn:B;
    [|apply Z.leb_gt in B; lia].
  destruct (Qfloor (q * 1000) <? 253402300800000)%Z eqn:C;
    [|apply Z.ltb_ge in C; lia].
  cbn [andb]. unfold clock. f_equal.
  rewrite <- (Qfloor_thousand q).
  rewrite Z.div_div by lia. reflexivity.
Qed.

Lemma clock_hour (seconds : Z) : clock (seconds + 3600) = clock seconds.
Proof.
  unfold clock. f_equal; [|f_equal]; f_equal.
  - replace (seconds + 3600)%Z with (seconds + 60 * 60)%Z by lia.
    rewrite Z.div_add by lia.
    replace (seconds / 60 + 60)%Z with (seconds / 60 + 1 * 60)%Z by lia.
    rewrite Z.mod_add by lia. reflexivity.
  - replace (seconds + 3600)%Z with (seconds + 60 * 60)%Z by lia.
    rewrite Z.mod_add by lia. reflexivity.
Qed.

(** X23: the label of a frame,
    [new Date(timestamp * 1000).toISOString().substr(14, 5)], for a
    timestamp from 0 up to the year 9999: it reads [mm:ss] of the whole
    seconds of the timestamp, minutes modulo 60.  So the label repeats
    every hour, and two timestamps within the same second get the same
    label. *)
Theorem time_label_shows_minutes_and_seconds (q : Q) :
  (0 <= q)%Q -> (q + 3600 < 253402300800)%Q ->
  timeLabel (Fin q) = Shown (clock (Qfloor q)) /\
  timeLabel (Fin (q + 3600)) = timeLabel (Fin q) /\
  (forall q', (0 <= q')%Q -> Qfloor q' = Qfloor q ->
              timeLabel (Fin q') = timeLabel (Fin q)).
Proof.
  intros P U.
  assert (timeLabel (Fin q) = Shown (clock (Qfloor q))) as A
    by (apply timeLabel_clock; lra).
  split; [exact A|]. split.
  - rewrite A, timeLabel_clock by lra.
    assert (Qfloor (q + 3600) = Qfloor q + 3600)%Z as ->.
    { apply Qfloor_unique.
      - rewrite inject_Z_plus. change (inject_Z 3600) with 3600%Q.
        pose proof (Qfloor_le q). lra.
      - rewrite !inject_Z_plus. change (inject_Z 3600) with 3600%Q.
        change (inject_Z 1) with 1%Q.
        pose proof (Qlt_floor q) as B. rewrite inject_Z_plus in B.
        change (inject_Z 1) with 1%Q in B. lra. }
    rewrite clock_hour. reflexivity.
  - intros q' P' E. rewrite A, timeLabel_clock, E; [reflexivity|exact P'|].
    pose proof (Qlt_floor q') as B. pose proof (Qfloor_le q) as C.
    rewrite E, inject_Z_plus in B. change (inject_Z 1) with 1%Q in B. lra.
Qed.

Lemma time_label_shows_minutes_and_seconds_witness :
  timeLabel (Fin (3725 # 1)) = Shown "02:05" /\
  timeLabel (Fin ((3725 # 1) + 3600)) = timeLabel (Fin (3725 # 1)).
Proof.
  destruct (time_label_shows_minutes_and_seconds (3725 # 1)
              ltac:(discriminate) ltac:(reflexivity)) as (A & B & _).
  split; [exact A|exact B].
Defined.

(** X24: for a video whose duration is within the years [toISOString]
    prints with four digits, the label of every frame of a run of [Folio]
    or [Curator] is defined ([toISOString] does not throw) and reads
    [mm:ss] of the frame's timestamp. *)
Theorem gallery_labels_never_throw (src : Source) (file : Blob) (app : App) (w : World) :
  (exists d, run_duration src = Fin d /\ (d <= 253402300800)%Q) ->
  (exists app' w',
     Folio.processVideo Folio.MAX_LOOPS src file app w = Some (app', w') /\
     Forall (fun f => exists q, timestamp f = Fin q /\
                                timeLabel (timestamp f) = Shown (clock (Qfloor q)))
            (frames app')) /\
  (exists app' w',
     Curator.processVideo Curator.MAX_LOOPS src file app w = Some (app', w') /\
     Forall (fun f => exists q, timestamp f = Fin q /\
                                timeLabel (timestamp f) = Shown (clock (Qfloor q)))
            (frames app')).
Proof.
  intros (d & Ed & D).
  assert (forall fs, Forall (in_range (run_duration src)) fs ->
            Forall (fun f => exists q, timestamp f = Fin q /\
                                timeLabel (timestamp f) = Shown (clock (Qfloor q))) fs) as K.
  { intros fs F. eapply List.Forall_impl; [|exact F].
    intros f [L U]. rewrite Ed in U.
    destruct (timestamp f) as [| | |q]; try discriminate L; try discriminate U.
    apply le_Fin in L. apply lt_Fin in U. change (inject_Z 0) with 0%Q in L.
    exists q. split; [reflexivity|]. apply timeLabel_clock; lra. }
  split.
  - destruct (folio_processVideo_returns src file app w) as (app' & w' & R & _).
    specialize (R 0). rewrite Nat.add_0_r in R.
    exists app', w'. split; [exact R|].
    assert (exists i, Folio.plan_interval (framepSecond app) (run_duration src) = Fin i /\
                      (0 < i)%Q) as (i & Ei & I).
    { rewrite Ed. unfold run_duration in Ed. destruct (metadata src) as [reported|].
      - destruct (sane_duration_pos reported) as (d' & Ed' & D'). rewrite Ed' in Ed.
        injection Ed as <-. apply plan_interval_pos. exact D'.
      - injection Ed as <-. apply plan_interval_pos. reflexivity. }
    destruct (folio_run_spaced _ _ _ _ _ _ i R I) as (s & Sp & E).
    + right. exists i. split; [exact Ei|apply Qle_refl].
    + cbn [fst] in E. rewrite E. apply K. eapply spaced_in_order; [exact I|exact Sp].
  - destruct (curator_processVideo_returns src file app w) as (app' & w' & R & _).
    specialize (R 0). rewrite Nat.add_0_r in R.
    exists app', w'. split; [exact R|].
    destruct (curator_run_spaced _ _ _ _ _ _ (1 # 10) R) as (s & Sp & E);
      [reflexivity|apply curator_interval_tenth|].
    cbn [fst] in E. rewrite E. apply K. eapply spaced_in_order; [|exact Sp]. reflexivity.
Qed.

Lemma gallery_labels_never_throw_witness :
  exists app' w',
    Folio.processVideo Folio.MAX_LOOPS (steady_source (of_Z 10)) [] initialApp initialWorld
      = Some (app', w') /\
    Forall (fun f => exists q, timestamp f = Fin q /\
                               timeLabel (timestamp f) = Shown (clock (Qfloor q)))
           (frames app').
Proof.
  apply (gallery_labels_never_throw (steady_source (of_Z 10)) [] initialApp initialWorld).
  exists 10%Q. split; [reflexivity|discriminate].
Defined.

(** ** Counting the frames, the last frame, the variants compared *)





Lemma findIndex_from_no_match {A : Type} (p : A -> bool) (l : list A) (a : Z) :
  Forall (fun x => p x = false) l -> findIndex_from p l a = (-1)%Z.
Proof.
  intros F. revert a. induction F as [|x l Hx _ IH]; intros a; [reflexivity|].
  simpl. rewrite Hx. apply IH.
Qed.

(** X27: when no frame of the gallery carries the id of the frame in the
    lightbox, or the lightbox is closed, [currentIndex] is [-1], neither
    arrow is offered, and [goToNext], [goToPrev] and the arrow keys change
    nothing. *)
Theorem navigation_without_match (app : App) :
  match expandedFrame app with
  | Some e => Forall (fun g => has_id (id e) g = false) (frames app)
  | None => True
  end ->
  currentIndex app = (-1)%Z /\ hasPrev app = false /\ hasNext app = false /\
  goToNext app = app /\ goToPrev app = app /\
  handleKeyDown "ArrowLeft" app = app /\ handleKeyDown "ArrowRight" app = app.
Proof.
  intros H.
  assert (C : currentIndex app = (-1)%Z).
  { unfold currentIndex. destruct (expandedFrame app) as [e|]; [|reflexivity].
    apply findIndex_from_no_match. exact H. }
  assert (P : hasPrev app = false) by (unfold hasPrev; rewrite C; reflexivity).
  assert (N : hasNext app = false) by (unfold hasNext; rewrite C; reflexivity).
  assert (Gn : goToNext app = app) by (unfold goToNext; rewrite N; reflexivity).
  assert (Gp : goToPrev app = app) by (unfold goToPrev; rewrite P; reflexivity).
  repeat (split; [assumption|]).
  unfold handleKeyDown. destruct (expandedFrame app); cbn; rewrite ?Gn, ?Gp; split; reflexivity.
Qed.

Lemma navigation_without_match_witness :
  let f := mkFrame "frame-0.10" 1 [] false (Fin (1 # 10)) in
  let g := mkFrame "frame-0.43" 2 [] true (Fin (13 # 30)) in
  let app := mkApp (Some []) false (of_Z 100) [f] false (Some g) (of_Z 1) [f] 0 in
  goToNext app = app /\ goToPrev app = app.
Proof.
  intros f g app.
  assert (H : match expandedFrame app with
              | Some e => Forall (fun h => has_id (id e) h = false) (frames app)
              | None => True
              end).
  { cbn. apply List.Forall_cons; [reflexivity|apply List.Forall_nil]. }
  destruct (navigation_without_match app H) as (_ & _ & _ & A & B & _).
  split; [exact A|exact B].
Defined.

(** X28: deleting the only frame of the gallery revokes its URL, empties
    the gallery, closes the lightbox and sets the timer, with no alert
    yet; the page stays on the gallery screen.  When the timer fires, the
    "bad video" alert is shown, [handleRerun] brings back the upload
    screen, and nothing more is revoked. *)
Theorem deleting_the_last_frame_starts_over (f : PortfolioFrame) (app : App) (w : World) :
  frames app = [f] -> framesRef app = [f] -> isProcessing app = false ->
  exists mid final,
    step (ClickDelete (id f)) (app, w) = Some mid /\
    frames (fst mid) = [] /\ expandedFrame (fst mid) = None /\
    timers (fst mid) = S (timers app) /\
    revoked (browser (snd mid)) = revoked (browser w) ++ [url f] /\
    alerts (snd mid) = alerts w /\
    screen (fst mid) =
      match videoFile app with Some _ => Gallery | None => UploadScreen end /\
    step TimerFires mid = Some final /\
    screen (fst final) = UploadScreen /\
    videoFile (fst final) = None /\ frames (fst final) = [] /\
    timers (fst final) = timers app /\
    alerts (snd final) = alerts w ++ [warnBadVideo] /\
    revoked (browser (snd final)) = revoked (browser w) ++ [url f].
Proof.
  intros F R P.
  assert (has_id (id f) f = true) as H by (apply has_id_true; reflexivity).
  unfold step at 1. unfold screen at 1, offered, rendered. rewrite F, P.
  cbn [existsb]. rewrite H. cbn [orb].
  assert (D : Folio.deleteFrame (id f) app w =
              (mkApp (videoFile app) false (progress app) [] (isZipping app) None
                     (framepSecond app) (framesRef app) (S (timers app)),
               on_browser (revokeObjectURL (url f)) w)).
  { unfold Folio.deleteFrame. rewrite F. cbn [List.filter List.find]. rewrite H.
    cbn [negb length Nat.eqb]. rewrite P. reflexivity. }
  destruct (videoFile app) as [v|] eqn:V; cbv iota; rewrite D;
    (eexists _, _; split; [reflexivity|]);
    cbn [fst snd Folio.sync_framesRef frames expandedFrame timers on_browser browser
         revokeObjectURL revoked alerts videoFile isProcessing progress isZipping
         framepSecond framesRef];
    (split; [reflexivity|]); (split; [reflexivity|]); (split; [reflexivity|]);
    (split; [reflexivity|]); (split; [reflexivity|]); (split; [reflexivity|]);
    (split; [reflexivity|]); repeat split; rewrite ?app_nil_r; reflexivity.
Qed.

Lemma deleting_the_last_frame_starts_over_witness :
  let f := mkFrame "frame-0.10" 1 [] false (Fin (1 # 10)) in
  let app := mkApp (Some []) false (of_Z 100) [f] false None (of_Z 1) [f] 0 in
  exists mid final,
    step (ClickDelete "frame-0.10") (app, initialWorld) = Some mid /\
    step TimerFires mid = Some final /\
    screen (fst final) = UploadScreen.
Proof.
  intros f app.
  destruct (deleting_the_last_frame_starts_over f app initialWorld eq_refl eq_refl eq_refl)
    as (mid & final & A & _ & _ & _ & _ & _ & _ & B & C & _).
  exists mid, final. split; [exact A|]. split; [exact B|exact C].
Defined.

Lemma pass_frames_content src sel sel' (g : nat -> num) (a n : nat) :
  map (fun x : string * Blob * bool * num => (fst (fst (fst x)), snd (fst (fst x)), snd x))
      (flat_map (fun j => pass_frames src sel (g j) j) (seq a n)) =
  map (fun x : string * Blob * bool * num => (fst (fst (fst x)), snd (fst (fst x)), snd x))
      (flat_map (fun j => pass_frames src sel' (g j) j) (seq a n)).
Proof.
  revert a. induction n as [|n IH]; intros a; [reflexivity|].
  cbn [seq flat_map]. rewrite !map_app, IH. f_equal.
  unfold pass_frames. destruct (capture src a (g a)); reflexivity.
Qed.

Lemma frame_content_data (fs : list PortfolioFrame) :
  map frame_content fs =
  map (fun x : string * Blob * bool * num => (fst (fst (fst x)), snd (fst (fst x)), snd x))
      (map frame_data fs).
Proof. rewrite map_map. reflexivity. Qed.

(** The number of passes is fixed by the decoder and the plan, where the
    ceiling is out of reach. *)
Lemma passes_unique src (T : nat -> num) (d : num) (n m : nat) :
  (forall j, j < m -> lt (T j) d = true) ->
  (forall j, S j < m -> capture src j (T j) <> Throws) ->
  ((exists k, n = S k /\ capture src k (T k) = Throws) \/ lt (T n) d = false) ->
  m <= n.
Proof.
  intros In Nt End. destruct (le_gt_dec m n) as [L|G]; [exact L|]. exfalso.
  destruct End as [(k & -> & Th)|Stop].
  - apply (Nt k); [lia|exact Th].
  - rewrite (In n G) in Stop. discriminate Stop.
Qed.

Lemma fallback_passes_below_thirty (d s i : Q) (j : nat) :
  (0 < d)%Q -> (0 < s)%Q -> (d / 30 <= i)%Q ->
  (s + inject_Z (Z.of_nat j) * i < d)%Q -> j < 30.
Proof.
  intros D S0 I L. destruct (le_gt_dec 30 j) as [G|G]; [exfalso|exact G].
  assert (30 <= inject_Z (Z.of_nat j))%Q as B.
  { change 30%Q with (inject_Z 30). rewrite <- Zle_Qle. lia. }
  assert (d <= 30 * i)%Q as Di.
  { unfold Qdiv in I. change (/ 30)%Q with (1 # 30)%Q in I. lra. }
  assert (30 * i <= inject_Z (Z.of_nat j) * i)%Q as M.
  { apply Qmult_le_compat_r; [exact B|].
    apply Qle_trans with (d / 30)%Q; [|exact I].
    apply Qlt_le_weak, Qdiv_pos; [exact D|reflexivity]. }
  lra.
Qed.

(** X29: with a falsy rate ([0] or [NaN]) [Folio] plans as [Curator]
    does, and neither ceiling is reached: from the same decoder the two
    return the same frames (ids, blobs, timestamps) and the same alerts;
    the frames of [Folio] are unselected, those of [Curator] selected. *)
Theorem folio_without_rate_samples_as_curator
    (src : Source) (file : Blob) (app : App) (w : World) :
  truthy (framepSecond app) = false ->
  exists appF wF appC wC,
    Folio.processVideo Folio.MAX_LOOPS src file app w = Some (appF, wF) /\
    Curator.processVideo Curator.MAX_LOOPS src file app w = Some (appC, wC) /\
    map frame_content (frames appF) = map frame_content (frames appC) /\
    alerts wF = alerts wC /\
    Forall (fun f => selected f = false) (frames appF) /\
    Forall (fun f => selected f = true) (frames appC).
Proof.
  intros Fz.
  destruct (folio_run_decoded src file app w) as ([appF wF] & RF & SF).
  destruct (curator_run_decoded src file app w) as ([appC wC] & RC & SC).
  exists appF, wF, appC, wC. split; [exact RF|]. split; [exact RC|].
  assert (forall d, Folio.plan_interval (framepSecond app) d = Curator.plan_interval d) as Pi.
  { intros d. unfold Folio.plan_interval. rewrite rate_test_truthy, Fz. reflexivity. }
  destruct (metadata src) as [reported|].
  2:{ destruct SF as (F1 & A1 & _), SC as (F2 & A2 & _). cbn [fst snd] in *.
      rewrite F1, F2, A1, A2.
      split; [reflexivity|]. split; [reflexivity|]. split; constructor. }
  destruct (context2d src).
  2:{ destruct SF as (F1 & A1 & _), SC as (F2 & A2 & _). cbn [fst snd] in *.
      rewrite F1, F2, A1, A2.
      split; [reflexivity|]. split; [reflexivity|]. split; constructor. }
  cbv zeta in SF, SC. rewrite Pi in SF.
  unfold Curator.sane_duration, Curator.start_offset in SC.
  pose proof (decoded_stamped _ _ _ _ _ _ _ _ SF) as StF.
  pose proof (decoded_stamped _ _ _ _ _ _ _ _ SC) as StC.
  cbn [fst] in StF, StC.
  destruct (sane_duration_pos reported) as (d & Ed & D). rewrite Ed in SF, SC.
  destruct (start_offset_pos d D) as (s & Es & S0). rewrite Es in SF, SC.
  destruct (curator_plan_interval_value d) as (i & Ei & I). rewrite Ei in SF, SC.
  assert (Ib : (d / 30 <= i)%Q) by (rewrite I; apply Q.le_max_r).
  destruct SF as (n & InF & CeF & FrF & NtF & EndF).
  destruct SC as (m & InC & CeC & FrC & NtC & EndC).
  cbn [fst snd] in *.
  assert (Below : forall k, lt (time_at (Fin s) (Fin i) k) (Fin d) = true -> k < 30).
  { intros k L. destruct (time_at_Fin s i k) as (q & Eq & Vq). rewrite Eq in L.
    apply lt_Fin in L. rewrite Vq in L.
    exact (fallback_passes_below_thirty d s i k D S0 Ib L). }
  assert (n <= 30) as Bn.
  { destruct n as [|k]; [lia|]. specialize (Below k (InF k ltac:(lia))). lia. }
  assert (m <= 30) as Bm.
  { destruct m as [|k]; [lia|]. specialize (Below k (InC k ltac:(lia))). lia. }
  assert (EndF' : (exists k, n = S k /\ capture src k (time_at (Fin s) (Fin i) k) = Throws) \/
                  lt (time_at (Fin s) (Fin i) n) (Fin d) = false).
  { destruct EndF as [(k & Ek & Th & _)|(_ & [Stop|Stop] & _)].
    - left. exists k. split; assumption.
    - right. exact Stop.
    - injection Stop as Stop. unfold Folio.MAX_LOOPS in Stop. lia. }
  assert (EndC' : (exists k, m = S k /\ capture src k (time_at (Fin s) (Fin i) k) = Throws) \/
                  lt (time_at (Fin s) (Fin i) m) (Fin d) = false).
  { destruct EndC as [(k & Ek & Th & _)|(_ & [Stop|Stop] & _)].
    - left. exists k. split; assumption.
    - right. exact Stop.
    - injection Stop as Stop. unfold Curator.MAX_LOOPS in Stop. lia. }
  assert (n = m) as <-.
  { apply Nat.le_antisymm.
    - eapply passes_unique; [exact InF|exact NtF|exact EndC'].
    - eapply passes_unique; [exact InC|exact NtC|exact EndF']. }
  split.
  { rewrite !frame_content_data, FrF, FrC. apply pass_frames_content. }
  split.
  { destruct EndF as [(k & Ek & Th & ->)|(Na & _ & ->)];
      destruct EndC as [(k' & Ek' & Th' & ->)|(Na' & _ & ->)]; try reflexivity.
    - exfalso. apply (Na' k); [lia|exact Th].
    - exfalso. apply (Na k'); [lia|exact Th']. }
  split.
  - eapply List.Forall_impl; [|exact StF]. intros f [H _]; exact H.
  - eapply List.Forall_impl; [|exact StC]. intros f [H _]; exact H.
Qed.

Lemma folio_without_rate_samples_as_curator_witness :
  exists appF wF appC wC,
    Folio.processVideo Folio.MAX_LOOPS (steady_source (of_Z 10)) []
      (setFramepSecond (of_Z 0) initialApp) initialWorld = Some (appF, wF) /\
    Curator.processVideo Curator.MAX_LOOPS (steady_source (of_Z 10)) []
      (setFramepSecond (of_Z 0) initialApp) initialWorld = Some (appC, wC) /\
    map frame_content (frames appF) = map frame_content (frames appC).
Proof.
  destruct (folio_without_rate_samples_as_curator (steady_source (of_Z 10)) []
              (setFramepSecond (of_Z 0) initialApp) initialWorld eq_refl)
    as (appF & wF & appC & wC & A & B & C & _).
  exists appF, wF, appC, wC. split; [exact A|]. split; [exact B|exact C].
Defined.
